(** * Telegram weekly-task cron: a shallow embedding of [api/cron.js]

    The serverless function drains the Telegram update feed, applies
    create/close actions to a key-value ledger of tasks (Upstash Redis),
    and sends a chunked report of the tasks that are still open.

    JavaScript strings are sequences of UTF-16 code units; numbers that the
    program handles (identifiers, timestamps, lengths) are integers and are
    modelled in [Z].  String literals are the code units that the source
    file holds. *)

From Stdlib Require Import ZArith List Lia Ascii String Bool.
From Stdlib Require Import Sorting.Sorted Sorting.Permutation.
From stdpp Require Import base option list gmap pretty.

Open Scope Z_scope.

(** ** Strings *)

(** A JavaScript string: its UTF-16 code units. *)
Abbreviation jsstring := (list Z).

(** An ASCII literal of the source as a JavaScript string. *)
Definition lit (s : string) : jsstring :=
  map (fun a => Z.of_N (N_of_ascii a)) (list_ascii_of_string s).

(** [String(n)] and template interpolation of an integer. *)
Definition numToString (z : Z) : jsstring := lit (pretty z).

(** [x.length] of a string or of an array. *)
Definition jslength {A} (x : list A) : Z := Z.of_nat (length x).

(** Truthiness of a string: only the empty string is falsy. *)
Definition truthy (s : jsstring) : bool :=
  match s with [] => false | _ :: _ => true end.

(** [a || b] on optional numbers: [undefined] and [0] are falsy. *)
Definition orNum (a b : option Z) : option Z :=
  match a with
  | Some z => if z =? 0 then b else a
  | None => b
  end.

(** [a || b] on optional strings: [undefined] and [''] are falsy. *)
Definition orStr (a b : option jsstring) : option jsstring :=
  match a with
  | Some s => if truthy s then a else b
  | None => b
  end.

(** [a || b] on optional objects: an object is always truthy. *)
Definition orObj {A} (a b : option A) : option A :=
  match a with
  | Some _ => a
  | None => b
  end.

(** [String(x)] for a number that may be [undefined]. *)
Definition StringOf (x : option Z) : jsstring :=
  match x with
  | Some z => numToString z
  | None => lit "undefined"
  end.

(** ** Code points and the two regular expressions *)

Definition isHighSurrogate (c : Z) : bool := (0xD800 <=? c) && (c <=? 0xDBFF).
Definition isLowSurrogate (c : Z) : bool := (0xDC00 <=? c) && (c <=? 0xDFFF).

(** [String.fromCodePoint(c)] *)
Definition fromCodePoint (c : Z) : jsstring :=
  if c <? 0x10000 then [c]
  else [0xD800 + (c - 0x10000) / 0x400; 0xDC00 + (c - 0x10000) mod 0x400].

(** The code points of a string, as a regular expression with the [u] flag
    reads it: a high surrogate followed by a low one is one code point, any
    other code unit stands for itself. *)
Fixpoint toCodePoints (s : jsstring) : list Z :=
  match s with
  | [] => []
  | a :: r =>
      match r with
      | b :: r' =>
          if isHighSurrogate a && isLowSurrogate b
          then (0x10000 + (a - 0xD800) * 0x400 + (b - 0xDC00)) :: toCodePoints r'
          else a :: toCodePoints r
      | [] => [a]
      end
  end.

(** The alternation [(?:\u{1F3FB}|\u{1F3FC}|\u{1F3FD}|\u{1F3FE}|\u{1F3FF})]. *)
Definition skinTone (m : Z) : bool :=
  (m =? 0x1F3FB) || (m =? 0x1F3FC) || (m =? 0x1F3FD) || (m =? 0x1F3FE) || (m =? 0x1F3FF).

(** [THUMBS_UP_RE] tried at the head of the input: the base glyph, then the
    optional (greedy) skin tone.  The result is the number of code points
    matched. *)
Definition THUMBS_UP_RE_at (cps : list Z) : option nat :=
  match cps with
  | c :: r =>
      if c =? 0x1F44D
      then Some (match r with
                 | m :: _ => if skinTone m then 2%nat else 1%nat
                 | [] => 1%nat
                 end)
      else None
  | [] => None
  end.

(** [THUMBS_UP_RE.exec]: the leftmost match, as (index, length) in code
    points. *)
Fixpoint THUMBS_UP_RE_exec (cps : list Z) : option (nat * nat) :=
  match THUMBS_UP_RE_at cps with
  | Some n => Some (0%nat, n)
  | None =>
      match cps with
      | [] => None
      | _ :: r =>
          match THUMBS_UP_RE_exec r with
          | Some (i, n) => Some (S i, n)
          | None => None
          end
      end
  end.

(** [THUMBS_UP_RE.test(s)] *)
Definition THUMBS_UP_RE_test (s : jsstring) : bool :=
  match THUMBS_UP_RE_exec (toCodePoints s) with Some _ => true | None => false end.

Definition inRange (lo hi c : Z) : bool := (lo <=? c) && (c <=? hi).

(** The character class of [EMOJI_REGEX]. *)
Definition EMOJI_class (c : Z) : bool :=
  inRange 0x1F1E6 0x1F1FF c || inRange 0x1F300 0x1F5FF c ||
  inRange 0x1F600 0x1F64F c || inRange 0x1F680 0x1F6FF c ||
  inRange 0x2600 0x26FF c || inRange 0x2700 0x27BF c ||
  inRange 0x1F900 0x1F9FF c || inRange 0x1FA70 0x1FAFF c.

Definition hasEmoji (text : jsstring) : bool :=
  if negb (truthy text) then false
  else existsb EMOJI_class (toCodePoints text).

(** ** Text helpers *)

(** The class [\s], which is also what [trim] removes. *)
Definition isWhiteSpace (c : Z) : bool :=
  inRange 9 13 c || (c =? 32) || (c =? 0xA0) || (c =? 0x1680) ||
  inRange 0x2000 0x200A c || (c =? 0x2028) || (c =? 0x2029) ||
  (c =? 0x202F) || (c =? 0x205F) || (c =? 0x3000) || (c =? 0xFEFF).

(** [s.replace(/\s+/g, ' ')]: every maximal run of white space becomes one
    space.  [inrun] tells that the previous unit belonged to a run. *)
Fixpoint collapseWs (inrun : bool) (s : jsstring) : jsstring :=
  match s with
  | [] => []
  | c :: r =>
      if isWhiteSpace c
      then (if inrun then collapseWs true r else 32 :: collapseWs true r)
      else c :: collapseWs false r
  end.

Fixpoint trimStart (s : jsstring) : jsstring :=
  match s with
  | [] => []
  | c :: r => if isWhiteSpace c then trimStart r else s
  end.

Definition trimEnd (s : jsstring) : jsstring := rev (trimStart (rev s)).

Definition trim (s : jsstring) : jsstring := trimEnd (trimStart s).

(** [s.slice(0, e)] *)
Definition slice0 (s : jsstring) (e : Z) : jsstring :=
  if e <? 0 then firstn (Z.to_nat (jslength s + e)) s
  else firstn (Z.to_nat e) s.

(** The literal that [snippet] appends to a text it has cut.  The source
    file holds it as the three code units U+201A U+00C4 U+00B6, and so does
    the string the program builds. *)
Definition ELLIPSIS : jsstring := [0x201A; 0xC4; 0xB6].

Definition snippet (s : jsstring) (max : Z) : jsstring :=
  if negb (truthy s) then []
  else
    let clean := trim (collapseWs false s) in
    if jslength clean >? max then slice0 clean (max - 1) ++ ELLIPSIS else clean.

Definition replaceAll (c : Z) (by_ : jsstring) (s : jsstring) : jsstring :=
  flat_map (fun x => if x =? c then by_ else [x]) s.

Definition htmlEscape (s : jsstring) : jsstring :=
  replaceAll 62 (lit "&gt;") (replaceAll 60 (lit "&lt;") (replaceAll 38 (lit "&amp;") s)).

(** [ageDays(fromTs, nowTs)]; [fromTs] may be [undefined]. *)
Definition ageDays (fromTs : option Z) (nowTs : Z) : Z :=
  match fromTs with
  | None => 0
  | Some f =>
      if (f =? 0) || (f >? nowTs) then 0
      else (nowTs - f) / (24 * 60 * 60 * 1000)
  end.

(** [text.split(/\r?\n/)[0]] *)
Fixpoint firstLine (s : jsstring) : jsstring :=
  match s with
  | [] => []
  | c :: r =>
      if c =? 10 then []
      else if (c =? 13) && (match r with d :: _ => d =? 10 | [] => false end) then []
      else c :: firstLine r
  end.

(** [taskTitle(text)]; [text] may be [undefined], and [text || ''] is then
    the empty string. *)
Definition taskTitle (text : option jsstring) : jsstring :=
  let text := match orStr text (Some []) with Some s => s | None => [] end in
  snippet (trim (firstLine text)) 200.

Definition RLE : Z := 0x202B.
Definition PDF : Z := 0x202C.
Definition LRM : Z := 0x200E.

(** The literal that opens a line of the report: in the source file the
    three code units U+201A U+00C4 U+00A2. *)
Definition BULLET : jsstring := [0x201A; 0xC4; 0xA2].

(** The literal in front of the words [Open tasks]: in the source file the
    four code units U+F8FF U+00FC U+00FC U+00A2. *)
Definition GREEN : jsstring := [0xF8FF; 0xFC; 0xFC; 0xA2].

(** [chunkMessages(lines, maxLen)].  The loop body, with the chunks pushed
    so far and the chunk under construction. *)
Fixpoint chunkLoop (maxLen : Z) (lines : list jsstring)
    (chunks : list jsstring) (cur : jsstring) : list jsstring * jsstring :=
  match lines with
  | [] => (chunks, cur)
  | line :: rest =>
      let add := (if truthy line then line else []) ++ [10] in
      if jslength (cur ++ add) >? maxLen
      then chunkLoop maxLen rest (if truthy cur then chunks ++ [cur] else chunks) add
      else chunkLoop maxLen rest chunks (cur ++ add)
  end.

Definition chunkMessages (lines : list jsstring) (maxLen : Z) : list jsstring :=
  let '(chunks, cur) := chunkLoop maxLen lines [] [] in
  if truthy cur then chunks ++ [cur] else chunks.

(** ** Updates of the feed *)

Record Chat := {
  c_id : Z;
  c_type : jsstring;
  c_title : option jsstring;
  c_username : option jsstring;
}.

(** A message; [m_from] is [m.from?.id], [m_reply_to_message] is the
    [message_id] of [m.reply_to_message] when the message is a reply. *)
Record Message := {
  m_message_id : Z;
  m_chat : option Chat;
  m_from : option Z;
  m_date : option Z;
  m_text : option jsstring;
  m_caption : option jsstring;
  m_reply_to_message : option Z;
}.

(** One entry of a reaction list: a falsy value, a string, or an object whose
    [emoji] and [value] properties are given when they are strings. *)
Inductive ReactionItem :=
  | ItemFalsy
  | ItemString (s : jsstring)
  | ItemObject (emoji value : option jsstring).

(** A reaction property: an array, or a single value that is not an array. *)
Inductive ReactionField :=
  | FieldArray (l : list ReactionItem)
  | FieldValue (it : ReactionItem).

(** A [message_reaction] object with the property names the handler probes;
    [mr_user] is [mr.user?.id], [mr_from] is [mr.from?.id] and [mr_message]
    is [mr.message?.message_id]. *)
Record Reaction := {
  mr_chat : option Chat;
  mr_user : option Z;
  mr_from : option Z;
  mr_message_id : option Z;
  mr_message : option Z;
  mr_msg_id : option Z;
  new_reaction : option ReactionField;
  new_reactions : option ReactionField;
  reaction : option ReactionField;
  reactions : option ReactionField;
}.

Record Update := {
  update_id : Z;
  message_reaction : option Reaction;
  messageReaction : option Reaction;
  u_user : option Z;
  u_from : option Z;
  message : option Message;
  channel_post : option Message;
}.

Definition itemTruthy (it : ReactionItem) : bool :=
  match it with
  | ItemFalsy => false
  | ItemString s => truthy s
  | ItemObject _ _ => true
  end.

Definition fieldTruthy (f : option ReactionField) : bool :=
  match f with
  | Some (FieldArray _) => true
  | Some (FieldValue it) => itemTruthy it
  | None => false
  end.

Definition orField (a b : option ReactionField) : option ReactionField :=
  if fieldTruthy a then a else b.

Definition extractReactionEmojis (r : Reaction) : list jsstring :=
  let arr :=
    match orField (new_reaction r)
            (orField (new_reactions r)
               (orField (reaction r) (orField (reactions r) (Some (FieldArray []))))) with
    | Some (FieldArray l) => l
    | Some (FieldValue it) => [it]
    | None => [ItemFalsy]
    end in
  flat_map (fun it =>
    if negb (itemTruthy it) then []
    else match it with
         | ItemString s => [s]
         | ItemObject (Some e) _ => [e]
         | ItemObject None (Some v) => [v]
         | _ => []
         end) arr.

(** [emojis.some((e) => typeof e === 'string' && THUMBS_UP_RE.test(e))] *)
Definition hasThumb (emojis : list jsstring) : bool :=
  existsb THUMBS_UP_RE_test emojis.

(** ** Configuration and the task ledger *)

(** The environment variables; [None] is an unset variable. *)
Record Config := {
  TG_TOKEN : option jsstring;
  ADMIN_CHAT_ID : option jsstring;
  CRON_SECRET : option jsstring;
  UPSTASH_URL : option jsstring;
  UPSTASH_TOKEN : option jsstring;
}.

Definition envTruthy (v : option jsstring) : bool :=
  match v with Some s => truthy s | None => false end.

(** [String(ADMIN_CHAT_ID)] *)
Definition adminString (cfg : Config) : jsstring :=
  match ADMIN_CHAT_ID cfg with Some s => s | None => lit "undefined" end.

Definition haveKV (cfg : Config) : bool :=
  envTruthy (UPSTASH_URL cfg) && envTruthy (UPSTASH_TOKEN cfg).

(** The object the handler serialises under a task key.  [task_id] is the
    property [id]; [doneAt] is absent until a close sets it. *)
Record Task := {
  task_id : jsstring;
  chat_id : Z;
  message_id : Z;
  createdAt : Z;
  text : jsstring;
  done : bool;
  doneAt : option Z;
}.

(** A parsed JSON object, as far as the handler can tell objects apart: the
    seven properties of a task, each of which may be absent, and the
    properties of other names, which the handler carries along, as pairs of
    a name and the JSON text of the value.  A task property that is present
    holds a value of the type the handler writes: [done] a boolean,
    [createdAt] and [doneAt] integers, [text] and [id] strings.  [{}] is the
    object with every property absent. *)
Record Obj := {
  o_id : option jsstring;
  o_chat_id : option Z;
  o_message_id : option Z;
  o_createdAt : option Z;
  o_text : option jsstring;
  o_done : option bool;
  o_doneAt : option Z;
  o_other : list (jsstring * jsstring);
}.

(** What [JSON.parse] can give: [null], another primitive value (a boolean,
    a number or a string, given by its JSON text), an array (given by its
    JSON text), or an object. *)
Inductive Value :=
  | VNull
  | VPrim (json : jsstring)
  | VArray (json : jsstring)
  | VObj (o : Obj).

(** The object with the properties of a task, as the handler builds it. *)
Definition taskObj (t : Task) : Obj :=
  {| o_id := Some (task_id t); o_chat_id := Some (chat_id t);
     o_message_id := Some (message_id t); o_createdAt := Some (createdAt t);
     o_text := Some (text t); o_done := Some (done t); o_doneAt := doneAt t;
     o_other := [] |}.

(** A stored value.  The store holds strings, and the handler looks at them
    through [JSON.parse] only; so a value is given by what it parses to,
    [SParsed], or is text that [JSON.parse] rejects, [SRaw] (the empty string
    among them).  The order of the properties and the spelling of the text
    are not kept: the handler cannot observe them. *)
Inductive Stored :=
  | SParsed (v : Value)
  | SRaw (s : jsstring).

(** [JSON.stringify(task)] for a task object. *)
Definition SJson (t : Task) : Stored := SParsed (VObj (taskObj t)).

(** [`task:${chatId}:${messageId}`] *)
Definition taskKey (chatId messageId : Z) : jsstring :=
  lit "task:" ++ numToString chatId ++ lit ":" ++ numToString messageId.

(** ** The platform and the effects of the handler *)

(** [String(err)] is [name: message]. *)
Inductive exn := Error (name message : jsstring).

Definition errMessage (e : exn) : jsstring := let 'Error _ m := e in m.
Definition errString (e : exn) : jsstring :=
  let 'Error n m := e in if truthy m then n ++ lit ": " ++ m else n.

(** The answer of [getUpdates]: the request fails, or a reply with its [ok]
    flag, its [result] and its JSON text. *)
Inductive FeedResp :=
  | FeedReject (e : exn)
  | FeedReply (ok : bool) (result : list Update) (json : jsstring).

(** What the outside world answers.  Every call to Telegram or to the store
    happens at a tick; the oracles tell, per tick, the answer to the call made
    then.  [kv_error] and [send_error] give the error of a failing call.
    [sort_choice] is the choice the engine makes when [Array.prototype.sort]
    is left free by the language: for the [createdAt] values of the array, in
    order, the number of the permutation it returns. *)
Record Platform := {
  feed : nat -> option Z -> FeedResp;
  kv_error : nat -> option exn;
  scan_reply : nat -> jsstring -> jsstring -> option (jsstring * list jsstring);
  send_error : nat -> option exn;
  clock : nat -> Z;
  toISOString : Z -> option jsstring;
  sort_choice : list (option Z) -> nat;
}.

Record World := {
  ledger : gmap jsstring Stored;
  tick : nat;
  outbox : list (jsstring * jsstring);
}.

Inductive outcome (A : Type) :=
  | Ok (a : A)
  | Throw (e : exn)
  | OutOfFuel.
Arguments Ok {A} a.
Arguments Throw {A} e.
Arguments OutOfFuel {A}.

(** Computations of the handler: a world in, an outcome and a world out. *)
Definition M (A : Type) : Type := World -> outcome A * World.

#[global] Instance M_ret : MRet M := fun A a w => (Ok a, w).
#[global] Instance M_bind : MBind M := fun A B f m w =>
  match m w with
  | (Ok a, w') => f a w'
  | (Throw e, w') => (Throw e, w')
  | (OutOfFuel, w') => (OutOfFuel, w')
  end.

Definition throw {A} (e : exn) : M A := fun w => (Throw e, w).
Definition outOfFuel {A} : M A := fun w => (OutOfFuel, w).

(** [try { m } catch {}] *)
Definition try_ (m : M unit) : M unit := fun w =>
  match m w with
  | (Throw _, w') => (Ok tt, w')
  | r => r
  end.

(** [try { m } catch (err) { h err }] *)
Definition tryCatch {A} (m : M A) (h : exn -> M A) : M A := fun w =>
  match m w with
  | (Throw e, w') => h e w'
  | r => r
  end.

Definition bump (w : World) : World :=
  {| ledger := ledger w; tick := S (tick w); outbox := outbox w |}.

Definition forEach {A} (f : A -> M unit) : list A -> M unit :=
  fix go l := match l with
              | [] => mret tt
              | x :: r => f x ;; go r
              end.

Section Handler.

Context (P : Platform) (cfg : Config).

Definition Date_now : M Z := fun w => (Ok (clock P (tick w)), w).

Definition kv_get (key : jsstring) : M (option Stored) := fun w =>
  match kv_error P (tick w) with
  | Some e => (Throw e, bump w)
  | None => (Ok (ledger w !! key), bump w)
  end.

Definition kv_set (key : jsstring) (value : Stored) : M bool := fun w =>
  match kv_error P (tick w) with
  | Some e => (Throw e, bump w)
  | None =>
      (Ok true,
       {| ledger := <[key := value]> (ledger w); tick := S (tick w); outbox := outbox w |})
  end.

(** [kv.scan(cursor, match, 200)]: the reply is normalised to a cursor that
    is never empty and a list of keys. *)
Definition kv_scan (cursor match_ : jsstring) : M (jsstring * list jsstring) := fun w =>
  match kv_error P (tick w) with
  | Some e => (Throw e, bump w)
  | None =>
      match scan_reply P (tick w) cursor match_ with
      | Some (next, keys) => (Ok (if truthy next then next else lit "0", keys), bump w)
      | None => (Ok (lit "0", []), bump w)
      end
  end.

Definition getUpdates (offset : option Z) : M FeedResp := fun w =>
  match feed P (tick w) offset with
  | FeedReject e => (Throw e, bump w)
  | r => (Ok r, bump w)
  end.

Definition sendMessage (chat : jsstring) (body : jsstring) : M unit := fun w =>
  match send_error P (tick w) with
  | Some e => (Throw e, bump w)
  | None =>
      (Ok tt,
       {| ledger := ledger w; tick := S (tick w); outbox := outbox w ++ [(chat, body)] |})
  end.

(** [JSON.parse(val)].  Text that is not JSON raises; a missing value is
    read as the text [null]. *)
Definition JSON_parse (val : option Stored) : M Value :=
  match val with
  | Some (SParsed v) => mret v
  | Some (SRaw _) => throw (Error (lit "SyntaxError") (lit "Unexpected token"))
  | None => mret VNull
  end.

(** [JSON.stringify(obj)]; the named properties of an array are left out. *)
Definition JSON_stringify (obj : Value) : Stored := SParsed obj.

(** [if (val)]: a missing value and the empty string are falsy. *)
Definition valTruthy (val : option Stored) : bool :=
  match val with
  | Some (SParsed _) => true
  | Some (SRaw s) => truthy s
  | None => false
  end.

Definition TypeError : exn := Error (lit "TypeError") (lit "Cannot access property").

(** [obj.done = true].  The file is in strict mode, where setting a property
    of [null] or of a primitive value raises. *)
Definition setDone (obj : Value) : M Value :=
  match obj with
  | VNull | VPrim _ => throw TypeError
  | VArray json => mret (VArray json)
  | VObj o =>
      mret (VObj {| o_id := o_id o; o_chat_id := o_chat_id o;
                    o_message_id := o_message_id o; o_createdAt := o_createdAt o;
                    o_text := o_text o; o_done := Some true; o_doneAt := o_doneAt o;
                    o_other := o_other o |})
  end.

(** [obj.doneAt = now], for a value whose properties can be set. *)
Definition setDoneAt (obj : Value) (now : Z) : Value :=
  match obj with
  | VObj o =>
      VObj {| o_id := o_id o; o_chat_id := o_chat_id o;
              o_message_id := o_message_id o; o_createdAt := o_createdAt o;
              o_text := o_text o; o_done := o_done o; o_doneAt := Some now;
              o_other := o_other o |}
  | v => v
  end.

(** [obj.done], read: [null] has no properties, a primitive value and an
    array have no property [done]. *)
Definition getDone (obj : Value) : M bool :=
  match obj with
  | VNull => throw TypeError
  | VPrim _ | VArray _ => mret false
  | VObj o => mret (match o_done o with Some b => b | None => false end)
  end.

(** [t.createdAt] and [t.text] of an entry of the report. *)
Definition getCreatedAt (t : Value) : option Z :=
  match t with VObj o => o_createdAt o | _ => None end.

Definition getText (t : Value) : option jsstring :=
  match t with VObj o => o_text o | _ => None end.

(** The body shared by the two close branches: read, mark, write back. *)
Definition closeTask (key : jsstring) : M unit :=
  val ← kv_get key;
  if valTruthy val then
    obj ← JSON_parse val;
    obj ← setDone obj;
    now ← Date_now;
    kv_set key (JSON_stringify (setDoneAt obj now)) ;; mret tt
  else mret tt.

Definition isPrivate (chat : Chat) : bool :=
  bool_decide (c_type chat = lit "private").

(** The key a reaction update closes, if the guards of the reaction branch
    let it through. *)
Definition reactionTarget (u : Update) (mr : Reaction) : option jsstring :=
  let actorId := orNum (mr_user mr) (orNum (mr_from mr) (orNum (u_user u) (u_from u))) in
  match mr_chat mr with
  | Some chat =>
      if isPrivate chat && bool_decide (StringOf actorId = adminString cfg) then
        let emojis := extractReactionEmojis mr in
        let targetMsgId := orNum (mr_message_id mr) (orNum (mr_message mr) (mr_msg_id mr)) in
        match targetMsgId with
        | Some target =>
            if hasThumb emojis && negb (target =? 0)
            then Some (taskKey (c_id chat) target)
            else None
        | None => None
        end
      else None
  | None => None
  end.

(** [m.text || m.caption || ''] *)
Definition messageText (m : Message) : jsstring :=
  match orStr (m_text m) (orStr (m_caption m) (Some [])) with
  | Some s => s
  | None => []
  end.

Definition newTask (chat : Chat) (m : Message) : Task :=
  {| task_id := numToString (c_id chat) ++ lit ":" ++ numToString (m_message_id m);
     chat_id := c_id chat;
     message_id := m_message_id m;
     createdAt := (match orNum (m_date m) (Some 0) with Some d => d | None => 0 end) * 1000;
     text := snippet (messageText m) 400;
     done := false;
     doneAt := None |}.

(** The body of the loop over the drained updates. *)
Definition applyUpdate (u : Update) : M unit :=
  match orObj (message_reaction u) (messageReaction u) with
  | Some mr =>
      try_ (match reactionTarget u mr with
            | Some key => closeTask key
            | None => mret tt
            end)
  | None =>
      match message u with
      | None => mret tt
      | Some m =>
          match m_chat m with
          | None => mret tt
          | Some chat =>
              if negb (isPrivate chat) then mret tt
              else if negb (bool_decide (StringOf (m_from m) = adminString cfg)) then mret tt
              else
                let text := messageText m in
                let isThumb := if truthy text then THUMBS_UP_RE_test text else false in
                let keyBase := taskKey (c_id chat) (m_message_id m) in
                match m_reply_to_message m with
                | Some replied =>
                    if isThumb then try_ (closeTask (taskKey (c_id chat) replied))
                    else mret tt
                | None =>
                    if truthy text && negb isThumb
                    then try_ (kv_set keyBase (SJson (newTask chat m)) ;; mret tt)
                    else mret tt
                end
          end
      end
  end.

(** ** Draining the feed *)

Record Drained := {
  updates : list Update;
  nextOffset : option Z;
}.

(** The loop of [fetchAllUpdates].  A round that goes on has added an update
    and has seen at most 2000 of them, so 2001 rounds are all the loop can
    make; [fuel] counts them. *)
Fixpoint fetchLoop (fuel : nat) (offset : option Z) (all : list Update) : M Drained :=
  match fuel with
  | O => outOfFuel
  | S fuel' =>
      resp ← getUpdates offset;
      match resp with
      | FeedReject e => throw e
      | FeedReply ok result json =>
          if negb ok
          then throw (Error (lit "Error") (lit "getUpdates error: " ++ json))
          else
            match last result with
            | None => mret {| updates := all; nextOffset := offset |}
            | Some lastUpdate =>
                let all' := all ++ result in
                let offset' := Some (update_id lastUpdate + 1) in
                if jslength all' >? 2000
                then mret {| updates := all'; nextOffset := offset' |}
                else fetchLoop fuel' offset' all'
            end
      end
  end.

Definition fetchAllUpdates (startOffset : option Z) : M Drained :=
  fetchLoop 2001 startOffset [].

(** ** The report *)

(** The [do ... while] loop over [kv.scan].  [keys] is filled as pages
    arrive, so the pages read before a failing call are kept by the
    enclosing [try]/[catch].  [fuel] bounds the number of pages. *)
Fixpoint scanLoop (fuel : nat) (cursor match_ : jsstring) (keys : list jsstring)
    : M (list jsstring) :=
  match fuel with
  | O => outOfFuel
  | S fuel' =>
      tryCatch
        (out ← kv_scan cursor match_;
         let cursor' := if truthy (fst out) then fst out else lit "0" in
         let keys' := keys ++ snd out in
         if negb (bool_decide (cursor' = lit "0")) && (jslength keys' <? 5000)
         then scanLoop fuel' cursor' match_ keys'
         else mret keys')
        (fun _ => mret keys)
  end.

(** The loop that reads the tasks of the enumerated keys. *)
Fixpoint readTasks (keys : list jsstring) (tasks : list Value) : M (list Value) :=
  match keys with
  | [] => mret tasks
  | k :: rest =>
      tryCatch
        (v ← kv_get k;
         if negb (valTruthy v) then mret tasks
         else
           obj ← JSON_parse v;
           isDone ← getDone obj;
           mret (if negb isDone then tasks ++ [obj] else tasks))
        (fun _ => mret tasks)
      ≫= readTasks rest
  end.

(** The comparator [(a, b) => a.createdAt - b.createdAt] as the sort reads
    it: a result that is not a number, which a missing [createdAt] gives,
    counts as 0. *)
Definition compareCreatedAt (a b : Value) : Z :=
  match getCreatedAt a, getCreatedAt b with
  | Some x, Some y => x - y
  | _, _ => 0
  end.

(** The comparator is consistent on an array, so that it orders it, when
    every entry has a [createdAt] or when it gives 0 for every pair. *)
Definition consistent (tasks : list Value) : bool :=
  forallb (fun t => bool_decide (is_Some (getCreatedAt t))) tasks
  || forallb (fun a => forallb (fun b => compareCreatedAt a b =? 0) tasks) tasks.

Fixpoint insertTask (t : Value) (l : list Value) : list Value :=
  match l with
  | [] => [t]
  | y :: r => if compareCreatedAt t y <=? 0 then t :: l else y :: insertTask t r
  end.

(** [tasks.sort((a, b) => a.createdAt - b.createdAt)].  The sort is stable,
    which fixes its result when the comparator is consistent; when it is not,
    the language leaves the order to the engine, which returns some
    permutation of the array. *)
Definition sortTasks (tasks : list Value) : list Value :=
  if consistent tasks then foldr insertTask [] tasks
  else nth (sort_choice P (map getCreatedAt tasks)) (permutations tasks) tasks.

Definition formatTaskLine (t : Value) (nowTs : Z) : jsstring :=
  let days := ageDays (getCreatedAt t) nowTs in
  let title := taskTitle (getText t) in
  BULLET ++ lit " " ++ htmlEscape title ++ lit " <b>" ++ [LRM] ++ lit "["
    ++ numToString days ++ lit "d]</b>".

Definition formatDate (ts : Z) : jsstring :=
  match toISOString P ts with
  | Some iso => firstn 10 iso
  | None => []
  end.

(** The report built from the ledger: the tasks listed, in order. *)
Definition openTasks (fuel : nat) : M (list Value) :=
  keys ← scanLoop fuel (lit "0") (lit "task:" ++ adminString cfg ++ lit ":*") [];
  tasks ← readTasks keys [];
  mret (sortTasks tasks).

Definition fallbackMessage (u : Update) : option Message :=
  orObj (message u) (channel_post u).

Definition fallbackTs (m : option Message) : Z :=
  match m with
  | Some m' =>
      match m_date m' with
      | Some d => if d =? 0 then 0 else d * 1000
      | None => 0
      end
  | None => 0
  end.

Definition fallbackText (m : option Message) : jsstring :=
  match m with Some m' => messageText m' | None => [] end.

(** The filter of the fallback report: recent messages without emoji. *)
Definition isCandidate (since : Z) (u : Update) : bool :=
  let m := fallbackMessage u in
  let ts := fallbackTs m in
  if (ts =? 0) || (ts <? since) then false
  else
    let text := fallbackText m in
    if negb (truthy text) then false else negb (hasEmoji text).

Definition fallbackLine (u : Update) : jsstring :=
  let m := fallbackMessage u in
  let ts := fallbackTs m in
  let chat := match m with Some m' => m_chat m' | None => None end in
  let label :=
    match orStr (chat ≫= c_title)
            (orStr (chat ≫= c_username)
               (Some (lit "chat:" ++ StringOf (c_id <$> chat)))) with
    | Some s => s
    | None => []
    end in
  let txt := snippet (fallbackText m) 140 in
  BULLET ++ lit " <b>" ++ htmlEscape label ++ lit "</b> <i>" ++ [LRM] ++ lit "["
    ++ formatDate ts ++ lit "]</i>: " ++ htmlEscape txt.

Definition openHeader (n : nat) : jsstring :=
  lit "<b>" ++ GREEN ++ lit " Open tasks: " ++ numToString (Z.of_nat n)
    ++ lit "</b>".

Definition fallbackHeader (n : nat) : jsstring :=
  lit "<b>No-emoji messages in last 24h: " ++ numToString (Z.of_nat n) ++ lit "</b>".

(** The lines and the header of the report, from the ledger when the store
    is configured and from the drained updates otherwise. *)
Definition reportLines (fuel : nat) (drained : list Update) (now : Z)
    : M (list jsstring * jsstring) :=
  let since := now - 24 * 60 * 60 * 1000 in
  if haveKV cfg then
    tasks ← openTasks fuel;
    let lines := map (fun t => formatTaskLine t now) tasks in
    mret (lines, openHeader (length lines))
  else
    let candidates := List.filter (isCandidate since) drained in
    let lines := map fallbackLine candidates in
    mret (lines, fallbackHeader (length lines)).

(** ** The HTTP entry point *)

(** The request: the [key] parameter of its URL, when the URL parses and
    carries one. *)
Record Request := { req_key : option jsstring }.

Inductive Body :=
  | BodyError (error : jsstring)
  | BodySummary (ok : bool) (checked reported : Z).

Record Response := { status : Z; body : Body }.

Definition ADMIN (c : Config) : jsstring :=
  match ADMIN_CHAT_ID c with Some s => s | None => [] end.

(** The optional check of the shared secret: [true] when a secret is
    configured and the [key] of the request is not it. *)
Definition unauthorized (req : Request) : bool :=
  match CRON_SECRET cfg with
  | Some secret =>
      if truthy secret then
        let provided := match orStr (req_key req) (Some []) with
                        | Some s => s | None => [] end in
        negb (bool_decide (provided = secret))
      else false
  | None => false
  end.

Definition handlerBody (fuel : nat) (req : Request) : M Response :=
  if unauthorized req
  then mret {| status := 401; body := BodyError (lit "Unauthorized") |}
  else if negb (envTruthy (TG_TOKEN cfg)) || negb (envTruthy (ADMIN_CHAT_ID cfg))
  then mret {| status := 500;
               body := BodyError (lit "Missing env vars: TELEGRAM_BOT_TOKEN, ADMIN_CHAT_ID") |}
  else
    drained ← fetchAllUpdates None;
    (if haveKV cfg then forEach applyUpdate (updates drained) else mret tt) ;;
    now ← Date_now;
    report ← reportLines fuel (updates drained) now;
    let '(lines, header) := report in
    let payload :=
      (if truthy header then [header] else [])
        ++ (match lines with [] => [] | _ :: _ => [] :: lines end) in
    let chunks :=
      chunkMessages (match payload with [] => [lit "No data"] | _ :: _ => payload end) 3800 in
    forEach (fun chunk => sendMessage (ADMIN cfg) ([RLE] ++ chunk ++ [PDF])) chunks ;;
    mret {| status := 200;
            body := BodySummary true (jslength (updates drained)) (jslength lines) |}.

Definition handler (fuel : nat) (req : Request) : M Response :=
  tryCatch (handlerBody fuel req)
    (fun err =>
       try_ (if envTruthy (TG_TOKEN cfg) && envTruthy (ADMIN_CHAT_ID cfg)
             then sendMessage (ADMIN cfg)
                    (lit "Cron error: "
                       ++ htmlEscape (if truthy (errMessage err) then errMessage err
                                      else errString err))
             else mret tt) ;;
       mret {| status := 500; body := BodyError (errString err) |}).

End Handler.

(** ** [api/whoami.js]: the chats seen in the pending updates *)

(** An entry of the answer: [{ id, type, title }]. *)
Record ChatInfo := {
  ci_id : Z;
  ci_type : jsstring;
  ci_title : option jsstring;
}.

(** [{ id, type: chat.type, title: chat.title || chat.username || undefined }] *)
Definition chatInfo (chat : Chat) : ChatInfo :=
  {| ci_id := c_id chat;
     ci_type := c_type chat;
     ci_title := orStr (c_title chat) (orStr (c_username chat) None) |}.

(** The loop of [extractChats]; [seen] is the [Map], whose values come out
    in the order of insertion. *)
Fixpoint extractChatsLoop (updates : list Update) (seen : list ChatInfo) : list ChatInfo :=
  match updates with
  | [] => seen
  | u :: rest =>
      match orObj (message u) (channel_post u) with
      | None => extractChatsLoop rest seen
      | Some m =>
          match m_chat m with
          | None => extractChatsLoop rest seen
          | Some chat =>
              if existsb (fun c => ci_id c =? c_id chat) seen
              then extractChatsLoop rest seen
              else extractChatsLoop rest (seen ++ [chatInfo chat])
          end
      end
  end.

Definition extractChats (updates : list Update) : list ChatInfo :=
  extractChatsLoop updates [].

(** ** [dev.js]: one line of the [.env] file *)

(** [s.indexOf('=')] as a split: the text before the first [=] and the text
    after it. *)
Fixpoint splitAtEq (s : jsstring) : option (jsstring * jsstring) :=
  match s with
  | [] => None
  | c :: r =>
      if c =? 61 then Some ([], r)
      else match splitAtEq r with
           | Some (k, v) => Some (c :: k, v)
           | None => None
           end
  end.

Definition startsWith (ch : Z) (s : jsstring) : bool :=
  match s with c :: _ => c =? ch | [] => false end.

Definition endsWith (ch : Z) (s : jsstring) : bool :=
  match last s with Some c => c =? ch | None => false end.

(** [s.slice(1, -1)] *)
Definition sliceInner (s : jsstring) : jsstring := removelast (tail s).

(** The body of the loop of [loadEnv] up to the guarded assignment
    [if (!process.env[key]) process.env[key] = val]: the key and the value
    read in a line, if any. *)
Definition envLine (line : jsstring) : option (jsstring * jsstring) :=
  let trimmed := trim line in
  if negb (truthy trimmed) || startsWith 35 trimmed then None
  else
    match splitAtEq trimmed with
    | None => None
    | Some (k, v) =>
        let key := trim k in
        let val := trim v in
        Some (key,
              if (startsWith 34 val && endsWith 34 val)
                 || (startsWith 39 val && endsWith 39 val)
              then sliceInner val else val)
    end.

(** ** The action an update stands for *)

(** What the loop body does with an update: close the task under a key
    (after a reaction, or after a reply), write a new task under a key, or
    nothing. *)
Inductive Action :=
  | ReactionClose (key : jsstring)
  | ReplyClose (key : jsstring)
  | CreateTask (key : jsstring) (task : Task)
  | Ignore.

(** The guards of the loop body, read off as a decision. *)
Definition classify (cfg : Config) (u : Update) : Action :=
  match orObj (message_reaction u) (messageReaction u) with
  | Some mr =>
      match reactionTarget cfg u mr with
      | Some key => ReactionClose key
      | None => Ignore
      end
  | None =>
      match message u with
      | None => Ignore
      | Some m =>
          match m_chat m with
          | None => Ignore
          | Some chat =>
              if negb (isPrivate chat) then Ignore
              else if negb (bool_decide (StringOf (m_from m) = adminString cfg)) then Ignore
              else
                let text := messageText m in
                let isThumb := if truthy text then THUMBS_UP_RE_test text else false in
                match m_reply_to_message m with
                | Some replied =>
                    if isThumb then ReplyClose (taskKey (c_id chat) replied) else Ignore
                | None =>
                    if truthy text && negb isThumb
                    then CreateTask (taskKey (c_id chat) (m_message_id m)) (newTask chat m)
                    else Ignore
                end
          end
      end
  end.

Definition perform (P : Platform) (a : Action) : M unit :=
  match a with
  | ReactionClose key | ReplyClose key => try_ (closeTask P key)
  | CreateTask key task => try_ (kv_set P key (SJson task) ;; mret tt)
  | Ignore => mret tt
  end.

(** The key a close action aims at. *)
Definition closes (a : Action) (key : jsstring) : Prop :=
  a = ReactionClose key \/ a = ReplyClose key.

(** ** Vocabulary of the statements *)

(** The text of a group of lines: each line followed by a newline. *)
Definition render (g : list jsstring) : jsstring :=
  flat_map (fun l => l ++ [10]) g.

(** A group is fit for a chunk when it is not empty and either stays within
    the bound or is a single line. *)
Definition fitGroup (maxLen : Z) (g : list jsstring) : Prop :=
  g <> [] /\ (jslength (render g) <= maxLen \/ exists l, g = [l]).

(** White space is normalised in [s] when every white-space unit is a space
    that does not follow another white-space unit; [prev] tells whether the
    unit before [s] was white space. *)
Fixpoint wsNormal (prev : bool) (s : jsstring) : bool :=
  match s with
  | [] => true
  | c :: r =>
      if isWhiteSpace c then (c =? 32) && negb prev && wsNormal true r
      else wsNormal false r
  end.

(** A task as a parsed value, and a task after a close at time [now]. *)
Definition taskValue (t : Task) : Value := VObj (taskObj t).

Definition markDone (obj : Task) (now : Z) : Task :=
  {| task_id := task_id obj; chat_id := chat_id obj; message_id := message_id obj;
     createdAt := createdAt obj; text := text obj;
     done := true; doneAt := Some now |}.

(** A value whose properties can be set: an object or an array. *)
Definition settable (v : Value) : bool :=
  match v with VObj _ | VArray _ => true | VNull | VPrim _ => false end.

(** The value a close at time [now] writes back for the value [v]. *)
Definition closed (v : Value) (now : Z) : Value :=
  match v with
  | VObj o =>
      VObj {| o_id := o_id o; o_chat_id := o_chat_id o;
              o_message_id := o_message_id o; o_createdAt := o_createdAt o;
              o_text := o_text o; o_done := Some true; o_doneAt := Some now;
              o_other := o_other o |}
  | v => v
  end.

(** A record is open when its [done] property is not true: the property is
    false or absent.  Values that are no objects have no such property;
    [null] cannot even be asked for it and is not a record. *)
Definition isOpen (v : Value) : bool :=
  match v with
  | VNull => false
  | VPrim _ | VArray _ => true
  | VObj o => negb (match o_done o with Some b => b | None => false end)
  end.

(** The words of a text: its maximal runs of units that are not white
    space, in order.  [cur] is the word under way. *)
Fixpoint wordsFrom (cur s : jsstring) : list jsstring :=
  match s with
  | [] => if truthy cur then [cur] else []
  | c :: r =>
      if isWhiteSpace c
      then (if truthy cur then cur :: wordsFrom [] r else wordsFrom [] r)
      else wordsFrom (cur ++ [c]) r
  end.

Definition words (s : jsstring) : list jsstring := wordsFrom [] s.

(** Words joined by single spaces. *)
Definition unwords (ws : list jsstring) : jsstring :=
  tail (flat_map (fun w => 32 :: w) ws).

(** A text with its white space normalised: its words, a single space
    between them, none before the first or after the last. *)
Definition normalized (s : jsstring) : jsstring := unwords (words s).

(** A text that is a thumbs-up: the glyph U+1F44D alone or followed by one
    skin tone. *)
Definition thumbsUp (s : jsstring) : Prop :=
  s = fromCodePoint 0x1F44D
  \/ exists tone, 0x1F3FB <= tone <= 0x1F3FF
                  /\ s = fromCodePoint 0x1F44D ++ fromCodePoint tone.

(** The record a read of key [k] at tick [n] yields: the call must succeed
    and the value must parse. *)
Definition readable (P : Platform) (ldg : gmap jsstring Stored) (n : nat)
    (k : jsstring) : option Value :=
  match kv_error P n with
  | Some _ => None
  | None => match ldg !! k with
            | Some (SParsed v) => Some v
            | _ => None
            end
  end.

(** The readable records that are open, for keys read one per tick from
    tick [n] on, in the order of the keys. *)
Fixpoint listed (P : Platform) (ldg : gmap jsstring Stored) (n : nat)
    (keys : list jsstring) : list Value :=
  match keys with
  | [] => []
  | k :: rest =>
      match readable P ldg n k with
      | Some v => if isOpen v then [v] else []
      | None => []
      end ++ listed P ldg (S n) rest
  end.




Definition watched (cfg : Config) (k : jsstring) : Prop :=
  (lit "task:" ++ adminString cfg ++ lit ":") `prefix_of` k.

#[global] Instance watched_dec (cfg : Config) (k : jsstring) : Decision (watched cfg k).
Proof. unfold watched. apply _. Defined.


(** The page the store answers at tick [t] to a scan from [cursor]: the next
    cursor, [0] when the reply has none, and the keys. *)
Definition scanPage (P : Platform) (t : nat) (cursor match_ : jsstring)
    : jsstring * list jsstring :=
  match scan_reply P t cursor match_ with
  | Some (next, keys) => (if truthy next then next else lit "0", keys)
  | None => (lit "0", [])
  end.

(** [paged P match_ t cursor pages]: from tick [t] on, successive scans,
    the first from [cursor] and each next one from the cursor of the page
    before, are answered with [pages]. *)
Fixpoint paged (P : Platform) (match_ : jsstring) (t : nat) (cursor : jsstring)
    (pages : list (jsstring * list jsstring)) : Prop :=
  match pages with
  | [] => True
  | pg :: rest =>
      kv_error P t = None
      /\ scanPage P t cursor match_ = pg
      /\ paged P match_ (S t) (fst pg) rest
  end.

Definition pageKeys (pages : list (jsstring * list jsstring)) : list jsstring :=
  concat (map snd pages).





(** The world after the loop body has run on [u]. *)
Definition stepWorld (P : Platform) (cfg : Config) (w : World) (u : Update) : World :=
  snd (applyUpdate P cfg u w).

(** [drains P t off bs t' off']: from tick [t] and cursor [off], successive
    calls of [getUpdates] answer with the non-empty batches [bs], in this
    order; [t'] and [off'] are the tick and the cursor after the last of
    them.  Each call is made with the cursor that follows the batch before
    it. *)
Inductive drains (P : Platform) : nat -> option Z -> list (list Update) ->
                                  nat -> option Z -> Prop :=
  | drains_nil t off : drains P t off [] t off
  | drains_cons t off batch json lastUpdate bs t' off' :
      feed P t off = FeedReply true batch json ->
      last batch = Some lastUpdate ->
      drains P (S t) (Some (update_id lastUpdate + 1)) bs t' off' ->
      drains P t off (batch :: bs) t' off'.

(** The world [w] at a later tick. *)
Definition atTick (w : World) (t : nat) : World :=
  {| ledger := ledger w; tick := t; outbox := outbox w |}.

(** The world after the drained updates have been applied, which happens
    only when the store is configured. *)
Definition applied (P : Platform) (cfg : Config) (us : list Update) (w : World) : World :=
  if haveKV cfg then fold_left (stepWorld P cfg) us w else w.

(** ** A sample run: the owner 42, one task, its two ways of closing *)

Definition THUMB : jsstring := [0xD83D; 0xDC4D].

Definition cfg0 : Config :=
  {| TG_TOKEN := Some (lit "token"); ADMIN_CHAT_ID := Some (lit "42");
     CRON_SECRET := None;
     UPSTASH_URL := Some (lit "https://kv"); UPSTASH_TOKEN := Some (lit "secret") |}.

Definition chat0 : Chat :=
  {| c_id := 42; c_type := lit "private"; c_title := None; c_username := None |}.

Definition mkMessage (mid : Z) (txt : jsstring) (reply : option Z) : Message :=
  {| m_message_id := mid; m_chat := Some chat0; m_from := Some 42;
     m_date := Some 1700000000; m_text := Some txt; m_caption := None;
     m_reply_to_message := reply |}.

Definition mkUpdate (uid : Z) (m : Message) : Update :=
  {| update_id := uid; message_reaction := None; messageReaction := None;
     u_user := None; u_from := None; message := Some m; channel_post := None |}.

(** The owner sends "Buy milk" as message 7. *)
Definition uCreate : Update := mkUpdate 100 (mkMessage 7 (lit "Buy milk") None).

(** The same message with white space around and between its words. *)
Definition uSpaced : Update :=
  mkUpdate 100 (mkMessage 7 ([32; 32] ++ lit "Buy" ++ [32; 10; 32] ++ lit "milk" ++ [32]) None).

(** The owner sends "Buy milk" followed by a thumbs-up glyph as message 9. *)
Definition uMixed : Update := mkUpdate 104 (mkMessage 9 (lit "Buy milk " ++ THUMB) None).

(** The owner replies to message 7 with a thumbs-up. *)
Definition uReply : Update := mkUpdate 101 (mkMessage 8 THUMB (Some 7)).

(** The owner reacts to message 7 with a thumbs-up. *)
Definition uReact : Update :=
  {| update_id := 102;
     message_reaction :=
       Some {| mr_chat := Some chat0; mr_user := Some 42; mr_from := None;
               mr_message_id := Some 7; mr_message := None; mr_msg_id := None;
               new_reaction := Some (FieldArray [ItemObject (Some THUMB) None]);
               new_reactions := None; reaction := None; reactions := None |};
     messageReaction := None; u_user := None; u_from := None;
     message := None; channel_post := None |}.

(** A platform on which every call succeeds and the clock shows 5000 at the
    start and a millisecond more at every tick. *)
Definition P0 : Platform :=
  {| feed := fun _ _ => FeedReply true [] [];
     kv_error := fun _ => None;
     scan_reply := fun _ _ _ => None;
     send_error := fun _ => None;
     clock := fun n => 5000 + Z.of_nat n;
     toISOString := fun _ => None;
     sort_choice := fun _ => 0%nat |}.

Definition w0 : World := {| ledger := ∅; tick := 0; outbox := [] |}.

(** Task 7, closed at time 1. *)
Definition tClosed : Task :=
  {| task_id := lit "42:7"; chat_id := 42; message_id := 7;
     createdAt := 1700000000000; text := lit "Buy milk";
     done := true; doneAt := Some 1 |}.

Definition wClosed : World :=
  {| ledger := {[ taskKey 42 7 := SJson tClosed ]}; tick := 0; outbox := [] |}.

(** ** A run without a store *)

Definition cfgNoStore : Config :=
  {| TG_TOKEN := Some (lit "token"); ADMIN_CHAT_ID := Some (lit "42");
     CRON_SECRET := None; UPSTASH_URL := None; UPSTASH_TOKEN := None |}.

(** The feed holds the one message "Buy milk", sent a second before the
    run; every call succeeds. *)
Definition P1 : Platform :=
  {| feed := fun t _ => match t with
                        | O => FeedReply true [uCreate] []
                        | S _ => FeedReply true [] []
                        end;
     kv_error := fun _ => None;
     scan_reply := fun _ _ _ => None;
     send_error := fun _ => None;
     clock := fun _ => 1700000001000;
     toISOString := fun _ => Some (lit "2023-11-14T22:13:20.000Z");
     sort_choice := fun _ => 0%nat |}.

Definition req0 : Request := {| req_key := None |}.

(** A configuration with a shared secret and no bot token. *)
Definition cfgSecret : Config :=
  {| TG_TOKEN := None; ADMIN_CHAT_ID := Some (lit "42");
     CRON_SECRET := Some (lit "s3cret"); UPSTASH_URL := None; UPSTASH_TOKEN := None |}.

(** ** A run with a store that holds task 7 *)

(** The feed brings the reaction that closes task 7; the scan answers with
    the key of the task. *)
Definition P2 : Platform :=
  {| feed := fun t _ => match t with
                        | O => FeedReply true [uCreate; uReact] []
                        | S _ => FeedReply true [] []
                        end;
     kv_error := fun _ => None;
     scan_reply := fun _ _ _ => Some (lit "0", [taskKey 42 7]);
     send_error := fun _ => None;
     clock := fun _ => 1700000001000;
     toISOString := fun _ => None;
     sort_choice := fun _ => 0%nat |}.

(** ** A ledger with three tasks *)

(** "Call Sam" and, a hundred seconds later, "Pay rent", both open. *)
Definition tSam : Task :=
  {| task_id := lit "42:8"; chat_id := 42; message_id := 8;
     createdAt := 1700000000000; text := lit "Call Sam";
     done := false; doneAt := None |}.

Definition tRent : Task :=
  {| task_id := lit "42:9"; chat_id := 42; message_id := 9;
     createdAt := 1700000100000; text := lit "Pay rent";
     done := false; doneAt := None |}.

Definition wBook : World :=
  {| ledger := <[taskKey 42 9 := SJson tRent]>
                 (<[taskKey 42 7 := SJson tClosed]> {[ taskKey 42 8 := SJson tSam ]});
     tick := 0; outbox := [] |}.


Definition P3 : Platform :=
  {| feed := fun _ _ => FeedReply true [] [];
     kv_error := fun _ => None;
     scan_reply := fun _ cursor _ =>
                     if bool_decide (cursor = lit "0")
                     then Some (lit "17", [taskKey 42 9; taskKey 42 7])
                     else Some (lit "0", [taskKey 42 8]);
     send_error := fun _ => None;
     clock := fun _ => 1700086400000;
     toISOString := fun _ => None;
     sort_choice := fun _ => 0%nat |}.

(** ** Vocabulary of the further statements *)

(** What [htmlEscape] makes of one code unit. *)
Definition escapeUnit (c : Z) : jsstring :=
  if c =? 38 then lit "&amp;"
  else if c =? 60 then lit "&lt;"
  else if c =? 62 then lit "&gt;"
  else [c].

(** The reading back of escaped text: the three entities become their
    characters again, every other unit stands for itself. *)
Fixpoint htmlUnescape (s : jsstring) : jsstring :=
  match s with
  | [] => []
  | c :: r =>
      match r with
      | a :: b :: d :: r3 =>
          if (c =? 38) && (a =? 108) && (b =? 116) && (d =? 59)
          then 60 :: htmlUnescape r3
          else if (c =? 38) && (a =? 103) && (b =? 116) && (d =? 59)
          then 62 :: htmlUnescape r3
          else
            match r3 with
            | e :: r4 =>
                if (c =? 38) && (a =? 97) && (b =? 109) && (d =? 112) && (e =? 59)
                then 38 :: htmlUnescape r4
                else c :: htmlUnescape r
            | [] => c :: htmlUnescape r
            end
      | _ => c :: htmlUnescape r
      end
  end.

(** Text made of white space only. *)
Definition blank (s : jsstring) : Prop := Forall (fun c => isWhiteSpace c = true) s.

(** The units of a text that are not white space, in order. *)
Definition inked (s : jsstring) : jsstring :=
  List.filter (fun c => negb (isWhiteSpace c)) s.

(** A text is tight when neither its first nor its last unit is white
    space. *)
Definition tight (s : jsstring) : Prop :=
  match s with [] => True | c :: _ => isWhiteSpace c = false end
  /\ match last s with Some c => isWhiteSpace c = false | None => True end.

(** The key an action reads or writes, if any. *)
Definition actionKey (a : Action) : option jsstring :=
  match a with
  | ReactionClose key | ReplyClose key | CreateTask key _ => Some key
  | Ignore => None
  end.

(** A decimal digit or the minus sign. *)
Definition numeric (c : Z) : Prop := 48 <= c <= 57 \/ c = 45.

(** The update comes from the owner in a private chat: for a reaction, the
    chat of the reaction and the first actor identifier present; for a
    message, its chat and its sender. *)
Definition fromOwnerInPrivate (cfg : Config) (u : Update) : Prop :=
  match orObj (message_reaction u) (messageReaction u) with
  | Some mr =>
      exists chat,
        mr_chat mr = Some chat /\ c_type chat = lit "private"
        /\ StringOf (orNum (mr_user mr) (orNum (mr_from mr) (orNum (u_user u) (u_from u))))
           = adminString cfg
  | None =>
      exists m chat,
        message u = Some m /\ m_chat m = Some chat /\ c_type chat = lit "private"
        /\ StringOf (m_from m) = adminString cfg
  end.

(** ** More sample updates *)

(** The owner takes all reactions off message 7: [new_reaction] is empty,
    while a stale [reactions] property still holds a thumbs-up. *)
Definition mrUnreact : Reaction :=
  {| mr_chat := Some chat0; mr_user := Some 42; mr_from := None;
     mr_message_id := Some 7; mr_message := None; mr_msg_id := None;
     new_reaction := Some (FieldArray []);
     new_reactions := None; reaction := None;
     reactions := Some (FieldArray [ItemString THUMB]) |}.

Definition uUnreact : Update :=
  {| update_id := 103; message_reaction := Some mrUnreact; messageReaction := None;
     u_user := None; u_from := None; message := None; channel_post := None |}.

(** A ledger whose record for task 7 is not JSON. *)
Definition wCorrupt : World :=
  {| ledger := {[ taskKey 42 7 := SRaw (lit "{oops") ]}; tick := 0; outbox := [] |}.

(** A ledger whose record for task 7 is the object [{}]. *)
Definition emptyObj : Obj :=
  {| o_id := None; o_chat_id := None; o_message_id := None; o_createdAt := None;
     o_text := None; o_done := None; o_doneAt := None; o_other := [] |}.

Definition wLoose : World :=
  {| ledger := {[ taskKey 42 7 := SParsed (VObj emptyObj) ]}; tick := 0; outbox := [] |}.

(** ** Invariants of computations *)

(** [m] keeps the relation [R] between the world before and the world
    after, however it ends. *)
Definition preserves {A} (R : World -> World -> Prop) (m : M A) : Prop :=
  forall w r w', m w = (r, w') -> R w w'.

(** [m] never raises. *)
Definition noThrow {A} (m : M A) : Prop :=
  forall w e w', m w <> (Throw e, w').

(** When [m] returns, its result satisfies [Q]. *)
Definition returns {A} (Q : A -> Prop) (m : M A) : Prop :=
  forall w a w', m w = (Ok a, w') -> Q a.

(** No record is lost. *)
Definition grows (w w' : World) : Prop :=
  forall k, is_Some (ledger w !! k) -> is_Some (ledger w' !! k).

Definition sameLedger (w w' : World) : Prop := ledger w' = ledger w.

Definition sameOutbox (w w' : World) : Prop := outbox w' = outbox w.

(** The calls made: the tick never goes back. *)
Definition later (w w' : World) : Prop := (tick w <= tick w')%nat.

(** [m] always comes to an end within its fuel. *)
Definition noFuel {A} (m : M A) : Prop :=
  forall w w', m w <> (OutOfFuel, w').

(** The answers the entry point can give. *)
Definition wellFormed (resp : Response) : Prop :=
  (status resp = 200 /\ exists checked reported,
                          body resp = BodySummary true checked reported
                          /\ 0 <= checked /\ 0 <= reported)
  \/ ((status resp = 401 \/ status resp = 500) /\ exists msg, body resp = BodyError msg).

(** Groups of lines are packed when the first line of every group but the
    first would not have fitted, with its newline, at the end of the group
    before it. *)
Fixpoint packed (maxLen : Z) (gs : list (list jsstring)) : Prop :=
  match gs with
  | g1 :: rest =>
      match rest with
      | (l :: _) :: _ => maxLen < jslength (render g1) + jslength l + 1 /\ packed maxLen rest
      | _ => packed maxLen rest
      end
  | [] => True
  end.

(** The chat an update of [whoami] is about, if any. *)
Definition chatOf (u : Update) : option Chat :=
  match orObj (message u) (channel_post u) with
  | Some m => m_chat m
  | None => None
  end.

(** * Properties *)

(** ** Age in days *)

(** C10. [ageDays] is never negative; it is 0 when the creation time is
    missing, zero or later than [nowTs], and otherwise the whole number of
    days, floor((nowTs - fromTs) / 86,400,000). *)
Theorem ageDays_floor_nonneg (fromTs : option Z) (nowTs : Z) :
  0 <= ageDays fromTs nowTs
  /\ match fromTs with
     | None => ageDays fromTs nowTs = 0
     | Some f =>
         ((f = 0 \/ f > nowTs) -> ageDays fromTs nowTs = 0)
         /\ (f <> 0 -> f <= nowTs ->
             ageDays fromTs nowTs = (nowTs - f) / 86400000
             /\ 86400000 * ageDays fromTs nowTs <= nowTs - f
                  < 86400000 * (ageDays fromTs nowTs + 1))
     end.
Proof.
  destruct fromTs as [f|]; cbn [ageDays]; [|split; reflexivity].
  change (24 * 60 * 60 * 1000) with 86400000.
  destruct (f =? 0) eqn:E0; destruct (f >? nowTs) eqn:Egt; cbn [orb];
    try (split; [lia | split; [reflexivity | intros; lia]]).
  apply Z.eqb_neq in E0.
  assert (f <= nowTs) by lia.
  pose proof (Z.div_pos (nowTs - f) 86400000).
  pose proof (Z.mul_div_le (nowTs - f) 86400000).
  pose proof (Z.mul_succ_div_gt (nowTs - f) 86400000).
  split; [lia|]. split; [lia|]. intros _ _. split; [reflexivity|].
  unfold Z.succ in *. lia.
Qed.

(** ** Chunking *)

Lemma truthy_id (l : jsstring) : (if truthy l then l else []) = l.
Proof. destruct l; reflexivity. Qed.

Lemma render_snoc g l : render (g ++ [l]) = render g ++ (l ++ [10]).
Proof. unfold render. rewrite flat_map_app. cbn. now rewrite app_nil_r. Qed.

Lemma render_truthy g : g <> [] -> truthy (render g) = true.
Proof.
  destruct g as [|l g]; [congruence|]. intros _. cbn.
  destruct l; reflexivity.
Qed.

Lemma chunkLoop_groups maxLen lines : forall gs g,
  Forall (fitGroup maxLen) gs ->
  (g = [] \/ fitGroup maxLen g) ->
  exists gs' g',
    chunkLoop maxLen lines (map render gs) (render g) = (map render gs', render g')
    /\ concat gs' ++ g' = concat gs ++ g ++ lines
    /\ Forall (fitGroup maxLen) gs'
    /\ (g' = [] \/ fitGroup maxLen g').
Proof.
  induction lines as [|line rest IH]; intros gs g Hgs Hg.
  - exists gs, g. cbn. rewrite app_nil_r. auto.
  - cbn [chunkLoop]. rewrite truthy_id.
    destruct (jslength (render g ++ line ++ [10]) >? maxLen) eqn:Hover.
    + destruct Hg as [-> | Hfit].
      * cbn [render flat_map truthy].
        destruct (IH gs [line] Hgs) as (gs' & g' & Heq & Hcat & Hok & Hg').
        { right. split; [congruence | right; eauto]. }
        exists gs', g'. cbn [render flat_map] in Heq. rewrite app_nil_r in Heq.
        rewrite Heq. repeat split; auto.
      * rewrite (render_truthy g) by apply Hfit.
        destruct (IH (gs ++ [g]) [line]) as (gs' & g' & Heq & Hcat & Hok & Hg').
        { apply Forall_app; split; [assumption | constructor; auto]. }
        { right. split; [congruence | right; eauto]. }
        exists gs', g'. rewrite map_app in Heq. cbn [map render flat_map] in Heq.
        rewrite app_nil_r in Heq. rewrite Heq. repeat split; auto.
        rewrite Hcat, concat_app. cbn. rewrite app_nil_r, <- !app_assoc. reflexivity.
    + rewrite <- render_snoc.
      destruct (IH gs (g ++ [line]) Hgs) as (gs' & g' & Heq & Hcat & Hok & Hg').
      { right. split; [destruct g; discriminate|]. left.
        rewrite render_snoc. lia. }
      exists gs', g'. rewrite Heq. repeat split; auto.
      rewrite Hcat, <- !app_assoc. reflexivity.
Qed.

Lemma render_concat gs : concat (map render gs) = render (concat gs).
Proof.
  unfold render. induction gs as [|g gs IH]; [reflexivity|].
  cbn. now rewrite flat_map_app, IH.
Qed.

(** C3, as the code has it.  The chunks are the texts of consecutive groups
    of whole lines, so joining them gives back every line with its newline
    and no line is split; a chunk stays within the bound unless it is made of
    one line that alone, with its newline, is longer than the bound. *)
Theorem chunkMessages_groups (lines : list jsstring) (maxLen : Z) :
  exists groups,
    concat groups = lines
    /\ chunkMessages lines maxLen = map render groups
    /\ concat (chunkMessages lines maxLen) = render lines
    /\ Forall (fun g => g <> []) groups
    /\ Forall (fun g => jslength (render g) <= maxLen
                        \/ exists l, g = [l] /\ maxLen < jslength l + 1) groups
    /\ ((forall l, In l lines -> jslength l + 1 <= maxLen) ->
        Forall (fun c => jslength c <= maxLen) (chunkMessages lines maxLen)).
Proof.
  destruct (chunkLoop_groups maxLen lines [] []) as (gs & g & Heq & Hcat & Hok & Hg);
    [constructor | now left |].
  cbn in Heq, Hcat. unfold chunkMessages. rewrite Heq.
  assert (Hall : exists groups, concat groups = lines
             /\ (if truthy (render g) then map render gs ++ [render g] else map render gs)
                = map render groups
             /\ Forall (fitGroup maxLen) groups).
  { destruct Hg as [-> | Hfit].
    - exists gs. cbn. rewrite app_nil_r in Hcat. auto.
    - exists (gs ++ [g]). rewrite (render_truthy g) by apply Hfit.
      rewrite concat_app, map_app. cbn. rewrite app_nil_r.
      repeat split; auto. apply Forall_app. split; auto. }
  destruct Hall as (groups & Hc & Hm & Hfit). exists groups.
  rewrite Hm.
  assert (Hbound : Forall (fun g0 => jslength (render g0) <= maxLen
                        \/ exists l, g0 = [l] /\ maxLen < jslength l + 1) groups).
  { eapply Forall_impl; [exact Hfit|]. intros g0 [_ [Hle | [l ->]]]; [now left|].
    destruct (Z_le_gt_dec (jslength (render [l])) maxLen) as [Hle | Hgt]; [now left|].
    right. exists l. split; [reflexivity|].
    cbn in Hgt. rewrite app_nil_r in Hgt. unfold jslength in *.
    rewrite length_app in Hgt. cbn in Hgt. lia. }
  repeat split.
  - exact Hc.
  - rewrite render_concat. now rewrite Hc.
  - eapply Forall_impl; [exact Hfit|]. now intros g0 [H _].
  - exact Hbound.
  - intros Hlines. apply List.Forall_forall. intros c Hin.
    apply in_map_iff in Hin. destruct Hin as (g0 & <- & Hin).
    rewrite List.Forall_forall in Hbound. destruct (Hbound g0 Hin) as [Hle | (l & -> & Hlt)];
      [exact Hle|].
    assert (In l lines).
    { rewrite <- Hc. apply in_concat. exists [l]. split; [assumption | now left]. }
    specialize (Hlines l H). lia.
Qed.

(** C3, as stated, fails: a line longer than the bound makes a chunk longer
    than the bound. *)
Lemma chunkMessages_bound_fails :
  ~ (forall lines maxLen,
       Forall (fun c => jslength c <= maxLen) (chunkMessages lines maxLen)).
Proof.
  intros H. specialize (H [lit "abcdef"] 3).
  vm_compute in H. inversion H as [|c cs Hc _]; subst. apply Hc. reflexivity.
Qed.

(** ** The thumbs-up detector *)

Lemma toCodePoints_fromCodePoint (c : Z) :
  0 <= c <= 0x10FFFF -> toCodePoints (fromCodePoint c) = [c].
Proof.
  intros Hc. unfold fromCodePoint.
  destruct (c <? 0x10000) eqn:E; [reflexivity|].
  apply Z.ltb_ge in E. cbn [toCodePoints].
  pose proof (Z.div_mod (c - 0x10000) 0x400 ltac:(lia)) as Hdm.
  pose proof (Z.mod_pos_bound (c - 0x10000) 0x400 ltac:(lia)) as Hm.
  assert (0 <= (c - 0x10000) / 0x400 < 0x400) as Hd.
  { split; [apply Z.div_pos; lia | apply Z.div_lt_upper_bound; lia]. }
  unfold isHighSurrogate, isLowSurrogate.
  replace (0xD800 <=? 0xD800 + (c - 0x10000) / 0x400) with true by (symmetry; apply Z.leb_le; lia).
  replace (0xD800 + (c - 0x10000) / 0x400 <=? 0xDBFF) with true by (symmetry; apply Z.leb_le; lia).
  replace (0xDC00 <=? 0xDC00 + (c - 0x10000) mod 0x400) with true by (symmetry; apply Z.leb_le; lia).
  replace (0xDC00 + (c - 0x10000) mod 0x400 <=? 0xDFFF) with true by (symmetry; apply Z.leb_le; lia).
  cbn [andb]. f_equal. lia.
Qed.

(** A supplementary code point after any code point is read on its own. *)
Lemma toCodePoints_pair (c m : Z) :
  0 <= c <= 0x10FFFF -> 0x10000 <= m <= 0x10FFFF ->
  toCodePoints (fromCodePoint c ++ fromCodePoint m) = [c; m].
Proof.
  intros Hc Hm.
  pose proof (toCodePoints_fromCodePoint m ltac:(lia)) as Hrm.
  unfold fromCodePoint at 1.
  destruct (c <? 0x10000) eqn:E.
  - unfold fromCodePoint in *. replace (m <? 0x10000) with false in * by (symmetry; apply Z.ltb_ge; lia).
    cbn [app]. remember (0xD800 + (m - 0x10000) / 0x400) as hi.
    remember (0xDC00 + (m - 0x10000) mod 0x400) as lo.
    assert (isLowSurrogate hi = false) as Hhi.
    { assert (0 <= (m - 0x10000) / 0x400 < 0x400).
      { split; [apply Z.div_pos; lia | apply Z.div_lt_upper_bound; lia]. }
      unfold isLowSurrogate. apply andb_false_iff. left. apply Z.leb_gt. lia. }
    change (toCodePoints (c :: hi :: [lo]))
      with (if isHighSurrogate c && isLowSurrogate hi
            then (0x10000 + (c - 0xD800) * 0x400 + (hi - 0xDC00)) :: toCodePoints [lo]
            else c :: toCodePoints [hi; lo]).
    rewrite Hhi, andb_false_r, Hrm. reflexivity.
  - pose proof (toCodePoints_fromCodePoint c Hc) as Hrc.
    unfold fromCodePoint in Hrc. rewrite E in Hrc.
    cbn [app]. cbn [toCodePoints] in Hrc |- *.
    destruct (isHighSurrogate _ && isLowSurrogate _); [|discriminate].
    injection Hrc as Hrc. rewrite Hrc. f_equal. exact Hrm.
Qed.

Lemma THUMBS_UP_RE_exec_In (cps : list Z) :
  (exists r, THUMBS_UP_RE_exec cps = Some r) <-> In 0x1F44D cps.
Proof.
  induction cps as [|c cps IH].
  - cbn. split; [intros [r Hr]; discriminate | tauto].
  - cbn [THUMBS_UP_RE_exec THUMBS_UP_RE_at In].
    destruct (c =? 0x1F44D) eqn:E.
    + apply Z.eqb_eq in E. split; eauto.
    + apply Z.eqb_neq in E. split.
      * intros [r Hr]. right. apply IH.
        destruct (THUMBS_UP_RE_exec cps) as [[i n]|]; [eauto | discriminate].
      * intros [Heq | Hin]; [congruence|].
        apply IH in Hin. destruct Hin as [[i n] ->]. eauto.
Qed.

Lemma THUMBS_UP_RE_test_In (s : jsstring) :
  THUMBS_UP_RE_test s = true <-> In 0x1F44D (toCodePoints s).
Proof.
  unfold THUMBS_UP_RE_test. rewrite <- THUMBS_UP_RE_exec_In.
  destruct (THUMBS_UP_RE_exec (toCodePoints s)); split; eauto; try discriminate.
  intros [r Hr]. discriminate.
Qed.

Lemma THUMBS_UP_RE_test_false (s : jsstring) :
  ~ In 0x1F44D (toCodePoints s) -> THUMBS_UP_RE_test s = false.
Proof.
  intros H. destruct (THUMBS_UP_RE_test s) eqn:E; [|reflexivity].
  apply THUMBS_UP_RE_test_In in E. contradiction.
Qed.

(** C5. The detector fires on the thumbs-up glyph U+1F44D and on the glyph
    followed by any of the skin tones U+1F3FB..U+1F3FF, which it matches as
    one unit of two code points; it fires on no other single code point, with
    or without a skin tone, and in general only on text that holds U+1F44D.
    The reaction check applies the same test to each reaction symbol. *)
Theorem THUMBS_UP_RE_variants :
  THUMBS_UP_RE_test (fromCodePoint 0x1F44D) = true
  /\ THUMBS_UP_RE_exec (toCodePoints (fromCodePoint 0x1F44D)) = Some (0%nat, 1%nat)
  /\ (forall m, 0x1F3FB <= m <= 0x1F3FF ->
        THUMBS_UP_RE_test (fromCodePoint 0x1F44D ++ fromCodePoint m) = true
        /\ THUMBS_UP_RE_exec (toCodePoints (fromCodePoint 0x1F44D ++ fromCodePoint m))
           = Some (0%nat, 2%nat))
  /\ (forall c, 0 <= c <= 0x10FFFF -> c <> 0x1F44D ->
        THUMBS_UP_RE_test (fromCodePoint c) = false)
  /\ (forall c m, 0 <= c <= 0x10FFFF -> c <> 0x1F44D -> 0x1F3FB <= m <= 0x1F3FF ->
        THUMBS_UP_RE_test (fromCodePoint c ++ fromCodePoint m) = false)
  /\ (forall s, THUMBS_UP_RE_test s = true <-> In 0x1F44D (toCodePoints s))
  /\ (forall e, hasThumb [e] = THUMBS_UP_RE_test e).
Proof.
  split; [reflexivity|]. split; [reflexivity|].
  split; [|split; [|split; [|split]]].
  - intros m Hm.
    assert (m = 0x1F3FB \/ m = 0x1F3FC \/ m = 0x1F3FD \/ m = 0x1F3FE \/ m = 0x1F3FF)
      as Hcases by lia.
    destruct Hcases as [-> | [-> | [-> | [-> | ->]]]]; split; reflexivity.
  - intros c Hc Hne. apply THUMBS_UP_RE_test_false.
    rewrite toCodePoints_fromCodePoint by assumption. cbn. intros [H | []]. congruence.
  - intros c m Hc Hne Hm. apply THUMBS_UP_RE_test_false.
    rewrite toCodePoints_pair by lia. cbn. intros [H | [H | []]]; lia.
  - apply THUMBS_UP_RE_test_In.
  - intros e. unfold hasThumb. cbn. apply orb_false_r.
Qed.

(** ** The ledger applier *)

Ltac unfoldM :=
  unfold mbind, M_bind, mret, M_ret, try_, tryCatch, throw, outOfFuel in *.

Lemma try_mret (w : World) : try_ (mret tt) w = (Ok tt, w).
Proof. reflexivity. Qed.

(** The loop body does what the decision says. *)
Lemma applyUpdate_perform (P : Platform) (cfg : Config) (u : Update) (w : World) :
  applyUpdate P cfg u w = perform P (classify cfg u) w.
Proof.
  unfold applyUpdate, classify.
  destruct (orObj (message_reaction u) (messageReaction u)) as [mr|].
  - destruct (reactionTarget cfg u mr); reflexivity.
  - destruct (message u) as [m|]; [|reflexivity].
    destruct (m_chat m) as [chat|]; [|reflexivity].
    destruct (negb (isPrivate chat)); [reflexivity|].
    destruct (negb (bool_decide (StringOf (m_from m) = adminString cfg))); [reflexivity|].
    destruct (m_reply_to_message m) as [replied|].
    + destruct (if truthy (messageText m) then THUMBS_UP_RE_test (messageText m) else false);
        reflexivity.
    + destruct (truthy (messageText m) && negb _); reflexivity.
Qed.

(** What a close does to the world, case by case. *)
Lemma closeTask_value (P : Platform) (key : jsstring) (w : World) :
  try_ (closeTask P key) w =
  (Ok tt,
   match kv_error P (tick w) with
   | Some _ => bump w
   | None =>
       match ledger w !! key with
       | Some (SParsed v) =>
           if settable v then
             match kv_error P (S (tick w)) with
             | Some _ => bump (bump w)
             | None =>
                 {| ledger := <[key := SParsed (closed v (clock P (S (tick w))))]> (ledger w);
                    tick := S (S (tick w)); outbox := outbox w |}
             end
           else bump w
       | _ => bump w
       end
   end).
Proof.
  unfold closeTask, kv_get, kv_set, Date_now, JSON_parse, JSON_stringify. unfoldM.
  destruct (kv_error P (tick w)); [reflexivity|].
  destruct (ledger w !! key) as [[v|s]|] eqn:E; cbn.
  - destruct v as [| json | json | o]; cbn; try reflexivity;
      destruct (kv_error P (S (tick w))); reflexivity.
  - destruct (truthy s); reflexivity.
  - reflexivity.
Qed.

Lemma closed_task (t : Task) (now : Z) :
  closed (taskValue t) now = taskValue (markDone t now).
Proof. reflexivity. Qed.

(** The same for a key that holds a task. *)
Lemma closeTask_run (P : Platform) (key : jsstring) (w : World) (t : Task) :
  ledger w !! key = Some (SJson t) ->
  try_ (closeTask P key) w =
  (Ok tt,
   match kv_error P (tick w) with
   | Some _ => bump w
   | None =>
       match kv_error P (S (tick w)) with
       | Some _ => bump (bump w)
       | None =>
           {| ledger := <[key := SJson (markDone t (clock P (S (tick w))))]> (ledger w);
              tick := S (S (tick w)); outbox := outbox w |}
       end
   end).
Proof. intros H. rewrite closeTask_value, H. reflexivity. Qed.

Lemma closeTask_absent (P : Platform) (key : jsstring) (w : World) :
  ledger w !! key = None -> try_ (closeTask P key) w = (Ok tt, bump w).
Proof.
  intros H. rewrite closeTask_value, H. destruct (kv_error P (tick w)); reflexivity.
Qed.

Lemma SJson_inj (t t' : Task) : SJson t = SJson t' -> t = t'.
Proof.
  unfold SJson, taskObj. intros [= ? ? ? ? ? ? ?].
  destruct t, t'; cbn in *; congruence.
Qed.

Lemma createTask_run (P : Platform) (key : jsstring) (task : Task) (w : World) :
  try_ (kv_set P key (SJson task) ;; mret tt) w =
  (Ok tt,
   match kv_error P (tick w) with
   | Some _ => bump w
   | None => {| ledger := <[key := SJson task]> (ledger w);
                tick := S (tick w); outbox := outbox w |}
   end).
Proof.
  unfold kv_set. unfoldM. destruct (kv_error P (tick w)); reflexivity.
Qed.

Lemma classify_create (cfg : Config) (u : Update) (key : jsstring) (task : Task) :
  classify cfg u = CreateTask key task ->
  key = taskKey (chat_id task) (message_id task)
  /\ done task = false /\ doneAt task = None.
Proof.
  unfold classify.
  destruct (orObj (message_reaction u) (messageReaction u)) as [mr|].
  { destruct (reactionTarget cfg u mr); discriminate. }
  destruct (message u) as [m|]; [|discriminate].
  destruct (m_chat m) as [chat|]; [|discriminate].
  destruct (negb (isPrivate chat)); [discriminate|].
  destruct (negb (bool_decide _)); [discriminate|].
  destruct (m_reply_to_message m).
  { destruct (if truthy (messageText m) then _ else _); discriminate. }
  destruct (truthy (messageText m) && _); [|discriminate].
  intros [= <- <-]. cbn. auto.
Qed.

(** C6. A close whose target has no record in the ledger raises nothing and
    leaves the ledger as it was, whether the lookup answers or fails: the
    only trace is the one call made to the store. *)
Theorem close_absent_is_noop (P : Platform) (cfg : Config) (u : Update)
    (key : jsstring) (w : World) :
  closes (classify cfg u) key ->
  ledger w !! key = None ->
  applyUpdate P cfg u w = (Ok tt, bump w) /\ ledger (bump w) = ledger w.
Proof.
  intros Hc Habs. rewrite applyUpdate_perform.
  destruct Hc as [-> | ->]; cbn [perform]; rewrite (closeTask_absent P key w Habs);
    split; reflexivity.
Qed.

(** The reaction to message 7 on an empty ledger. *)
Lemma close_absent_is_noop_witness :
  applyUpdate P0 cfg0 uReact w0 = (Ok tt, bump w0) /\ ledger (bump w0) = ledger w0.
Proof.
  apply (close_absent_is_noop P0 cfg0 uReact (taskKey 42 7) w0).
  - left. vm_compute. reflexivity.
  - reflexivity.
Defined.

(** C1, as the code has it.  A further close of a task that is already done
    keeps [done = true] and every other field, but it is a write: when the
    store answers the read and the write, [doneAt] becomes the time of this
    close; the record stays as it was only when one of the two calls fails. *)
Theorem close_done_rewrites_doneAt (P : Platform) (cfg : Config) (u : Update)
    (key : jsstring) (w : World) (t : Task) :
  closes (classify cfg u) key ->
  ledger w !! key = Some (SJson t) ->
  done t = true ->
  exists w' t',
    applyUpdate P cfg u w = (Ok tt, w')
    /\ ledger w' = <[key := SJson t']> (ledger w)
    /\ done t' = true
    /\ task_id t' = task_id t /\ chat_id t' = chat_id t
    /\ message_id t' = message_id t /\ createdAt t' = createdAt t
    /\ text t' = text t
    /\ doneAt t' = match kv_error P (tick w), kv_error P (S (tick w)) with
                   | None, None => Some (clock P (S (tick w)))
                   | _, _ => doneAt t
                   end.
Proof.
  intros Hc Hrec Hdone.
  assert (Hrun : applyUpdate P cfg u w = try_ (closeTask P key) w).
  { rewrite applyUpdate_perform. destruct Hc as [-> | ->]; reflexivity. }
  rewrite Hrun, (closeTask_run P key w t Hrec).
  destruct (kv_error P (tick w)) eqn:E1; [|destruct (kv_error P (S (tick w))) eqn:E2].
  - exists (bump w), t. cbn. rewrite insert_id by assumption. repeat split; auto.
  - exists (bump (bump w)), t. cbn. rewrite insert_id by assumption. repeat split; auto.
  - eexists _, (markDone t (clock P (S (tick w)))). cbn. repeat split; auto.
Qed.

(** Task 7, closed at time 1, is closed again by a reply at time 5001. *)
Lemma close_done_rewrites_doneAt_witness :
  exists w' t',
    applyUpdate P0 cfg0 uReply wClosed = (Ok tt, w')
    /\ ledger w' = <[taskKey 42 7 := SJson t']> (ledger wClosed)
    /\ done t' = true
    /\ task_id t' = task_id tClosed /\ chat_id t' = chat_id tClosed
    /\ message_id t' = message_id tClosed /\ createdAt t' = createdAt tClosed
    /\ text t' = text tClosed
    /\ doneAt t' = Some 5001.
Proof.
  apply (close_done_rewrites_doneAt P0 cfg0 uReply (taskKey 42 7) wClosed tClosed).
  - right. vm_compute. reflexivity.
  - apply lookup_singleton_eq.
  - reflexivity.
Defined.

(** C1, as stated, fails: the second close of task 7 replaces [doneAt = 1]
    by the time of the second close. *)
Lemma close_done_not_noop :
  ~ (forall P cfg u key w t,
       closes (classify cfg u) key ->
       ledger w !! key = Some (SJson t) ->
       done t = true ->
       ledger (snd (applyUpdate P cfg u w)) !! key = Some (SJson t)).
Proof.
  intros H.
  specialize (H P0 cfg0 uReact (taskKey 42 7) wClosed tClosed).
  rewrite applyUpdate_perform in H.
  assert (Hcls : classify cfg0 uReact = ReactionClose (taskKey 42 7))
    by (vm_compute; reflexivity).
  rewrite Hcls in H. cbn [perform] in H.
  rewrite (closeTask_run P0 (taskKey 42 7) wClosed tClosed (lookup_singleton_eq _ _)) in H.
  cbn [P0 kv_error wClosed ledger tick snd] in H.
  specialize (H (or_introl eq_refl) (lookup_singleton_eq _ _) eq_refl).
  cbn [ledger] in H. rewrite lookup_insert_eq in H.
  apply (inj Some) in H. apply SJson_inj in H. discriminate H.
Qed.

(** C2, as the code has it.  A create is a blind write: for two create
    updates with the same conversation and message identifiers the keys
    coincide, and applying the second to a ledger that already holds a record
    under that key replaces the record, whatever it was, by the fresh task of
    the second update, with [done = false] and no [doneAt], as soon as the
    store accepts the write; the old record survives only a failed write. *)
Theorem create_overwrites (P : Platform) (cfg : Config) (u1 u2 : Update)
    (k1 k2 : jsstring) (t1 t2 : Task) (w : World) (old : Stored) :
  classify cfg u1 = CreateTask k1 t1 ->
  classify cfg u2 = CreateTask k2 t2 ->
  chat_id t1 = chat_id t2 ->
  message_id t1 = message_id t2 ->
  ledger w !! k1 = Some old ->
  k2 = k1
  /\ done t2 = false /\ doneAt t2 = None
  /\ exists w',
       applyUpdate P cfg u2 w = (Ok tt, w')
       /\ ledger w' = match kv_error P (tick w) with
                      | None => <[k1 := SJson t2]> (ledger w)
                      | Some _ => ledger w
                      end.
Proof.
  intros H1 H2 Hc Hm Hold.
  destruct (classify_create _ _ _ _ H1) as (-> & _ & _).
  destruct (classify_create _ _ _ _ H2) as (-> & Hd & Hda).
  rewrite Hc, Hm. repeat split; auto.
  rewrite applyUpdate_perform, H2. cbn [perform]. rewrite createTask_run.
  eexists. split; [reflexivity|].
  destruct (kv_error P (tick w)); reflexivity.
Qed.

(** Message 7 arrives a second time after task 7 was closed. *)
Lemma create_overwrites_witness :
  taskKey 42 7 = taskKey 42 7
  /\ done (newTask chat0 (mkMessage 7 (lit "Buy milk") None)) = false
  /\ doneAt (newTask chat0 (mkMessage 7 (lit "Buy milk") None)) = None
  /\ exists w',
       applyUpdate P0 cfg0 uCreate wClosed = (Ok tt, w')
       /\ ledger w'
          = <[taskKey 42 7 := SJson (newTask chat0 (mkMessage 7 (lit "Buy milk") None))]>
              (ledger wClosed).
Proof.
  apply (create_overwrites P0 cfg0 uCreate uCreate (taskKey 42 7) (taskKey 42 7)
           (newTask chat0 (mkMessage 7 (lit "Buy milk") None))
           (newTask chat0 (mkMessage 7 (lit "Buy milk") None))
           wClosed (SJson tClosed)).
  - vm_compute. reflexivity.
  - vm_compute. reflexivity.
  - reflexivity.
  - reflexivity.
  - apply lookup_singleton_eq.
Defined.

(** C2, as stated, fails: a second create for message 7 reopens the closed
    task 7. *)
Lemma create_not_noop :
  ~ (forall P cfg u1 u2 key t1 t2 w old,
       classify cfg u1 = CreateTask key t1 ->
       classify cfg u2 = CreateTask key t2 ->
       ledger w !! key = Some old ->
       ledger (snd (applyUpdate P cfg u2 w)) !! key = Some old).
Proof.
  intros H.
  assert (Hcls : classify cfg0 uCreate
                 = CreateTask (taskKey 42 7) (newTask chat0 (mkMessage 7 (lit "Buy milk") None)))
    by (vm_compute; reflexivity).
  specialize (H P0 cfg0 uCreate uCreate _ _ _ wClosed (SJson tClosed) Hcls Hcls
                (lookup_singleton_eq _ _)).
  rewrite applyUpdate_perform, Hcls in H. cbn [perform] in H.
  rewrite createTask_run in H. cbn [P0 kv_error snd ledger] in H.
  rewrite lookup_insert_eq in H.
  injection H; intros; discriminate.
Qed.

(** ** Snippets *)

Lemma collapseWs_normal (s : jsstring) : forall b, wsNormal b (collapseWs b s) = true.
Proof.
  induction s as [|c r IH]; intros b; [reflexivity|].
  cbn [collapseWs]. destruct (isWhiteSpace c) eqn:E.
  - destruct b; [apply IH|]. cbn [wsNormal]. rewrite IH. reflexivity.
  - cbn [wsNormal]. rewrite E. apply IH.
Qed.

Lemma wsNormal_weaken (s : jsstring) (b : bool) :
  wsNormal b s = true -> wsNormal false s = true.
Proof.
  destruct s as [|c r]; [reflexivity|]. cbn [wsNormal].
  destruct (isWhiteSpace c); [|auto]. destruct b; [|auto].
  rewrite andb_false_r. discriminate.
Qed.

Lemma wsNormal_prefix (p q : jsstring) : forall b,
  wsNormal b (p ++ q) = true -> wsNormal b p = true.
Proof.
  induction p as [|c p IH]; intros b; [reflexivity|]. cbn [app wsNormal].
  destruct (isWhiteSpace c); [|apply IH].
  intros H. apply andb_true_iff in H as [H1 H2]. rewrite H1, (IH _ H2). reflexivity.
Qed.

Lemma wsNormal_suffix (p q : jsstring) : forall b,
  wsNormal b (p ++ q) = true -> wsNormal false q = true.
Proof.
  induction p as [|c p IH]; intros b; [apply wsNormal_weaken|]. cbn [app wsNormal].
  destruct (isWhiteSpace c); [|apply IH].
  intros H. apply andb_true_iff in H as [_ H2]. exact (IH _ H2).
Qed.

Lemma wsNormal_snoc (p : jsstring) (e : Z) : forall b,
  isWhiteSpace e = false -> wsNormal b p = true -> wsNormal b (p ++ [e]) = true.
Proof.
  induction p as [|c p IH]; intros b He; cbn [app wsNormal].
  - rewrite He. reflexivity.
  - destruct (isWhiteSpace c); [|apply IH; assumption].
    intros H. apply andb_true_iff in H as [H1 H2]. rewrite H1, (IH _ He H2). reflexivity.
Qed.

Lemma trimStart_suffix (s : jsstring) : exists p, s = p ++ trimStart s.
Proof.
  induction s as [|c r [p IH]]; [exists []; reflexivity|]. cbn [trimStart].
  destruct (isWhiteSpace c).
  - exists (c :: p). cbn. now rewrite <- IH.
  - exists []. reflexivity.
Qed.

Lemma trimEnd_prefix (s : jsstring) : exists q, s = trimEnd s ++ q.
Proof.
  unfold trimEnd. destruct (trimStart_suffix (rev s)) as [p Hp].
  exists (rev p). rewrite <- rev_app_distr, <- Hp. symmetry. apply rev_involutive.
Qed.

Lemma trim_normal (s : jsstring) (b : bool) :
  wsNormal b s = true -> wsNormal false (trim s) = true.
Proof.
  intros H. unfold trim.
  destruct (trimStart_suffix s) as [p Hp]. rewrite Hp in H.
  apply wsNormal_suffix in H.
  destruct (trimEnd_prefix (trimStart s)) as [q Hq]. rewrite Hq in H.
  exact (wsNormal_prefix _ _ _ H).
Qed.

Lemma slice0_prefix (s : jsstring) (e : Z) : exists q, s = slice0 s e ++ q.
Proof.
  unfold slice0. destruct (e <? 0); eexists; symmetry; apply firstn_skipn.
Qed.

(** The snippet is the cleaned text, or its first [max - 1] units and the
    mark; it is at most two units longer than [max] and its white space is
    normalised. *)
Lemma wsNormal_mark (p : jsstring) (b : bool) :
  wsNormal b p = true -> wsNormal b (p ++ ELLIPSIS) = true.
Proof.
  intros H. change ELLIPSIS with ([0x201A] ++ [0xC4] ++ [0xB6]).
  rewrite !app_assoc. repeat (apply wsNormal_snoc; [reflexivity|]). exact H.
Qed.

Lemma snippet_spec (s : jsstring) (max : Z) :
  1 <= max -> s <> [] ->
  let clean := trim (collapseWs false s) in
  (snippet s max = clean
   \/ snippet s max = firstn (Z.to_nat (max - 1)) clean ++ ELLIPSIS)
  /\ jslength (snippet s max) <= max + 2
  /\ wsNormal false (snippet s max) = true.
Proof.
  intros Hmax Hs clean. unfold snippet.
  destruct s as [|c r]; [congruence|]. cbn [truthy negb].
  fold clean.
  assert (Hn : wsNormal false clean = true).
  { unfold clean. eapply trim_normal. apply collapseWs_normal. }
  destruct (jslength clean >? max) eqn:E.
  - unfold slice0. replace (max - 1 <? 0) with false by (symmetry; apply Z.ltb_ge; lia).
    split; [right; reflexivity|]. split.
    + unfold jslength in *. rewrite length_app, length_firstn. cbn. lia.
    + apply wsNormal_mark.
      eapply wsNormal_prefix. rewrite firstn_skipn. exact Hn.
  - split; [left; reflexivity|]. split; [lia | exact Hn].
Qed.

Lemma collapseWs_fixed (s : jsstring) : forall b,
  wsNormal b s = true -> collapseWs b s = s.
Proof.
  induction s as [|c r IH]; intros b; [reflexivity|]. cbn [wsNormal collapseWs].
  destruct (isWhiteSpace c).
  - intros H. apply andb_true_iff in H as [H1 H2]. apply andb_true_iff in H1 as [Hc Hb].
    apply Z.eqb_eq in Hc. subst c. destruct b; [discriminate|].
    now rewrite (IH _ H2).
  - intros H. now rewrite (IH _ H).
Qed.

Lemma collapseWs_inked (s : jsstring) : forall b, inked (collapseWs b s) = inked s.
Proof.
  unfold inked. induction s as [|c r IH]; intros b; [reflexivity|].
  cbn [collapseWs List.filter]. destruct (isWhiteSpace c) eqn:E; cbn [negb].
  - destruct b; [apply IH|]. cbn [List.filter]. apply IH.
  - cbn [List.filter]. rewrite E. cbn [negb]. now rewrite IH.
Qed.

Lemma trimStart_inked (s : jsstring) : inked (trimStart s) = inked s.
Proof.
  unfold inked. induction s as [|c r IH]; [reflexivity|].
  cbn [trimStart List.filter]. destruct (isWhiteSpace c) eqn:E; cbn [negb].
  - exact IH.
  - cbn [List.filter]. now rewrite E.
Qed.

Lemma inked_rev (s : jsstring) : inked (rev s) = rev (inked s).
Proof.
  unfold inked. induction s as [|c r IH]; [reflexivity|].
  cbn [rev List.filter]. rewrite List.filter_app, IH. cbn [List.filter].
  destruct (negb (isWhiteSpace c)); cbn [rev]; now rewrite ?app_nil_r.
Qed.

Lemma trim_inked (s : jsstring) : inked (trim s) = inked s.
Proof.
  unfold trim, trimEnd.
  rewrite inked_rev, trimStart_inked, inked_rev, rev_involutive. apply trimStart_inked.
Qed.

Lemma trimStart_head (s : jsstring) :
  match trimStart s with [] => True | c :: _ => isWhiteSpace c = false end.
Proof.
  induction s as [|c r IH]; [exact I|]. cbn [trimStart].
  destruct (isWhiteSpace c) eqn:E; [exact IH | exact E].
Qed.

Lemma trimStart_fixed (s : jsstring) :
  match s with [] => True | c :: _ => isWhiteSpace c = false end -> trimStart s = s.
Proof. destruct s as [|c r]; [reflexivity|]. cbn. now intros ->. Qed.

Lemma last_rev_head (s : jsstring) : last (rev s) = head s.
Proof. destruct s as [|c r]; [reflexivity|]. cbn [rev]. apply last_snoc. Qed.

Lemma head_rev_last (s : jsstring) : head (rev s) = last s.
Proof. rewrite <- (rev_involutive s) at 2. symmetry. apply last_rev_head. Qed.

Lemma trimEnd_fixed (s : jsstring) :
  match last s with Some c => isWhiteSpace c = false | None => True end -> trimEnd s = s.
Proof.
  intros H. unfold trimEnd. rewrite trimStart_fixed; [apply rev_involutive|].
  rewrite <- head_rev_last in H. destruct (rev s); exact H.
Qed.

Lemma trim_tight (s : jsstring) : tight (trim s).
Proof.
  unfold tight, trim. split.
  - destruct (trimEnd_prefix (trimStart s)) as [q Hq].
    pose proof (trimStart_head s) as Hh. rewrite Hq in Hh.
    destruct (trimEnd (trimStart s)); [exact I | exact Hh].
  - unfold trimEnd. rewrite last_rev_head.
    pose proof (trimStart_head (rev (trimStart s))) as Hh.
    destruct (trimStart (rev (trimStart s))); [exact I | exact Hh].
Qed.

Lemma trim_fixed (s : jsstring) : tight s -> trim s = s.
Proof.
  intros [Hh Hl]. unfold trim. rewrite (trimStart_fixed s Hh). now apply trimEnd_fixed.
Qed.

(** A tight text with normalised white space is its own cleaned form. *)
Lemma clean_fixed (s : jsstring) :
  tight s -> wsNormal false s = true -> trim (collapseWs false s) = s.
Proof. intros Ht Hn. rewrite collapseWs_fixed by exact Hn. now apply trim_fixed. Qed.

Lemma inked_nil_blank (s : jsstring) : inked s = [] <-> blank s.
Proof.
  unfold inked, blank. induction s as [|c r IH]; [split; [constructor | reflexivity]|].
  cbn [List.filter]. destruct (isWhiteSpace c) eqn:E; cbn [negb].
  - rewrite IH. split; [now constructor | now inversion 1].
  - split; [discriminate | inversion 1; congruence].
Qed.

Lemma tight_blank_nil (s : jsstring) : tight s -> blank s -> s = [].
Proof.
  intros [Hh _] Hb. destruct s as [|c r]; [reflexivity|].
  inversion Hb; congruence.
Qed.

Lemma snippet_tight (s : jsstring) (max : Z) :
  1 <= max -> tight (snippet s max).
Proof.
  intros Hmax. unfold snippet. destruct (negb (truthy s)); [split; exact I|].
  set (clean := trim (collapseWs false s)).
  pose proof (trim_tight (collapseWs false s)) as Ht. fold clean in Ht.
  destruct (jslength clean >? max) eqn:E; [|exact Ht].
  unfold slice0. replace (max - 1 <? 0) with false by (symmetry; apply Z.ltb_ge; lia).
  split.
  - apply Z.gtb_lt in E. destruct clean as [|c r]; [unfold jslength in E; cbn in E; lia|].
    destruct (Z.to_nat (max - 1)); [reflexivity | apply Ht].
  - change ELLIPSIS with ([0x201A; 0xC4] ++ [0xB6]). rewrite app_assoc, last_snoc. reflexivity.
Qed.

Lemma snippet_normal (s : jsstring) (max : Z) :
  1 <= max -> wsNormal false (snippet s max) = true.
Proof.
  intros Hmax. destruct s as [|c r] eqn:Es; [reflexivity|].
  apply (snippet_spec (c :: r) max Hmax). discriminate.
Qed.

Lemma snippet_unfold (s : jsstring) (max : Z) :
  1 <= max -> s <> [] ->
  snippet s max =
  if jslength (trim (collapseWs false s)) >? max
  then firstn (Z.to_nat (max - 1)) (trim (collapseWs false s)) ++ ELLIPSIS
  else trim (collapseWs false s).
Proof.
  intros Hmax Hs. unfold snippet, slice0. destruct s; [congruence|]. cbn [truthy negb].
  replace (max - 1 <? 0) with false by (symmetry; apply Z.ltb_ge; lia). reflexivity.
Qed.

Lemma snippet_of_clean (r : jsstring) (max : Z) :
  1 <= max -> tight r -> wsNormal false r = true ->
  snippet r max =
  if jslength r >? max then firstn (Z.to_nat (max - 1)) r ++ ELLIPSIS else r.
Proof.
  intros Hmax Ht Hn. destruct r as [|c r'] eqn:Er.
  - unfold jslength. cbn [snippet truthy negb length].
    destruct (Z.of_nat 0 >? max) eqn:E; [apply Z.gtb_lt in E; lia | reflexivity].
  - rewrite snippet_unfold by (assumption || discriminate).
    rewrite clean_fixed by assumption. reflexivity.
Qed.

Lemma snippet_nil_iff (s : jsstring) (max : Z) :
  0 <= max -> snippet s max = [] <-> blank s.
Proof.
  intros Hmax. unfold snippet. destruct s as [|c r] eqn:Es; [split; [constructor | reflexivity]|].
  cbn [truthy negb]. rewrite <- Es. clear Es.
  set (clean := trim (collapseWs false s)).
  assert (Hink : inked clean = inked s)
    by (unfold clean; now rewrite trim_inked, collapseWs_inked).
  assert (Hclean : clean = [] <-> blank s).
  { rewrite <- inked_nil_blank, <- Hink. split; [now intros -> |].
    intros H. apply inked_nil_blank in H. apply tight_blank_nil; [apply trim_tight | exact H]. }
  destruct (jslength clean >? max) eqn:E; [|exact Hclean].
  split; [intros H; destruct (slice0 clean (max - 1)); discriminate|].
  intros Hb. apply Hclean in Hb. rewrite Hb in E. apply Z.gtb_lt in E.
  unfold jslength in E. cbn in E. lia.
Qed.

Lemma firstLine_fixed (s : jsstring) : forall b,
  wsNormal b s = true -> firstLine s = s.
Proof.
  induction s as [|c r IH]; intros b; [reflexivity|]. cbn [wsNormal firstLine].
  destruct (c =? 10) eqn:E10.
  { apply Z.eqb_eq in E10. subst c. cbn. discriminate. }
  destruct (c =? 13) eqn:E13.
  { apply Z.eqb_eq in E13. subst c. cbn. discriminate. }
  cbn [andb]. destruct (isWhiteSpace c).
  - intros H. apply andb_true_iff in H as [_ H]. now rewrite (IH _ H).
  - intros H. now rewrite (IH _ H).
Qed.

Lemma blank_rev (p : jsstring) : blank p -> blank (rev p).
Proof.
  unfold blank. intros H. apply List.Forall_forall. intros c Hc.
  apply in_rev in Hc. revert c Hc. now apply List.Forall_forall.
Qed.


(** *** The snippet as the words of the text *)

Lemma wordsFrom_collapse (s : jsstring) : forall b cur,
  (b = true -> cur = []) -> wordsFrom cur (collapseWs b s) = wordsFrom cur s.
Proof.
  induction s as [|c r IH]; intros b cur Hb; [reflexivity|].
  cbn [collapseWs wordsFrom]. destruct (isWhiteSpace c) eqn:E.
  - destruct b.
    + rewrite (Hb eq_refl). cbn [truthy]. now apply IH.
    + cbn [wordsFrom]. replace (isWhiteSpace 32) with true by reflexivity.
      now rewrite (IH true []) by reflexivity.
  - cbn [wordsFrom]. rewrite E. apply IH. discriminate.
Qed.

Lemma wordsFrom_blank (q : jsstring) :
  blank q -> forall cur, wordsFrom cur q = if truthy cur then [cur] else [].
Proof.
  induction 1 as [|c r Hc _ IH]; intros cur; [reflexivity|].
  cbn [wordsFrom]. rewrite Hc, (IH []). reflexivity.
Qed.

Lemma wordsFrom_app_blank (q : jsstring) :
  blank q -> forall t cur, wordsFrom cur (t ++ q) = wordsFrom cur t.
Proof.
  intros Hq. induction t as [|c r IH]; intros cur.
  - cbn [app]. now rewrite wordsFrom_blank.
  - cbn [app wordsFrom]. now rewrite !IH.
Qed.

Lemma wordsFrom_blank_app (p t : jsstring) :
  blank p -> wordsFrom [] (p ++ t) = wordsFrom [] t.
Proof.
  induction 1 as [|c r Hc _ IH]; [reflexivity|]. cbn [app wordsFrom]. now rewrite Hc.
Qed.

Lemma trimStart_split (s : jsstring) : exists p, blank p /\ s = p ++ trimStart s.
Proof.
  induction s as [|c r (p & Hp & IH)]; [exists []; split; [constructor | reflexivity]|].
  cbn [trimStart]. destruct (isWhiteSpace c) eqn:E.
  - exists (c :: p). split; [now constructor|]. cbn. now rewrite <- IH.
  - exists []. split; [constructor | reflexivity].
Qed.

Lemma trimEnd_split (s : jsstring) : exists q, blank q /\ s = trimEnd s ++ q.
Proof.
  unfold trimEnd. destruct (trimStart_split (rev s)) as (p & Hp & Hs).
  exists (rev p). split; [now apply blank_rev|].
  rewrite <- rev_app_distr, <- Hs. symmetry. apply rev_involutive.
Qed.

Lemma words_trim (s : jsstring) : words (trim s) = words s.
Proof.
  unfold words, trim.
  destruct (trimStart_split s) as (p & Hp & Hs).
  destruct (trimEnd_split (trimStart s)) as (q & Hq & Ht).
  rewrite Hs at 2. rewrite (wordsFrom_blank_app p _ Hp).
  rewrite Ht at 2. now rewrite (wordsFrom_app_blank q Hq).
Qed.

Lemma flat_words (t : jsstring) : forall cur,
  wsNormal false t = true ->
  match last t with Some c => isWhiteSpace c = false | None => True end ->
  (cur = [] -> match t with [] => True | c :: _ => isWhiteSpace c = false end) ->
  flat_map (fun w => 32 :: w) (wordsFrom cur t)
  = match cur ++ t with [] => [] | x => 32 :: x end.
Proof.
  induction t as [|c r IH]; intros cur Hn Hl Hh.
  - cbn [wordsFrom]. rewrite app_nil_r. destruct cur; cbn; now rewrite ?app_nil_r.
  - cbn [wordsFrom]. cbn [wsNormal] in Hn. destruct (isWhiteSpace c) eqn:E.
    + apply andb_true_iff in Hn as [Hn Hr]. apply andb_true_iff in Hn as [Hc _].
      apply Z.eqb_eq in Hc. subst c.
      destruct cur as [|x cur]; [specialize (Hh eq_refl); cbn in Hh; congruence|].
      cbn [truthy flat_map].
      destruct r as [|d r']; [cbn in Hl; congruence|].
      assert (Hd : isWhiteSpace d = false).
      { cbn [wsNormal] in Hr. destruct (isWhiteSpace d); [|reflexivity].
        rewrite andb_false_r in Hr. discriminate. }
      rewrite (IH []); [| now apply (wsNormal_weaken _ true) | exact Hl | intros _; exact Hd].
      reflexivity.
    + rewrite IH.
      * rewrite <- app_assoc. cbn [app]. destruct cur; reflexivity.
      * exact Hn.
      * destruct r as [|d r']; [exact I | exact Hl].
      * intros Hcur. destruct cur; discriminate.
Qed.

(** A tight text with normalised white space is its words joined by single
    spaces. *)
Lemma normalized_fixed (t : jsstring) :
  tight t -> wsNormal false t = true -> normalized t = t.
Proof.
  intros [Hh Hl] Hn. unfold normalized, unwords, words.
  rewrite flat_words; [| exact Hn | exact Hl | intros _; exact Hh].
  cbn [app]. destruct t; reflexivity.
Qed.

(** What [snippet] cleans a text to is the words of the text, joined by
    single spaces. *)
Lemma clean_normalized (s : jsstring) : trim (collapseWs false s) = normalized s.
Proof.
  rewrite <- (normalized_fixed (trim (collapseWs false s))).
  - unfold normalized. rewrite words_trim. unfold words.
    now rewrite wordsFrom_collapse by discriminate.
  - apply trim_tight.
  - eapply trim_normal. apply collapseWs_normal.
Qed.

Lemma snippet_words (s : jsstring) (max : Z) :
  1 <= max -> s <> [] ->
  snippet s max =
  if jslength (normalized s) <=? max then normalized s
  else firstn (Z.to_nat (max - 1)) (normalized s) ++ ELLIPSIS.
Proof.
  intros Hmax Hs. rewrite snippet_unfold, clean_normalized by assumption.
  rewrite Z.gtb_ltb. destruct (Z.leb_spec (jslength (normalized s)) max);
    [ replace (max <? jslength (normalized s)) with false by (symmetry; apply Z.ltb_ge; lia)
    | replace (max <? jslength (normalized s)) with true by (symmetry; apply Z.ltb_lt; lia) ];
    reflexivity.
Qed.

(** C4, as the code has it.  A message of the owner in a private
    conversation that is not a reply, has a non-empty text or caption and
    holds no thumbs-up glyph anywhere in it is written, once the store
    accepts the write, under [task:<conversation id>:<message id>] as a task
    with [done = false], no [doneAt], [createdAt] the send time in
    milliseconds and [text] the snippet of the message text: the words of the
    text joined by single spaces, whole when that is at most 400 units long
    and otherwise its first 399 units followed by the mark. *)
Theorem create_task_written (P : Platform) (cfg : Config) (u : Update)
    (m : Message) (chat : Chat) (w : World) :
  message_reaction u = None -> messageReaction u = None ->
  message u = Some m ->
  m_chat m = Some chat -> c_type chat = lit "private" ->
  StringOf (m_from m) = adminString cfg ->
  m_reply_to_message m = None ->
  messageText m <> [] ->
  ~ In 0x1F44D (toCodePoints (messageText m)) ->
  kv_error P (tick w) = None ->
  let clean := normalized (messageText m) in
  let task :=
    {| task_id := numToString (c_id chat) ++ lit ":" ++ numToString (m_message_id m);
       chat_id := c_id chat;
       message_id := m_message_id m;
       createdAt := (match m_date m with Some d => d | None => 0 end) * 1000;
       text := if jslength clean <=? 400 then clean else firstn 399 clean ++ ELLIPSIS;
       done := false;
       doneAt := None |} in
  applyUpdate P cfg u w =
    (Ok tt,
     {| ledger := <[lit "task:" ++ numToString (c_id chat) ++ lit ":"
                      ++ numToString (m_message_id m) := SJson task]> (ledger w);
        tick := S (tick w); outbox := outbox w |}).
Proof.
  intros Hmr1 Hmr2 Hm Hchat Hpriv Hfrom Hreply Htext Hthumb Hkv clean task.
  assert (Htest : THUMBS_UP_RE_test (messageText m) = false).
  { destruct (THUMBS_UP_RE_test (messageText m)) eqn:E; [|reflexivity].
    exfalso. apply Hthumb. now apply THUMBS_UP_RE_test_In. }
  unfold applyUpdate. rewrite Hmr1, Hmr2, Hm, Hchat. cbn [orObj].
  unfold isPrivate. rewrite Hpriv, Hfrom, !bool_decide_eq_true_2 by reflexivity.
  cbn [negb]. rewrite Hreply, Htest.
  destruct (messageText m) as [|c r] eqn:Et; [congruence|].
  cbn [truthy andb negb]. rewrite createTask_run, Hkv.
  unfold taskKey. do 4 f_equal.
  unfold newTask, task, clean. rewrite Et.
  rewrite (snippet_words (c :: r) 400) by (lia || discriminate).
  f_equal.
  destruct (m_date m) as [d|]; cbn [orNum]; [|reflexivity].
  destruct (d =? 0) eqn:Ed; [|reflexivity]. apply Z.eqb_eq in Ed. now subst.
Qed.

(** "  Buy \n milk ", message 7 of chat 42, on an empty ledger: the task
    text is "Buy milk". *)
Lemma create_task_written_witness :
  applyUpdate P0 cfg0 uSpaced w0 =
    (Ok tt,
     {| ledger := {[ lit "task:42:7" :=
                       SJson {| task_id := lit "42:7"; chat_id := 42; message_id := 7;
                                createdAt := 1700000000000; text := lit "Buy milk";
                                done := false; doneAt := None |} ]};
        tick := 1; outbox := [] |}).
Proof.
  pose proof (create_task_written P0 cfg0 uSpaced
                (mkMessage 7 ([32; 32] ++ lit "Buy" ++ [32; 10; 32] ++ lit "milk" ++ [32]) None)
                chat0 w0 eq_refl eq_refl eq_refl eq_refl eq_refl) as H.
  apply H.
  - vm_compute. reflexivity.
  - reflexivity.
  - vm_compute. discriminate.
  - vm_compute. intros Hin. repeat (destruct Hin as [Hin | Hin]; [discriminate Hin|]). exact Hin.
  - reflexivity.
Defined.

(** C4, as stated, fails: "Buy milk" followed by a thumbs-up glyph is a
    non-empty text that is not a thumbs-up, yet no task is written for it. *)
Lemma create_thumb_sentence_not_written :
  ~ (forall (P : Platform) (cfg : Config) (u : Update) (m : Message) (chat : Chat)
            (w : World),
       message_reaction u = None -> messageReaction u = None ->
       message u = Some m ->
       m_chat m = Some chat -> c_type chat = lit "private" ->
       StringOf (m_from m) = adminString cfg ->
       m_reply_to_message m = None ->
       messageText m <> [] ->
       ~ thumbsUp (messageText m) ->
       kv_error P (tick w) = None ->
       exists task,
         ledger (snd (applyUpdate P cfg u w)) !! taskKey (c_id chat) (m_message_id m)
         = Some (SJson task)).
Proof.
  intros H.
  destruct (H P0 cfg0 uMixed (mkMessage 9 (lit "Buy milk " ++ THUMB) None) chat0 w0
              eq_refl eq_refl eq_refl eq_refl eq_refl) as [task Htask].
  - vm_compute. reflexivity.
  - reflexivity.
  - vm_compute. discriminate.
  - intros [Ht | (tone & Htone & Ht)]; apply (f_equal (@length Z)) in Ht.
    + vm_compute in Ht. discriminate Ht.
    + rewrite length_app in Ht. unfold fromCodePoint in Ht at 2.
      destruct (tone <? 65536); vm_compute in Ht; discriminate Ht.
  - reflexivity.
  - assert (Hempty : ledger (snd (applyUpdate P0 cfg0 uMixed w0)) = ∅)
      by (vm_compute; reflexivity).
    rewrite Hempty, lookup_empty in Htask. discriminate Htask.
Qed.

(** ** The report *)

Lemma readTasks_run (P : Platform) (keys : list jsstring) : forall acc w,
  readTasks P keys acc w =
  (Ok (acc ++ listed P (ledger w) (tick w) keys),
   {| ledger := ledger w; tick := (tick w + length keys)%nat; outbox := outbox w |}).
Proof.
  induction keys as [|k rest IH]; intros acc w.
  - cbn. rewrite app_nil_r, Nat.add_0_r. destruct w; reflexivity.
  - cbn [readTasks listed]. unfold mbind at 1, M_bind at 1.
    assert (Hstep :
      tryCatch
        (v ← kv_get P k;
         if negb (valTruthy v) then mret acc
         else
           obj ← JSON_parse v;
           isDone ← getDone obj;
           mret (if negb isDone then acc ++ [obj] else acc))
        (fun _ => mret acc) w
      = (Ok (acc ++ match readable P (ledger w) (tick w) k with
                    | Some v => if isOpen v then [v] else []
                    | None => []
                    end), bump w)).
    { unfold readable, kv_get, JSON_parse, getDone. unfoldM.
      destruct (kv_error P (tick w)); [now rewrite app_nil_r|].
      destruct (ledger w !! k) as [[v|s]|]; cbn.
      - destruct v as [| json | json | o]; cbn; rewrite ?app_nil_r; try reflexivity.
        destruct (o_done o) as [[|]|]; cbn; now rewrite ?app_nil_r.
      - destruct (truthy s); now rewrite app_nil_r.
      - now rewrite app_nil_r. }
    rewrite Hstep, IH. cbn [bump ledger tick outbox length].
    rewrite <- app_assoc. f_equal. f_equal. lia.
Qed.

Lemma listed_In (P : Platform) (ldg : gmap jsstring Stored) (keys : list jsstring) :
  forall n t,
    In t (listed P ldg n keys) <->
    exists i k, keys !! i = Some k /\ readable P ldg (n + i) k = Some t /\ isOpen t = true.
Proof.
  induction keys as [|k rest IH]; intros n t; cbn [listed].
  - split; [intros [] | intros (i & k & H & _); destruct i; discriminate].
  - rewrite in_app_iff, IH. split.
    + intros [H | (i & k' & Hk & Hr & Hd)].
      * exists 0%nat, k. rewrite Nat.add_0_r.
        destruct (readable P ldg n k) as [t0|]; [|destruct H].
        destruct (isOpen t0) eqn:Ed; [|destruct H].
        destruct H as [<- | []]. auto.
      * exists (S i), k'. rewrite Nat.add_succ_r. auto.
    + intros (i & k' & Hk & Hr & Hd). destruct i as [|i].
      * left. injection Hk as <-. rewrite Nat.add_0_r in Hr. rewrite Hr, Hd. now left.
      * right. exists i, k'. rewrite Nat.add_succ_r in Hr. auto.
Qed.



Lemma insertTask_perm (t : Value) (l : list Value) : Permutation (insertTask t l) (t :: l).
Proof.
  induction l as [|y r IH]; cbn [insertTask]; [reflexivity|].
  destruct (compareCreatedAt t y <=? 0); [reflexivity|].
  rewrite IH. apply perm_swap.
Qed.

Lemma insertion_perm (l : list Value) : Permutation (foldr insertTask [] l) l.
Proof.
  induction l as [|t l IH]; [reflexivity|].
  cbn. rewrite insertTask_perm. now constructor.
Qed.

Lemma sortTasks_perm (P : Platform) (l : list Value) : Permutation (sortTasks P l) l.
Proof.
  unfold sortTasks. destruct (consistent l); [apply insertion_perm|].
  destruct (nth_in_or_default (sort_choice P (map getCreatedAt l)) (permutations l) l)
    as [Hin | ->]; [|reflexivity].
  apply list_elem_of_In in Hin. apply permutations_Permutation in Hin. now symmetry.
Qed.








Lemma scanLoop_ledger (P : Platform) (fuel : nat) :
  forall cursor match_ keys w r w1,
    scanLoop P fuel cursor match_ keys w = (r, w1) ->
    ledger w1 = ledger w /\ outbox w1 = outbox w.
Proof.
  induction fuel as [|fuel IH]; intros cursor match_ keys w r w1; cbn [scanLoop].
  - intros [= <- <-]. auto.
  - unfold kv_scan. unfoldM.
    destruct (kv_error P (tick w)); [intros [= <- <-]; auto|].
    assert (Hgo : forall out,
      match
        (if negb (bool_decide ((if truthy out.1 then out.1 else lit "0") = lit "0"))
            && (jslength (keys ++ out.2) <? 5000)
         then scanLoop P fuel (if truthy out.1 then out.1 else lit "0") match_ (keys ++ out.2)
         else fun w0 => (Ok (keys ++ out.2), w0)) (bump w)
      with
      | (Throw _, w') => (Ok keys, w')
      | r0 => r0
      end = (r, w1) -> ledger w1 = ledger w /\ outbox w1 = outbox w).
    { intros out. destruct (negb _ && _).
      - destruct (scanLoop P fuel _ match_ (keys ++ out.2) (bump w)) as [r0 w0] eqn:E.
        apply IH in E. cbn in E.
        destruct r0; intros [= <- <-]; exact E.
      - intros [= <- <-]. auto. }
    destruct (scan_reply P (tick w) cursor match_) as [[next ks]|]; apply Hgo.
Qed.

(** One round of the scan that the store answers. *)
Lemma scanLoop_step (P : Platform) (fuel : nat) (cursor match_ : jsstring)
    (keys : list jsstring) (w : World) :
  kv_error P (tick w) = None ->
  scanLoop P (S fuel) cursor match_ keys w =
  let pg := scanPage P (tick w) cursor match_ in
  if negb (bool_decide (fst pg = lit "0")) && (jslength (keys ++ snd pg) <? 5000)
  then match scanLoop P fuel (fst pg) match_ (keys ++ snd pg) (bump w) with
       | (Throw _, w') => (Ok keys, w')
       | r => r
       end
  else (Ok (keys ++ snd pg), bump w).
Proof.
  intros Hup. cbn [scanLoop]. unfold kv_scan, scanPage. unfoldM. rewrite Hup.
  destruct (scan_reply P (tick w) cursor match_) as [[next ks]|]; cbn [fst snd].
  - destruct next as [|c next]; cbn [truthy fst snd].
    + reflexivity.
    + destruct (negb _ && _); reflexivity.
  - reflexivity.
Qed.

Lemma scanLoop_fails (P : Platform) (fuel : nat) (cursor match_ : jsstring)
    (keys : list jsstring) (w : World) (e : exn) :
  kv_error P (tick w) = Some e ->
  scanLoop P (S fuel) cursor match_ keys w = (Ok keys, bump w).
Proof. intros Hdown. cbn [scanLoop]. unfold kv_scan. unfoldM. now rewrite Hdown. Qed.

(** The scan never raises. *)
Lemma scanLoop_noThrow (P : Platform) (fuel : nat) :
  forall cursor match_ keys w e w', scanLoop P fuel cursor match_ keys w <> (Throw e, w').
Proof.
  induction fuel as [|fuel IH]; intros cursor match_ keys w e w'; [discriminate|].
  destruct (kv_error P (tick w)) as [e0|] eqn:Hup.
  - rewrite (scanLoop_fails P fuel cursor match_ keys w e0 Hup). discriminate.
  - rewrite scanLoop_step by exact Hup. cbv zeta.
    destruct (negb _ && _); [|discriminate].
    destruct (scanLoop P fuel _ match_ _ (bump w)) as [[ks | e1 |] w1] eqn:E; discriminate.
Qed.


(** The loop body never raises: what it does is a step of the world. *)
Lemma applyUpdate_total (P : Platform) (cfg : Config) (u : Update) (w : World) :
  applyUpdate P cfg u w = (Ok tt, stepWorld P cfg w u).
Proof.
  unfold stepWorld. rewrite applyUpdate_perform.
  destruct (classify cfg u); cbn [perform];
    rewrite ?closeTask_value, ?createTask_run; reflexivity.
Qed.

Lemma forEach_applyUpdate (P : Platform) (cfg : Config) (us : list Update) :
  forall w, forEach (applyUpdate P cfg) us w = (Ok tt, fold_left (stepWorld P cfg) us w).
Proof.
  induction us as [|u us IH]; intros w; [reflexivity|].
  cbn [forEach fold_left]. unfold mbind, M_bind.
  rewrite applyUpdate_total. apply IH.
Qed.

Lemma stepWorld_ledger (P : Platform) (cfg : Config) (w : World) (u : Update) :
  ledger (stepWorld P cfg w u) =
  match classify cfg u with
  | ReactionClose key | ReplyClose key =>
      match kv_error P (tick w), ledger w !! key, kv_error P (S (tick w)) with
      | None, Some (SParsed v), None =>
          if settable v
          then <[key := SParsed (closed v (clock P (S (tick w))))]> (ledger w)
          else ledger w
      | _, _, _ => ledger w
      end
  | CreateTask key task =>
      match kv_error P (tick w) with
      | None => <[key := SJson task]> (ledger w)
      | Some _ => ledger w
      end
  | Ignore => ledger w
  end.
Proof.
  unfold stepWorld. rewrite applyUpdate_perform.
  destruct (classify cfg u); cbn [perform];
    rewrite ?closeTask_value, ?createTask_run; cbn [snd];
    try reflexivity;
    destruct (kv_error P (tick w)); try reflexivity;
    destruct (ledger w !! key) as [[v|s]|]; try reflexivity;
    destruct (settable v); try reflexivity;
    destruct (kv_error P (S (tick w))); reflexivity.
Qed.











(** ** The update drainer *)

Lemma last_nonempty {A} (l : list A) (x : A) : last l = Some x -> l <> [].
Proof. destruct l; [discriminate | congruence]. Qed.

Lemma last_app_nonempty {A} (l1 l2 : list A) :
  l2 <> [] -> last (l1 ++ l2) = last l2.
Proof.
  intros H. induction l1 as [|a l1 IH]; [reflexivity|].
  cbn [app]. destruct (l1 ++ l2) eqn:E.
  - apply app_eq_nil in E. tauto.
  - rewrite <- E in *. cbn. rewrite E in *. exact IH.
Qed.

Lemma drains_cursor (P : Platform) t off bs t' off' :
  drains P t off bs t' off' ->
  match bs with
  | [] => off' = off /\ t' = t
  | _ :: _ =>
      exists lastUpdate,
        last (concat bs) = Some lastUpdate
        /\ off' = Some (update_id lastUpdate + 1)
  end.
Proof.
  induction 1 as [|t off batch json lu bs t' off' Hf Hl Hd IH]; [auto|].
  destruct bs as [|b bs'].
  - destruct IH as [-> _]. exists lu. cbn. rewrite app_nil_r. auto.
  - destruct IH as (lu' & Hlast & ->). exists lu'. split; [|reflexivity].
    cbn [concat] in *. rewrite last_app_nonempty; [exact Hlast|].
    eapply last_nonempty; exact Hlast.
Qed.

Lemma sorted_last_max (l : list Z) (x : Z) :
  StronglySorted Z.lt l -> last l = Some x -> Forall (fun y => y <= x) l.
Proof.
  induction 1 as [|a l Hs IH Ha]; intros Hl; [constructor|].
  destruct l as [|b l'].
  - injection Hl as ->. constructor; [lia | constructor].
  - change (last (a :: b :: l')) with (last (b :: l')) in Hl.
    specialize (IH Hl). constructor; [|exact IH].
    assert (In x (b :: l')) as Hin.
    { clear -Hl. revert Hl. generalize (b :: l'). intros l.
      induction l as [|c l IH]; [discriminate|].
      destruct l as [|d l'']; [intros [= ->]; now left|].
      intros H. right. apply IH. exact H. }
    rewrite List.Forall_forall in Ha. specialize (Ha x Hin). lia.
Qed.

Lemma last_map {A B} (f : A -> B) (l : list A) : last (map f l) = f <$> last l.
Proof.
  induction l as [|a l IH]; [reflexivity|].
  destruct l as [|b l']; [reflexivity|]. exact IH.
Qed.

Lemma fetchLoop_spec (P : Platform) (fuel : nat) :
  forall offset all w,
    jslength all <= 2000 ->
    (2001 <= fuel + length all)%nat ->
    exists bs t' off',
      drains P (tick w) offset bs t' off'
      /\ jslength (all ++ concat (removelast bs)) <= 2000
      /\ ((2000 < jslength (all ++ concat bs)
           /\ fetchLoop P fuel offset all w
              = (Ok {| updates := all ++ concat bs; nextOffset := off' |}, atTick w t'))
          \/ (jslength (all ++ concat bs) <= 2000
              /\ exists json,
                   feed P t' off' = FeedReply true [] json
                   /\ fetchLoop P fuel offset all w
                      = (Ok {| updates := all ++ concat bs; nextOffset := off' |},
                         atTick w (S t')))
          \/ (jslength (all ++ concat bs) <= 2000
              /\ exists e,
                   (feed P t' off' = FeedReject e
                    \/ exists result json,
                         feed P t' off' = FeedReply false result json
                         /\ e = Error (lit "Error") (lit "getUpdates error: " ++ json))
                   /\ fetchLoop P fuel offset all w = (Throw e, atTick w (S t')))).
Proof.
  induction fuel as [|fuel IH]; intros offset all w Hall Hfuel.
  { unfold jslength in Hall. lia. }
  cbn [fetchLoop]. unfold getUpdates. unfoldM.
  destruct (feed P (tick w) offset) as [e | ok result json] eqn:Hfeed.
  { exists [], (tick w), offset. split; [constructor|]. cbn [removelast concat].
    rewrite app_nil_r. split; [exact Hall|]. right. right. split; [exact Hall|].
    exists e. split; [now left | reflexivity]. }
  destruct ok; cbn [negb].
  2:{ exists [], (tick w), offset. split; [constructor|]. cbn [removelast concat].
      rewrite app_nil_r. split; [exact Hall|]. right. right. split; [exact Hall|].
      eexists. split; [right; eauto | reflexivity]. }
  destruct (last result) as [lu|] eqn:Hlast.
  2:{ apply last_None in Hlast. subst result.
      exists [], (tick w), offset. split; [constructor|]. cbn [removelast concat].
      rewrite app_nil_r. split; [exact Hall|]. right. left. split; [exact Hall|].
      exists json. split; [exact Hfeed | reflexivity]. }
  destruct (jslength (all ++ result) >? 2000) eqn:Hcap.
  - exists [result], (S (tick w)), (Some (update_id lu + 1)).
    split; [econstructor; eauto; constructor|]. cbn [removelast concat].
    rewrite !app_nil_r. split; [exact Hall|]. left. split; [lia | reflexivity].
  - assert (Hne : result <> []) by (eapply last_nonempty; exact Hlast).
    destruct (IH (Some (update_id lu + 1)) (all ++ result) (bump w)) as (bs & t' & off' & Hd & Hpre & Hout).
    { lia. }
    { rewrite length_app. destruct result; [congruence|]. cbn [length]. lia. }
    exists (result :: bs), t', off'.
    split; [econstructor; eauto|].
    split.
    { destruct bs as [|b bs']; [cbn; rewrite app_nil_r; exact Hall|].
      change (removelast (result :: b :: bs')) with (result :: removelast (b :: bs')).
      cbn [concat]. rewrite app_assoc. exact Hpre. }
    cbn [concat]. rewrite app_assoc.
    change (atTick (bump w)) with (atTick w) in Hout. exact Hout.
Qed.

(** C8. The drainer always comes to an end.  It returns the batches it
    fetched, joined in feed order, and the cursor that follows the last
    update, which for strictly increasing sequence numbers is the greatest
    one seen plus one (the starting cursor when nothing was fetched).  It
    goes on while at most 2000 updates are drained and stops exactly at an
    empty batch or once more than 2000 are drained; the one other way out is
    a failing call or a reply that is not ok, which raises. *)
Theorem fetchAllUpdates_drains (P : Platform) (startOffset : option Z) (w : World) :
  exists bs t' off',
    drains P (tick w) startOffset bs t' off'
    /\ jslength (concat (removelast bs)) <= 2000
    /\ ((2000 < jslength (concat bs)
         /\ fetchAllUpdates P startOffset w
            = (Ok {| updates := concat bs; nextOffset := off' |}, atTick w t'))
        \/ (jslength (concat bs) <= 2000
            /\ exists json,
                 feed P t' off' = FeedReply true [] json
                 /\ fetchAllUpdates P startOffset w
                    = (Ok {| updates := concat bs; nextOffset := off' |}, atTick w (S t')))
        \/ (jslength (concat bs) <= 2000
            /\ exists e,
                 (feed P t' off' = FeedReject e
                  \/ exists result json,
                       feed P t' off' = FeedReply false result json
                       /\ e = Error (lit "Error") (lit "getUpdates error: " ++ json))
                 /\ fetchAllUpdates P startOffset w = (Throw e, atTick w (S t'))))
    /\ match bs with
       | [] => off' = startOffset
       | _ :: _ =>
           exists lastUpdate,
             last (concat bs) = Some lastUpdate
             /\ off' = Some (update_id lastUpdate + 1)
             /\ (StronglySorted Z.lt (map update_id (concat bs)) ->
                 Forall (fun u => update_id u <= update_id lastUpdate) (concat bs))
       end.
Proof.
  destruct (fetchLoop_spec P 2001 startOffset [] w) as (bs & t' & off' & Hd & Hpre & Hout).
  { unfold jslength. cbn. lia. }
  { cbn. lia. }
  exists bs, t', off'. cbn [app] in *. unfold fetchAllUpdates.
  split; [exact Hd|]. split; [exact Hpre|]. split; [exact Hout|].
  pose proof (drains_cursor _ _ _ _ _ _ Hd) as Hc.
  destruct bs as [|b bs']; [tauto|].
  destruct Hc as (lu & Hlast & ->). exists lu. split; [exact Hlast|]. split; [reflexivity|].
  intros Hs.
  pose proof (sorted_last_max _ (update_id lu) Hs) as Hmax.
  rewrite last_map, Hlast in Hmax. specialize (Hmax eq_refl).
  apply List.Forall_forall. intros u Hu.
  rewrite List.Forall_forall in Hmax. apply Hmax. now apply in_map.
Qed.

(** ** The HTTP entry point *)

Lemma forEach_send_ok (P : Platform) (to : jsstring) (f : jsstring -> jsstring)
    (chunks : list jsstring) :
  (forall n, send_error P n = None) ->
  forall w, exists w',
    forEach (fun chunk => sendMessage P to (f chunk)) chunks w = (Ok tt, w')
    /\ ledger w' = ledger w.
Proof.
  intros Hup. induction chunks as [|c chunks IH]; intros w; [exists w; auto|].
  cbn [forEach]. unfold mbind, M_bind, sendMessage. rewrite Hup.
  destruct (IH {| ledger := ledger w; tick := S (tick w);
                 outbox := outbox w ++ [(to, f c)] |}) as (w' & Hrun & Hl).
  exists w'. auto.
Qed.

Lemma handlerBody_ok (P : Platform) (cfg : Config) (fuel : nat) (req : Request)
    (w w1 w3 : World) (drained : Drained) (lines : list jsstring) (header : jsstring) :
  unauthorized cfg req = false ->
  envTruthy (TG_TOKEN cfg) = true ->
  envTruthy (ADMIN_CHAT_ID cfg) = true ->
  fetchAllUpdates P None w = (Ok drained, w1) ->
  reportLines P cfg fuel (updates drained)
      (clock P (tick (applied P cfg (updates drained) w1)))
      (applied P cfg (updates drained) w1)
    = (Ok (lines, header), w3) ->
  (forall n, send_error P n = None) ->
  exists w4,
    handlerBody P cfg fuel req w
    = (Ok {| status := 200;
             body := BodySummary true (jslength (updates drained)) (jslength lines) |}, w4)
    /\ ledger w4 = ledger w3.
Proof.
  intros Hauth Htg Hadmin Hfetch Hreport Hsend.
  unfold handlerBody. rewrite Hauth, Htg, Hadmin. cbn [negb orb].
  unfold mbind at 1, M_bind at 1. rewrite Hfetch.
  unfold mbind at 1, M_bind at 1.
  assert (Happly :
    (if haveKV cfg then forEach (applyUpdate P cfg) (updates drained) else mret tt) w1
    = (Ok tt, applied P cfg (updates drained) w1)).
  { unfold applied. destruct (haveKV cfg); [apply forEach_applyUpdate | reflexivity]. }
  rewrite Happly.
  unfold mbind at 1, M_bind at 1, Date_now.
  unfold mbind at 1, M_bind at 1. rewrite Hreport.
  match goal with
  | |- context [forEach ?f ?chunks] =>
      destruct (forEach_send_ok P (ADMIN cfg) (fun chunk => [RLE] ++ chunk ++ [PDF])
                  chunks Hsend w3) as (w4 & Hrun & Hl)
  end.
  exists w4. unfold mbind, M_bind. rewrite Hrun. split; [reflexivity | exact Hl].
Qed.

(** C9, as the code has it.  A configured secret that the [key] of the
    request does not match gives 401.  Past that check, a missing bot token
    or admin chat gives 500 with an error text.  Past both, a run in which
    the feed is drained, the report is built and every message is sent gives
    200 with [ok = true], [checked] the number of updates drained and
    [reported] the number of lines of the report: the open tasks listed when
    the store is configured, the recent messages without emoji when it is
    not. *)
Theorem handler_responses :
  (forall (P : Platform) (cfg : Config) (fuel : nat) (req : Request) (w : World),
     unauthorized cfg req = true ->
     handler P cfg fuel req w
     = (Ok {| status := 401; body := BodyError (lit "Unauthorized") |}, w))
  /\ (forall (P : Platform) (cfg : Config) (fuel : nat) (req : Request) (w : World),
        unauthorized cfg req = false ->
        envTruthy (TG_TOKEN cfg) = false \/ envTruthy (ADMIN_CHAT_ID cfg) = false ->
        handler P cfg fuel req w
        = (Ok {| status := 500;
                 body := BodyError (lit "Missing env vars: TELEGRAM_BOT_TOKEN, ADMIN_CHAT_ID") |},
           w))
  /\ (forall (P : Platform) (cfg : Config) (fuel : nat) (req : Request)
             (w w1 w3 : World) (drained : Drained) (lines : list jsstring)
             (header : jsstring),
        unauthorized cfg req = false ->
        envTruthy (TG_TOKEN cfg) = true ->
        envTruthy (ADMIN_CHAT_ID cfg) = true ->
        fetchAllUpdates P None w = (Ok drained, w1) ->
        reportLines P cfg fuel (updates drained)
            (clock P (tick (applied P cfg (updates drained) w1)))
            (applied P cfg (updates drained) w1)
          = (Ok (lines, header), w3) ->
        (forall n, send_error P n = None) ->
        (exists w4,
           handler P cfg fuel req w
           = (Ok {| status := 200;
                    body := BodySummary true (jslength (updates drained))
                              (jslength lines) |}, w4))
        /\ (haveKV cfg = true ->
            exists tasks,
              openTasks P cfg fuel (applied P cfg (updates drained) w1) = (Ok tasks, w3)
              /\ jslength lines = jslength tasks
              /\ forall t, In t tasks ->
                   isOpen t = true
                   /\ exists k, ledger w3 !! k = Some (SParsed t))
        /\ (haveKV cfg = false ->
            jslength lines
            = jslength (List.filter
                          (isCandidate (clock P (tick w1) - 24 * 60 * 60 * 1000))
                          (updates drained)))).
Proof.
  split; [|split].
  - intros P cfg fuel req w Hun. unfold handler, handlerBody, tryCatch.
    rewrite Hun. reflexivity.
  - intros P cfg fuel req w Hauth Hmiss. unfold handler, handlerBody, tryCatch.
    rewrite Hauth. destruct Hmiss as [-> | ->]; cbn [negb orb];
      rewrite ?orb_true_r; reflexivity.
  - intros P cfg fuel req w w1 w3 drained lines header Hauth Htg Hadmin Hfetch Hrep Hsend.
    split; [|split].
    + destruct (handlerBody_ok P cfg fuel req w w1 w3 drained lines header
                  Hauth Htg Hadmin Hfetch Hrep Hsend) as (w4 & Hrun & _).
      exists w4. unfold handler, tryCatch. rewrite Hrun. reflexivity.
    + intros Hkv. unfold reportLines in Hrep. rewrite Hkv in Hrep.
      unfold mbind, M_bind in Hrep.
      destruct (openTasks P cfg fuel (applied P cfg (updates drained) w1))
        as [[tasks | e |] w'] eqn:Hopen; try discriminate Hrep.
      unfold mret, M_ret in Hrep. injection Hrep as <- _ <-.
      exists tasks. split; [reflexivity|]. split.
      { unfold jslength. now rewrite length_map. }
      intros t Hin.
      unfold openTasks in Hopen. unfold mbind at 1, M_bind at 1 in Hopen.
      destruct (scanLoop P fuel _ _ [] _) as [[keys | e |] ws] eqn:Hscan;
        try discriminate Hopen.
      apply scanLoop_ledger in Hscan. destruct Hscan as [Hl _].
      unfold mbind, M_bind in Hopen. rewrite readTasks_run in Hopen.
      injection Hopen as <- <-. cbn [app ledger] in *.
      eapply Permutation_in in Hin; [|apply sortTasks_perm].
      apply listed_In in Hin. destruct Hin as (i & k & _ & Hr & Hd).
      split; [exact Hd|]. exists k. unfold readable in Hr.
      destruct (kv_error P _); [discriminate|].
      destruct (ledger ws !! k) as [[t0|s]|]; try discriminate. congruence.
    + intros Hkv. unfold reportLines in Hrep. rewrite Hkv in Hrep.
      unfold applied in Hrep. rewrite Hkv in Hrep.
      unfold mret, M_ret in Hrep. injection Hrep as <- _ _.
      unfold jslength. now rewrite length_map.
Qed.

(** C9, as stated, fails: without a store the ledger is empty and stays so,
    no task is listed, and the run still reports one item, the message it
    found in the feed. *)
Lemma handler_reported_not_open_tasks :
  ~ (forall P cfg fuel req w checked reported w',
       handler P cfg fuel req w
       = (Ok {| status := 200; body := BodySummary true checked reported |}, w') ->
       exists tasks,
         reported = jslength tasks
         /\ forall t, In t tasks ->
              exists k, ledger w' !! k = Some (SJson t) /\ done t = false).
Proof.
  intros H.
  destruct (H P1 cfgNoStore 0%nat req0 w0 1 1 (snd (handler P1 cfgNoStore 0 req0 w0)))
    as (tasks & Hlen & Hopen).
  { vm_compute. reflexivity. }
  destruct tasks as [|t tasks]; [discriminate Hlen|].
  destruct (Hopen t (or_introl eq_refl)) as (k & Hk & _).
  assert (Hempty : ledger (snd (handler P1 cfgNoStore 0 req0 w0)) = ∅)
    by (vm_compute; reflexivity).
  rewrite Hempty, lookup_empty in Hk. discriminate Hk.
Qed.

(** ** The scenarios of the specification, run on the model *)

Example chunkMessages_example :
  chunkMessages [lit "ab"; lit "cd"; lit "e"] 6 = [lit "ab" ++ [10] ++ lit "cd" ++ [10]; lit "e" ++ [10]].
Proof. reflexivity. Qed.

Example snippet_example :
  snippet ([32; 32] ++ lit "a" ++ [9; 10; 32] ++ lit "b" ++ [32]) 400 = lit "a b"
  /\ snippet (lit "abcdef") 3 = lit "ab" ++ ELLIPSIS.
Proof. split; reflexivity. Qed.

Example taskKey_example : taskKey 42 7 = lit "task:42:7".
Proof. vm_compute. reflexivity. Qed.

(** The feed of [P2] is drained in two calls: a batch of two updates, then
    an empty one; the cursor follows the last update, 102. *)
Example fetchAllUpdates_example :
  fetchAllUpdates P2 None w0
  = (Ok {| updates := [uCreate; uReact]; nextOffset := Some 103 |}, atTick w0 2).
Proof. vm_compute. reflexivity. Qed.

(** "Buy milk" is created, then closed by a reaction: the run answers 200,
    has checked two updates and reports no open task. *)
Example scenario_create_then_close :
  fst (handler P2 cfg0 5 req0 w0)
  = Ok {| status := 200; body := BodySummary true 2 0 |}
  /\ map snd (outbox (snd (handler P2 cfg0 5 req0 w0)))
     = [[RLE] ++ openHeader 0 ++ [10; PDF]].
Proof. vm_compute. split; reflexivity. Qed.

(** "Call Sam" and "Pay rent" left open: the report lists both, the older
    first, each with its age. *)
Example scenario_two_open_tasks :
  fst (reportLines P3 cfg0 5 [] 1700086400000 wBook)
  = Ok ([BULLET ++ lit " Call Sam <b>" ++ [LRM] ++ lit "[1d]</b>";
         BULLET ++ lit " Pay rent <b>" ++ [LRM] ++ lit "[0d]</b>"],
        openHeader 2).
Proof. vm_compute. reflexivity. Qed.

(** A stored [{}] is no task, and is listed all the same: it has no [done],
    so it counts as open, with an empty title and no age. *)
Example scenario_empty_object :
  fst (reportLines P2 cfg0 5 [] 1700086400000 wLoose)
  = Ok ([BULLET ++ lit "  <b>" ++ [LRM] ++ lit "[0d]</b>"], openHeader 1).
Proof. vm_compute. reflexivity. Qed.

(** The same task left open is listed, one day old a day later. *)
Example scenario_open_task :
  formatTaskLine (taskValue (newTask chat0 (mkMessage 7 (lit "Buy milk") None)))
    1700086400000
  = BULLET ++ lit " Buy milk <b>" ++ [LRM] ++ lit "[1d]</b>".
Proof. vm_compute. reflexivity. Qed.

(** ** The statements at work on the sample runs *)

(** Rule 5 from the other side: a message of the owner that is not a reply
    and trips the thumbs-up detector, be it a lone glyph or a sentence that
    holds one, is not journaled. *)
Lemma thumb_text_not_journaled (P : Platform) (cfg : Config) (u : Update)
    (m : Message) (w : World) :
  message_reaction u = None -> messageReaction u = None ->
  message u = Some m ->
  m_reply_to_message m = None ->
  THUMBS_UP_RE_test (messageText m) = true ->
  applyUpdate P cfg u w = (Ok tt, w).
Proof.
  intros Hmr1 Hmr2 Hm Hreply Hthumb.
  unfold applyUpdate. rewrite Hmr1, Hmr2, Hm. cbn [orObj].
  destruct (m_chat m) as [chat|]; [|reflexivity].
  destruct (negb (isPrivate chat)); [reflexivity|].
  destruct (negb (bool_decide _)); [reflexivity|].
  rewrite Hreply, Hthumb.
  destruct (truthy (messageText m)); reflexivity.
Qed.

(** Three short lines and a bound of six: two chunks, both within it. *)
Lemma chunkMessages_groups_witness :
  Forall (fun c => jslength c <= 6) (chunkMessages [lit "ab"; lit "cd"; lit "e"] 6).
Proof.
  destruct (chunkMessages_groups [lit "ab"; lit "cd"; lit "e"] 6)
    as (groups & _ & _ & _ & _ & _ & Hfit).
  apply Hfit. intros l [<- | [<- | [<- | []]]]; vm_compute; discriminate.
Defined.

(** Thumbs-down, alone or with a skin tone, is no close signal. *)
Lemma THUMBS_UP_RE_variants_witness :
  THUMBS_UP_RE_test (fromCodePoint 0x1F44E) = false
  /\ THUMBS_UP_RE_test (fromCodePoint 0x1F44E ++ fromCodePoint 0x1F3FD) = false
  /\ THUMBS_UP_RE_test (fromCodePoint 0x1F44D ++ fromCodePoint 0x1F3FD) = true.
Proof.
  destruct THUMBS_UP_RE_variants as (_ & _ & Htone & Hother & Hother2 & _).
  split; [|split].
  - apply Hother; lia.
  - apply Hother2; lia.
  - apply Htone. lia.
Defined.

(** A task created at 1,700,000,000,000 is one day old 86,400,000 ms later. *)
Lemma ageDays_floor_nonneg_witness :
  ageDays (Some 1700000000000) 1700086400000 = (1700086400000 - 1700000000000) / 86400000
  /\ ageDays (Some 1700086400000) 1700000000000 = 0.
Proof.
  split.
  - destruct (ageDays_floor_nonneg (Some 1700000000000) 1700086400000) as [_ [_ H]].
    apply H; lia.
  - destruct (ageDays_floor_nonneg (Some 1700086400000) 1700000000000) as [_ [H _]].
    apply H. right. lia.
Defined.


(** A wrong key is refused; past the check a missing token is an error; the
    run over the feed of [P2] answers 200 with two updates checked and no
    open task. *)
Lemma handler_responses_witness :
  handler P2 cfgSecret 5 req0 w0
    = (Ok {| status := 401; body := BodyError (lit "Unauthorized") |}, w0)
  /\ handler P2 cfgSecret 5 {| req_key := Some (lit "s3cret") |} w0
       = (Ok {| status := 500;
                body := BodyError (lit "Missing env vars: TELEGRAM_BOT_TOKEN, ADMIN_CHAT_ID") |},
          w0)
  /\ exists w4,
       handler P2 cfg0 5 req0 w0
       = (Ok {| status := 200; body := BodySummary true 2 0 |}, w4).
Proof.
  destruct handler_responses as (H401 & H500 & H200).
  split; [|split].
  - apply H401. vm_compute. reflexivity.
  - apply H500; [vm_compute; reflexivity | left; reflexivity].
  - destruct (H200 P2 cfg0 5%nat req0 w0
                (snd (fetchAllUpdates P2 None w0))
                (snd (reportLines P2 cfg0 5 [uCreate; uReact] 1700000001000
                        (applied P2 cfg0 [uCreate; uReact] (snd (fetchAllUpdates P2 None w0)))))
                {| updates := [uCreate; uReact]; nextOffset := Some 103 |}
                [] (openHeader 0))
      as [Hrun _]; try (vm_compute; reflexivity).
    exact Hrun.
Defined.

(** * Further properties of the code *)

(** ** Escaping *)

Lemma replaceAll_units (c : Z) (by_ : jsstring) (f : Z -> jsstring) (s : jsstring) :
  replaceAll c by_ (flat_map f s) = flat_map (fun x => replaceAll c by_ (f x)) s.
Proof.
  unfold replaceAll. induction s as [|x s IH]; [reflexivity|].
  cbn [flat_map]. rewrite flat_map_app, IH. reflexivity.
Qed.

Lemma htmlEscape_units (s : jsstring) : htmlEscape s = flat_map escapeUnit s.
Proof.
  unfold htmlEscape.
  assert (H1 : replaceAll 38 (lit "&amp;") s
               = flat_map (fun x => if x =? 38 then lit "&amp;" else [x]) s) by reflexivity.
  rewrite H1, replaceAll_units, replaceAll_units.
  apply flat_map_ext. intros x. unfold escapeUnit.
  destruct (x =? 38) eqn:E38; [reflexivity|].
  cbn [replaceAll flat_map app]. rewrite app_nil_r.
  destruct (x =? 60) eqn:E60; [reflexivity|].
  cbn [flat_map app]. rewrite app_nil_r.
  destruct (x =? 62); reflexivity.
Qed.

(** X1. Escaped text holds no [<] and no [>], so it cannot open or close a
    tag of the HTML subset the message is sent in. *)
Theorem htmlEscape_no_markup (s : jsstring) :
  Forall (fun c => c <> 60 /\ c <> 62) (htmlEscape s).
Proof.
  rewrite htmlEscape_units. induction s as [|x s IH]; [constructor|].
  cbn [flat_map]. apply Forall_app. split; [|exact IH].
  unfold escapeUnit. apply List.Forall_forall. intros c Hc.
  destruct (x =? 38) eqn:E38; [|destruct (x =? 60) eqn:E60; [|destruct (x =? 62) eqn:E62]];
    cbn in Hc; repeat (destruct Hc as [<- | Hc]; [lia|]); destruct Hc.
Qed.

(** X2. Escaping loses nothing: reading the three entities back gives the
    text again, so two texts with the same escaped form are the same text. *)
Theorem htmlEscape_round_trip :
  (forall s, htmlUnescape (htmlEscape s) = s)
  /\ (forall s1 s2, htmlEscape s1 = htmlEscape s2 -> s1 = s2).
Proof.
  assert (Hother : forall c r, (c =? 38) = false ->
            htmlUnescape (c :: r) = c :: htmlUnescape r).
  { intros c r E. destruct r as [|a [|b [|d [|e r4]]]]; cbn [htmlUnescape];
      rewrite ?E; reflexivity. }
  assert (Hrt : forall s, htmlUnescape (htmlEscape s) = s).
  { intros s. rewrite htmlEscape_units. induction s as [|x s IH]; [reflexivity|].
    cbn [flat_map]. set (rest := flat_map escapeUnit s) in *. unfold escapeUnit.
    destruct (x =? 38) eqn:E38.
    { apply Z.eqb_eq in E38. subst x. cbn. now rewrite IH. }
    destruct (x =? 60) eqn:E60.
    { apply Z.eqb_eq in E60. subst x. cbn. now rewrite IH. }
    destruct (x =? 62) eqn:E62.
    { apply Z.eqb_eq in E62. subst x. cbn. now rewrite IH. }
    cbn [app]. rewrite Hother by exact E38. now rewrite IH. }
  split; [exact Hrt|].
  intros s1 s2 H. rewrite <- (Hrt s1), <- (Hrt s2), H. reflexivity.
Qed.

(** X3. Escaping distributes over concatenation, never shortens a text and
    at most quintuples it; text without [&], [<] and [>] is left as it is. *)
Theorem htmlEscape_length (s1 s2 : jsstring) :
  htmlEscape (s1 ++ s2) = htmlEscape s1 ++ htmlEscape s2
  /\ jslength s1 <= jslength (htmlEscape s1) <= 5 * jslength s1
  /\ (Forall (fun c => c <> 38 /\ c <> 60 /\ c <> 62) s1 -> htmlEscape s1 = s1).
Proof.
  rewrite !htmlEscape_units. split; [apply flat_map_app|]. split.
  - unfold jslength. induction s1 as [|x s IH]; [cbn; lia|].
    cbn [flat_map]. rewrite length_app. cbn [length].
    assert (1 <= length (escapeUnit x) <= 5)%nat.
    { unfold escapeUnit. destruct (x =? 38); [cbn; lia|].
      destruct (x =? 60); [cbn; lia|]. destruct (x =? 62); cbn; lia. }
    lia.
  - induction 1 as [|x s (H38 & H60 & H62) Hs IH]; [reflexivity|].
    cbn [flat_map]. rewrite IH. unfold escapeUnit.
    apply Z.eqb_neq in H38, H60, H62. rewrite H38, H60, H62. reflexivity.
Qed.

Lemma htmlEscape_length_witness :
  htmlEscape (lit "a<b") = lit "a&lt;b"
  /\ htmlEscape (lit "plain") = lit "plain".
Proof.
  split.
  - reflexivity.
  - apply (htmlEscape_length (lit "plain") []).
    repeat constructor; discriminate.
Defined.

(** ** More on snippets *)

(** X4. The snippet of a text is empty exactly when the text is white space
    only; and when the cleaned text fits, the snippet keeps every unit that
    is not white space, in order. *)
Theorem snippet_blank_or_kept (s : jsstring) (max : Z) :
  0 <= max ->
  (snippet s max = [] <-> blank s)
  /\ (jslength (trim (collapseWs false s)) <= max -> inked (snippet s max) = inked s).
Proof.
  intros Hmax. split; [now apply snippet_nil_iff|].
  intros Hfit. unfold snippet. destruct s as [|c r] eqn:Es; [reflexivity|].
  cbn [truthy negb]. rewrite <- Es.
  replace (jslength (trim (collapseWs false s)) >? max) with false
    by (symmetry; rewrite Z.gtb_ltb; apply Z.ltb_ge; rewrite <- Es in Hfit; exact Hfit).
  now rewrite trim_inked, collapseWs_inked.
Qed.

Lemma snippet_blank_or_kept_witness :
  snippet [32; 9; 10] 400 = []
  /\ inked (snippet (lit " Buy  milk ") 400) = lit "Buymilk".
Proof.
  split.
  - destruct (snippet_blank_or_kept [32; 9; 10] 400) as [[_ H] _]; [lia|].
    apply H. unfold blank. repeat (constructor; [reflexivity|]). constructor.
  - destruct (snippet_blank_or_kept (lit " Buy  milk ") 400) as [_ H]; [lia|].
    apply H. vm_compute. discriminate.
Defined.

(** A text already cut at [max] is cut at a smaller bound where the
    original would have been. *)
Lemma cut_again (clean : jsstring) (max max' : Z) :
  1 <= max' <= max -> max < jslength clean ->
  firstn (Z.to_nat (max' - 1)) (firstn (Z.to_nat (max - 1)) clean ++ ELLIPSIS)
  = firstn (Z.to_nat (max' - 1)) clean
  /\ max' < jslength (firstn (Z.to_nat (max - 1)) clean ++ ELLIPSIS).
Proof.
  intros [Hlo Hhi] Hlen. unfold jslength in *. split.
  - rewrite firstn_app, firstn_firstn, length_firstn.
    replace (Z.to_nat (max' - 1) - Init.Nat.min (Z.to_nat (max - 1)) (length clean))%nat
      with 0%nat by lia.
    cbn [firstn]. rewrite app_nil_r. f_equal. lia.
  - rewrite length_app, length_firstn. cbn [ELLIPSIS length]. lia.
Qed.

(** X5. Cutting a snippet again to a shorter bound gives the snippet of the
    text at that bound; in particular [snippet] is idempotent. *)
Theorem snippet_resnip (s : jsstring) (max max' : Z) :
  1 <= max' <= max ->
  snippet (snippet s max) max' = snippet s max'.
Proof.
  intros [Hlo Hhi].
  rewrite (snippet_of_clean (snippet s max) max' Hlo)
    by (apply snippet_tight || apply snippet_normal; lia).
  destruct s as [|c r] eqn:Es.
  { unfold jslength. cbn [snippet truthy negb length].
    destruct (Z.of_nat 0 >? max') eqn:E; [apply Z.gtb_lt in E; lia | reflexivity]. }
  rewrite <- Es. assert (Hs : s <> []) by (subst; discriminate). clear Es.
  rewrite (snippet_unfold s max) by (lia || assumption).
  rewrite (snippet_unfold s max') by (lia || assumption).
  set (clean := trim (collapseWs false s)).
  destruct (jslength clean >? max) eqn:E; [|reflexivity].
  apply Z.gtb_lt in E.
  destruct (cut_again clean max max' (conj Hlo Hhi) E) as [Hcut Hlong].
  replace (jslength clean >? max') with true by (symmetry; apply Z.gtb_lt; lia).
  replace (jslength (firstn (Z.to_nat (max - 1)) clean ++ ELLIPSIS) >? max') with true
    by (symmetry; apply Z.gtb_lt; lia).
  now rewrite Hcut.
Qed.

(** A text of eighteen units cut at twelve, then at eight: what is left is
    its first seven units and the mark. *)
Lemma snippet_resnip_witness :
  snippet (snippet (lit "one two three four") 12) 8 = lit "one two" ++ ELLIPSIS.
Proof.
  rewrite (snippet_resnip (lit "one two three four") 12 8) by lia.
  reflexivity.
Defined.

(** X6. The title shown for a journaled message is the snippet of the
    message text at 200 units: the stored snippet is one line, so taking its
    first line and trimming change nothing, and cutting it again gives the
    shorter snippet of the original.  So the line of the task in the report
    is made of the message text as it was sent, not of what the ledger
    holds. *)
Theorem taskTitle_of_journaled (chat : Chat) (m : Message) :
  taskTitle (Some (text (newTask chat m))) = snippet (messageText m) 200
  /\ forall nowTs,
       formatTaskLine (taskValue (newTask chat m)) nowTs
       = BULLET ++ lit " " ++ htmlEscape (snippet (messageText m) 200) ++ lit " <b>"
           ++ [LRM] ++ lit "["
           ++ numToString (ageDays (Some (createdAt (newTask chat m))) nowTs)
           ++ lit "d]</b>".
Proof.
  assert (H : taskTitle (Some (text (newTask chat m))) = snippet (messageText m) 200).
  { cbn [newTask text]. unfold taskTitle.
    generalize (messageText m). intros s.
    assert (Hor : match orStr (Some (snippet s 400)) (Some []) with
                  | Some x => x | None => [] end = snippet s 400).
    { cbn [orStr]. destruct (snippet s 400); reflexivity. }
    rewrite Hor.
    rewrite (firstLine_fixed _ false) by (apply snippet_normal; lia).
    rewrite trim_fixed by (apply snippet_tight; lia).
    rewrite (snippet_of_clean (snippet s 400) 200)
      by (lia || apply snippet_tight || apply snippet_normal; lia).
    destruct s as [|c r] eqn:Es; [reflexivity|].
    rewrite <- Es. assert (Hs : s <> []) by (subst; discriminate). clear Es.
    rewrite (snippet_unfold s 400), (snippet_unfold s 200) by (lia || assumption).
    set (clean := trim (collapseWs false s)).
    destruct (jslength clean >? 400) eqn:E; [|reflexivity].
    apply Z.gtb_lt in E.
    destruct (cut_again clean 400 200 ltac:(lia) E) as [Hcut Hlong].
    replace (jslength clean >? 200) with true by (symmetry; apply Z.gtb_lt; lia).
    replace (jslength (firstn (Z.to_nat (400 - 1)) clean ++ ELLIPSIS) >? 200) with true
      by (symmetry; apply Z.gtb_lt; lia).
    now rewrite Hcut. }
  split; [exact H|]. intros nowTs. unfold formatTaskLine.
  cbn [taskValue taskObj getText getCreatedAt o_text o_createdAt]. now rewrite H.
Qed.

(** ** Keys *)

Lemma lit_app (a b : string) : lit (a +:+ b) = lit a ++ lit b.
Proof.
  unfold lit. induction a as [|c a IH]; [reflexivity|].
  change (String c a +:+ b) with (String c (a +:+ b)).
  cbn [list_ascii_of_string map app]. f_equal. exact IH.
Qed.

Lemma pretty_N_go_numeric (x : N) : forall s,
  Forall numeric (lit s) -> Forall numeric (lit (pretty_N_go x s)).
Proof.
  induction (N.lt_wf_0 x) as [x _ IH]; intros s Hs.
  destruct (decide (0 < x)%N) as [Hpos | Hz].
  - rewrite pretty_N_go_step by exact Hpos. apply IH; [now apply N.div_lt|].
    change (lit (String (pretty_N_char (x `mod` 10)) s))
      with (Z.of_N (N_of_ascii (pretty_N_char (x `mod` 10))) :: lit s).
    constructor; [|exact Hs]. left. unfold pretty_N_char.
    repeat case_match; cbn; lia.
  - assert (x = 0%N) as -> by lia. rewrite pretty_N_go_0. exact Hs.
Qed.

Lemma numToString_numeric (z : Z) : Forall numeric (numToString z).
Proof.
  unfold numToString, pretty, pretty_Z.
  assert (H0 : Forall numeric (lit "0")).
  { change (lit "0") with [48]. constructor; [left; lia | constructor]. }
  assert (HN : forall n : N, Forall numeric (lit (pretty n))).
  { intros n. unfold pretty, pretty_N. destruct (decide (n = 0%N)); [exact H0|].
    apply pretty_N_go_numeric. constructor. }
  destruct z as [|p|p].
  - exact H0.
  - apply HN.
  - rewrite lit_app. apply Forall_app. split; [|apply HN].
    change (lit "-") with [45]. constructor; [right; reflexivity | constructor].
Qed.

Lemma lit_inj (a b : string) : lit a = lit b -> a = b.
Proof.
  unfold lit. revert b. induction a as [|c a IH]; intros [|d b]; cbn; try discriminate.
  - reflexivity.
  - intros [= Hc Hr]. f_equal; [|now apply IH].
    apply N2Z.inj in Hc. rewrite <- (ascii_N_embedding c), <- (ascii_N_embedding d).
    now rewrite Hc.
Qed.

Lemma numToString_inj (a b : Z) : numToString a = numToString b -> a = b.
Proof. intros H. apply lit_inj in H. now apply (inj pretty) in H. Qed.

Lemma split_at_colon (A A' B B' : jsstring) :
  Forall numeric A -> Forall numeric A' ->
  A ++ 58 :: B = A' ++ 58 :: B' -> A = A' /\ B = B'.
Proof.
  revert A'. induction A as [|a A IH]; intros [|a' A'] HA HA'; cbn.
  - intros [= ->]. auto.
  - intros [= <- _]. inversion HA' as [|? ? Hn _]; subst. destruct Hn; lia.
  - intros [= -> _]. inversion HA as [|? ? Hn _]; subst. destruct Hn; lia.
  - intros [= -> Hr]. inversion HA; inversion HA'; subst.
    destruct (IH A') as [-> ->]; auto.
Qed.

Lemma taskKey_inj (c m c' m' : Z) :
  taskKey c m = taskKey c' m' -> c = c' /\ m = m'.
Proof.
  unfold taskKey. intros H. apply app_inv_head in H.
  change (lit ":" ++ numToString m) with (58 :: numToString m) in H.
  change (lit ":" ++ numToString m') with (58 :: numToString m') in H.
  apply split_at_colon in H; try apply numToString_numeric.
  destruct H as [Hc Hm]. split; now apply numToString_inj.
Qed.

(** X7. The ledger key determines the task: two keys are equal only for the
    same conversation and the same message.  So an update about one message
    never changes the record of another: tasks of different messages are
    independent. *)
Theorem taskKey_injective :
  (forall c m c' m', taskKey c m = taskKey c' m' -> c = c' /\ m = m')
  /\ (forall (P : Platform) (cfg : Config) (u : Update) (w : World) (c m c' m' : Z),
        actionKey (classify cfg u) = Some (taskKey c' m') ->
        (c, m) <> (c', m') ->
        ledger (stepWorld P cfg w u) !! taskKey c m = ledger w !! taskKey c m).
Proof.
  split; [exact taskKey_inj|].
  intros P cfg u w c m c' m' Hkey Hne.
  assert (Hk : taskKey c' m' <> taskKey c m).
  { intros H. apply taskKey_inj in H. destruct H; subst. now apply Hne. }
  rewrite stepWorld_ledger.
  destruct (classify cfg u) as [k | k | k task |]; cbn [actionKey] in Hkey;
    try discriminate; injection Hkey as ->;
    destruct (kv_error P (tick w)); try reflexivity.
  - destruct (ledger w !! taskKey c' m') as [[t|s]|]; try reflexivity.
    destruct (kv_error P (S (tick w))); [reflexivity|].
    destruct (settable t); [now apply lookup_insert_ne | reflexivity].
  - destruct (ledger w !! taskKey c' m') as [[t|s]|]; try reflexivity.
    destruct (kv_error P (S (tick w))); [reflexivity|].
    destruct (settable t); [now apply lookup_insert_ne | reflexivity].
  - now apply lookup_insert_ne.
Qed.

(** A second message, 9, is journaled: the record of message 7 stays. *)
Lemma taskKey_injective_witness :
  ledger (stepWorld P0 cfg0 wClosed (mkUpdate 104 (mkMessage 9 (lit "Pay rent") None)))
    !! taskKey 42 7
  = ledger wClosed !! taskKey 42 7.
Proof.
  apply (proj2 taskKey_injective P0 cfg0 _ wClosed 42 7 42 9).
  - vm_compute. reflexivity.
  - intros [= ].
Defined.

(** ** One task, one line *)

Lemma wsNormal_no_newline (s : jsstring) : forall b,
  wsNormal b s = true -> Forall (fun c => c <> 10) s.
Proof.
  induction s as [|c r IH]; intros b; [constructor|]. cbn [wsNormal].
  destruct (isWhiteSpace c) eqn:E.
  - intros H. apply andb_true_iff in H as [H1 H2]. apply andb_true_iff in H1 as [Hc _].
    apply Z.eqb_eq in Hc. constructor; [lia | exact (IH _ H2)].
  - intros H. constructor; [|exact (IH _ H)]. intros ->. discriminate E.
Qed.

Lemma htmlEscape_no_newline (s : jsstring) :
  Forall (fun c => c <> 10) s -> Forall (fun c => c <> 10) (htmlEscape s).
Proof.
  rewrite htmlEscape_units. induction 1 as [|x s Hx Hs IH]; [constructor|].
  cbn [flat_map]. apply Forall_app. split; [|exact IH].
  unfold escapeUnit. apply List.Forall_forall. intros c Hc.
  destruct (x =? 38); [|destruct (x =? 60); [|destruct (x =? 62)]];
    cbn in Hc; repeat (destruct Hc as [<- | Hc]; [lia|]); destruct Hc.
Qed.

(** X8. The line of an entry of the report holds no newline, whatever the
    stored value: in the report every task is one line, and a chunk boundary
    falls between tasks. *)
Theorem formatTaskLine_one_line (t : Value) (nowTs : Z) :
  Forall (fun c => c <> 10) (formatTaskLine t nowTs).
Proof.
  unfold formatTaskLine, taskTitle.
  assert (Hlit : forall l : jsstring, Forall numeric l -> Forall (fun c => c <> 10) l).
  { intros l Hl. eapply List.Forall_impl; [|exact Hl]. intros c [Hc | Hc]; lia. }
  assert (Hunits : forall l : jsstring,
            forallb (fun c => negb (c =? 10)) l = true -> Forall (fun c => c <> 10) l).
  { intros l Hl. apply List.Forall_forall. intros c Hc.
    rewrite forallb_forall in Hl. specialize (Hl c Hc).
    apply negb_true_iff, Z.eqb_neq in Hl. exact Hl. }
  repeat apply Forall_app_2; try (apply Hunits; reflexivity).
  - apply htmlEscape_no_newline. eapply wsNormal_no_newline. apply snippet_normal. lia.
  - apply Hlit, numToString_numeric.
Qed.

(** ** What an update can and cannot do *)

Lemma stepWorld_perform (P : Platform) (cfg : Config) (w : World) (u : Update) :
  stepWorld P cfg w u = snd (perform P (classify cfg u) w).
Proof. unfold stepWorld. now rewrite applyUpdate_perform. Qed.

(** What a step does to the world: nothing is sent, at most two calls are
    made, and the ledger is as before or has a new value under the key of
    the action, which held a value before unless the action is a create. *)
Lemma step_cases (P : Platform) (cfg : Config) (w : World) (u : Update) :
  outbox (stepWorld P cfg w u) = outbox w
  /\ (tick w <= tick (stepWorld P cfg w u) <= tick w + 2)%nat
  /\ (ledger (stepWorld P cfg w u) = ledger w
      \/ exists key val,
           actionKey (classify cfg u) = Some key
           /\ ledger (stepWorld P cfg w u) = <[key := val]> (ledger w)
           /\ (is_Some (ledger w !! key) \/ exists task, classify cfg u = CreateTask key task)).
Proof.
  rewrite stepWorld_perform.
  destruct (classify cfg u) as [key | key | key task |]; cbn [perform actionKey];
    rewrite ?closeTask_value, ?createTask_run; cbn [snd].
  1,2: destruct (kv_error P (tick w));
       [cbn; repeat split; auto; lia|];
       destruct (ledger w !! key) as [[v|s]|] eqn:Ek;
       [ destruct (settable v);
         [destruct (kv_error P (S (tick w)))|] | | ];
       cbn [bump ledger tick outbox];
       (split; [reflexivity|]); (split; [lia|]);
       try (left; reflexivity);
       right; eexists key, _; split; [reflexivity|]; split; [reflexivity|];
       left; rewrite Ek; eauto.
  - destruct (kv_error P (tick w)); cbn [bump ledger tick outbox];
      (split; [reflexivity|]); (split; [lia|]); [now left|].
    right. eexists key, _. split; [reflexivity|]. split; [reflexivity|]. right. eauto.
  - unfold mret, M_ret. cbn. repeat split; auto; lia.
Qed.

(** X9. An update reads and writes at most the one key of its action: every
    other record stays as it is, no record is ever removed, a key that was
    free is taken only by a create for it, no message is sent, and at most
    two calls are made to the store. *)
Theorem update_touches_one_key (P : Platform) (cfg : Config) (u : Update) (w : World) :
  outbox (stepWorld P cfg w u) = outbox w
  /\ (forall k, actionKey (classify cfg u) <> Some k ->
        ledger (stepWorld P cfg w u) !! k = ledger w !! k)
  /\ (forall k, is_Some (ledger w !! k) -> is_Some (ledger (stepWorld P cfg w u) !! k))
  /\ (forall k, ledger w !! k = None -> is_Some (ledger (stepWorld P cfg w u) !! k) ->
        exists task, classify cfg u = CreateTask k task)
  /\ (tick w <= tick (stepWorld P cfg w u) <= tick w + 2)%nat.
Proof.
  destruct (step_cases P cfg w u) as (Hout & Htick & Hl).
  split; [exact Hout|]. split; [|split; [|split; [|exact Htick]]].
  - intros k Hne. destruct Hl as [-> | (key & val & Hkey & -> & _)]; [reflexivity|].
    apply lookup_insert_ne. congruence.
  - intros k Hs. destruct Hl as [-> | (key & val & _ & -> & _)]; [exact Hs|].
    destruct (decide (key = k)) as [<- | Hne];
      [rewrite lookup_insert_eq; eauto | now rewrite lookup_insert_ne].
  - intros k Hk Hs. destruct Hl as [Hl | (key & val & _ & Hl & Hwas)]; rewrite Hl in Hs.
    + rewrite Hk in Hs. destruct Hs; discriminate.
    + destruct (decide (key = k)) as [<- | Hne].
      * destruct Hwas as [Hwas | Hcreate]; [|exact Hcreate].
        rewrite Hk in Hwas. destruct Hwas; discriminate.
      * rewrite lookup_insert_ne, Hk in Hs by assumption. destruct Hs; discriminate.
Qed.

(** X10. Only the owner, in a private chat, can make the loop act: an update
    with any effect at all, be it one call to the store, comes from the owner
    in a private chat; every other update leaves the world exactly as it
    was. *)
Theorem only_owner_acts (P : Platform) (cfg : Config) (u : Update) (w : World) :
  applyUpdate P cfg u w <> (Ok tt, w) -> fromOwnerInPrivate cfg u.
Proof.
  unfold applyUpdate, fromOwnerInPrivate.
  destruct (orObj (message_reaction u) (messageReaction u)) as [mr|].
  - unfold reactionTarget. destruct (mr_chat mr) as [chat|]; [|intros H; exfalso; apply H; reflexivity].
    unfold isPrivate.
    destruct (bool_decide (c_type chat = lit "private")) eqn:Ep;
      [|intros H; exfalso; apply H; reflexivity].
    destruct (bool_decide (StringOf _ = adminString cfg)) eqn:Ea;
      [|intros H; exfalso; apply H; reflexivity].
    intros _. exists chat. apply bool_decide_eq_true in Ep, Ea. auto.
  - destruct (message u) as [m|]; [|intros H; exfalso; apply H; reflexivity].
    destruct (m_chat m) as [chat|] eqn:Ec; [|intros H; exfalso; apply H; reflexivity].
    unfold isPrivate.
    destruct (bool_decide (c_type chat = lit "private")) eqn:Ep;
      [|intros H; exfalso; apply H; reflexivity].
    destruct (bool_decide (StringOf (m_from m) = adminString cfg)) eqn:Ea;
      [|intros H; exfalso; apply H; reflexivity].
    intros _. exists m, chat. apply bool_decide_eq_true in Ep, Ea. auto.
Qed.

Lemma only_owner_acts_witness : fromOwnerInPrivate cfg0 uCreate.
Proof.
  apply (only_owner_acts P0 cfg0 uCreate w0).
  vm_compute. intros H. discriminate H.
Defined.



(** X12. The first reaction property that is present decides: once
    [new_reaction] is an array, the other three properties are not looked
    at.  So an update that reports the removal of all reactions, with an
    empty [new_reaction], closes nothing and calls nothing, whatever the
    other properties hold. *)
Theorem reaction_removed_is_ignored :
  (forall (r r' : Reaction) (l : list ReactionItem),
     new_reaction r = Some (FieldArray l) ->
     new_reaction r' = Some (FieldArray l) ->
     extractReactionEmojis r = extractReactionEmojis r')
  /\ (forall (P : Platform) (cfg : Config) (u : Update) (mr : Reaction) (w : World),
        orObj (message_reaction u) (messageReaction u) = Some mr ->
        new_reaction mr = Some (FieldArray []) ->
        classify cfg u = Ignore /\ applyUpdate P cfg u w = (Ok tt, w)).
Proof.
  split.
  - intros r r' l Hr Hr'. unfold extractReactionEmojis, orField. rewrite Hr, Hr'.
    reflexivity.
  - intros P cfg u mr w Hmr Hnew.
    assert (Ht : reactionTarget cfg u mr = None).
    { unfold reactionTarget. destruct (mr_chat mr); [|reflexivity].
      destruct (isPrivate _ && _); [|reflexivity].
      assert (He : extractReactionEmojis mr = [])
        by (unfold extractReactionEmojis, orField; rewrite Hnew; reflexivity).
      rewrite He. destruct (orNum _ _); reflexivity. }
    unfold classify, applyUpdate. rewrite Hmr, Ht. split; reflexivity.
Qed.

Lemma reaction_removed_is_ignored_witness :
  classify cfg0 uUnreact = Ignore /\ applyUpdate P0 cfg0 uUnreact w0 = (Ok tt, w0).
Proof.
  apply (proj2 reaction_removed_is_ignored P0 cfg0 uUnreact mrUnreact w0); reflexivity.
Defined.

(** X13. Whatever trips the thumbs-up detector also counts as emoji, so the
    report without a store never lists a message that holds a thumbs-up. *)
Theorem thumb_counts_as_emoji (s : jsstring) :
  THUMBS_UP_RE_test s = true ->
  hasEmoji s = true
  /\ forall since u m,
       fallbackMessage u = Some m -> messageText m = s -> isCandidate since u = false.
Proof.
  intros H.
  assert (He : hasEmoji s = true).
  { apply THUMBS_UP_RE_test_In in H. unfold hasEmoji.
    destruct s as [|c r]; [destruct H|]. cbn [truthy negb].
    apply existsb_exists. exists 0x1F44D. split; [exact H | reflexivity]. }
  split; [exact He|]. intros since u m Hm Hs. unfold isCandidate. rewrite Hm.
  destruct ((fallbackTs (Some m) =? 0) || (fallbackTs (Some m) <? since)); [reflexivity|].
  cbn [fallbackText]. rewrite Hs.
  destruct (negb (truthy s)); [reflexivity|]. now rewrite He.
Qed.

Lemma thumb_counts_as_emoji_witness : hasEmoji (lit "done " ++ THUMB) = true.
Proof. apply (thumb_counts_as_emoji (lit "done " ++ THUMB)). reflexivity. Defined.

(** X14. Closing an open task, by reaction or by reply, when the store
    answers: the record becomes done, its [doneAt] is the time read after the
    lookup, every other field and every other record is as before. *)
Theorem close_open_marks_done (P : Platform) (cfg : Config) (u : Update)
    (key : jsstring) (w : World) (t : Task) :
  closes (classify cfg u) key ->
  ledger w !! key = Some (SJson t) ->
  done t = false ->
  kv_error P (tick w) = None ->
  kv_error P (S (tick w)) = None ->
  applyUpdate P cfg u w =
    (Ok tt,
     {| ledger := <[key := SJson {| task_id := task_id t; chat_id := chat_id t;
                                    message_id := message_id t; createdAt := createdAt t;
                                    text := text t; done := true;
                                    doneAt := Some (clock P (S (tick w))) |}]> (ledger w);
        tick := S (S (tick w)); outbox := outbox w |}).
Proof.
  intros Hc Hrec _ Hget Hset. rewrite applyUpdate_perform.
  destruct Hc as [-> | ->]; cbn [perform];
    rewrite (closeTask_run P key w t Hrec), Hget, Hset; reflexivity.
Qed.

Lemma close_open_marks_done_witness :
  ledger (snd (applyUpdate P0 cfg0 uReact (snd (applyUpdate P0 cfg0 uCreate w0))))
    !! taskKey 42 7
  = Some (SJson {| task_id := lit "42:7"; chat_id := 42; message_id := 7;
                   createdAt := 1700000000000; text := lit "Buy milk";
                   done := true; doneAt := Some 5002 |}).
Proof.
  rewrite (close_open_marks_done P0 cfg0 uReact (taskKey 42 7)
             (snd (applyUpdate P0 cfg0 uCreate w0))
             (newTask chat0 (mkMessage 7 (lit "Buy milk") None))).
  - cbn [snd ledger]. rewrite lookup_insert_eq. vm_compute. reflexivity.
  - left. vm_compute. reflexivity.
  - vm_compute. reflexivity.
  - reflexivity.
  - reflexivity.
  - reflexivity.
Defined.

(** X15. A close that finds text it cannot parse, or the empty string, under
    its key leaves the ledger as it is and raises nothing: the one call made
    is the lookup, no write is attempted. *)
Theorem close_corrupt_is_noop (P : Platform) (cfg : Config) (u : Update)
    (key : jsstring) (w : World) (s : jsstring) :
  closes (classify cfg u) key ->
  ledger w !! key = Some (SRaw s) ->
  applyUpdate P cfg u w = (Ok tt, bump w).
Proof.
  intros Hc Hrec. rewrite applyUpdate_perform.
  destruct Hc as [-> | ->]; cbn [perform]; rewrite closeTask_value, Hrec;
    destruct (kv_error P (tick w)); reflexivity.
Qed.

Lemma close_corrupt_is_noop_witness :
  applyUpdate P0 cfg0 uReply wCorrupt = (Ok tt, bump wCorrupt).
Proof.
  apply (close_corrupt_is_noop P0 cfg0 uReply (taskKey 42 7) wCorrupt (lit "{oops")).
  - right. vm_compute. reflexivity.
  - apply lookup_singleton_eq.
Defined.

(** X27. A close whose key holds a value that parses but is no complete
    task: an object is marked all the same, with [done = true] and [doneAt]
    the time read after the lookup, its other properties kept, so that [{}]
    becomes a record with these two properties; an array is written back as
    it is; for [null], a number, a string or a boolean nothing is written,
    since in strict mode setting a property of such a value raises, and the
    error is swallowed. *)
Theorem close_any_value (P : Platform) (cfg : Config) (u : Update)
    (key : jsstring) (w : World) (v : Value) :
  closes (classify cfg u) key ->
  ledger w !! key = Some (SParsed v) ->
  kv_error P (tick w) = None ->
  kv_error P (S (tick w)) = None ->
  applyUpdate P cfg u w =
    (Ok tt,
     match v with
     | VObj o =>
         {| ledger :=
              <[key := SParsed (VObj {| o_id := o_id o; o_chat_id := o_chat_id o;
                                        o_message_id := o_message_id o;
                                        o_createdAt := o_createdAt o;
                                        o_text := o_text o; o_done := Some true;
                                        o_doneAt := Some (clock P (S (tick w)));
                                        o_other := o_other o |})]> (ledger w);
            tick := S (S (tick w)); outbox := outbox w |}
     | VArray json =>
         {| ledger := <[key := SParsed (VArray json)]> (ledger w);
            tick := S (S (tick w)); outbox := outbox w |}
     | VNull | VPrim _ => bump w
     end).
Proof.
  intros Hc Hrec Hget Hset. rewrite applyUpdate_perform.
  destruct Hc as [-> | ->]; cbn [perform];
    rewrite closeTask_value, Hget, Hrec; destruct v; cbn [settable closed];
    rewrite ?Hset; reflexivity.
Qed.

(** The reaction to message 7 when the ledger holds [{}] for it. *)
Lemma close_any_value_witness :
  ledger (snd (applyUpdate P0 cfg0 uReact wLoose)) !! taskKey 42 7
  = Some (SParsed (VObj {| o_id := None; o_chat_id := None; o_message_id := None;
                           o_createdAt := None; o_text := None; o_done := Some true;
                           o_doneAt := Some 5001; o_other := [] |})).
Proof.
  rewrite (close_any_value P0 cfg0 uReact (taskKey 42 7) wLoose (VObj emptyObj)).
  - cbn [snd ledger]. now rewrite lookup_insert_eq.
  - left. vm_compute. reflexivity.
  - apply lookup_singleton_eq.
  - reflexivity.
  - reflexivity.
Defined.

(** ** Invariants of the run *)

Section Preserves.

Context (R : World -> World -> Prop) `{!PreOrder R}.

Lemma preserves_ret {A} (a : A) : preserves R (mret a).
Proof. intros w r w'. unfold mret, M_ret. intros [= <- <-]. reflexivity. Qed.

Lemma preserves_throw {A} (e : exn) : preserves R (@throw A e).
Proof. intros w r w'. unfold throw. intros [= <- <-]. reflexivity. Qed.

Lemma preserves_outOfFuel {A} : preserves R (@outOfFuel A).
Proof. intros w r w'. unfold outOfFuel. intros [= <- <-]. reflexivity. Qed.

Lemma preserves_bind {A B} (m : M A) (f : A -> M B) :
  preserves R m -> (forall a, preserves R (f a)) -> preserves R (m ≫= f).
Proof.
  intros Hm Hf w r w'. unfold mbind, M_bind.
  destruct (m w) as [[a | e |] w1] eqn:E; specialize (Hm _ _ _ E).
  - intros H. apply Hf in H. etransitivity; eassumption.
  - intros [= <- <-]. exact Hm.
  - intros [= <- <-]. exact Hm.
Qed.

Lemma preserves_tryCatch {A} (m : M A) (h : exn -> M A) :
  preserves R m -> (forall e, preserves R (h e)) -> preserves R (tryCatch m h).
Proof.
  intros Hm Hh w r w'. unfold tryCatch.
  destruct (m w) as [[a | e |] w1] eqn:E; specialize (Hm _ _ _ E).
  - intros [= <- <-]. exact Hm.
  - intros H. apply Hh in H. etransitivity; eassumption.
  - intros [= <- <-]. exact Hm.
Qed.

Lemma preserves_try (m : M unit) : preserves R m -> preserves R (try_ m).
Proof.
  intros Hm w r w'. unfold try_.
  destruct (m w) as [[a | e |] w1] eqn:E; specialize (Hm _ _ _ E);
    intros [= <- <-]; exact Hm.
Qed.

Lemma preserves_forEach {A} (f : A -> M unit) (l : list A) :
  (forall a, preserves R (f a)) -> preserves R (forEach f l).
Proof.
  intros Hf. induction l as [|x l IH]; [apply preserves_ret|].
  cbn [forEach]. apply preserves_bind; [apply Hf | intros _; exact IH].
Qed.

End Preserves.

#[local] Instance grows_preorder : PreOrder grows.
Proof. split; [intros w k H; exact H | intros a b c H1 H2 k H; exact (H2 k (H1 k H))]. Qed.

#[local] Instance sameLedger_preorder : PreOrder sameLedger.
Proof.
  split; [intros w; unfold sameLedger; reflexivity|].
  intros a b c H1 H2. unfold sameLedger in *. congruence.
Qed.

#[local] Instance sameOutbox_preorder : PreOrder sameOutbox.
Proof.
  split; [intros w; unfold sameOutbox; reflexivity|].
  intros a b c H1 H2. unfold sameOutbox in *. congruence.
Qed.

#[local] Instance later_preorder : PreOrder later.
Proof. split; [intros w; unfold later; lia | intros a b c; unfold later; lia]. Qed.

Lemma sameLedger_grows (w w' : World) : sameLedger w w' -> grows w w'.
Proof. intros H k. unfold sameLedger in H. now rewrite H. Qed.

Lemma preserves_weaken {A} (R R' : World -> World -> Prop) (m : M A) :
  (forall w w', R w w' -> R' w w') -> preserves R m -> preserves R' m.
Proof. intros HR Hm w r w' H. apply HR. exact (Hm _ _ _ H). Qed.

(** The calls to the outside, one by one. *)

Lemma kv_get_keeps (P : Platform) (key : jsstring) :
  preserves sameLedger (kv_get P key) /\ preserves sameOutbox (kv_get P key).
Proof.
  split; intros w r w'; unfold kv_get; destruct (kv_error P (tick w));
    intros [= <- <-]; reflexivity.
Qed.

Lemma kv_set_keeps (P : Platform) (key : jsstring) (v : Stored) :
  preserves grows (kv_set P key v) /\ preserves sameOutbox (kv_set P key v).
Proof.
  split; intros w r w'; unfold kv_set; destruct (kv_error P (tick w));
    intros [= <- <-]; try reflexivity.
  - intros k Hk. exact Hk.
  - intros k Hk. cbn [ledger]. destruct (decide (key = k)) as [<- | Hne];
      [rewrite lookup_insert_eq; eauto | now rewrite lookup_insert_ne].
Qed.

Lemma kv_scan_keeps (P : Platform) (cursor match_ : jsstring) :
  preserves sameLedger (kv_scan P cursor match_)
  /\ preserves sameOutbox (kv_scan P cursor match_).
Proof.
  split; intros w r w'; unfold kv_scan; destruct (kv_error P (tick w));
    try (intros [= <- <-]; reflexivity);
    destruct (scan_reply P (tick w) cursor match_) as [[next keys]|];
    intros [= <- <-]; reflexivity.
Qed.

Lemma getUpdates_keeps (P : Platform) (offset : option Z) :
  preserves sameLedger (getUpdates P offset) /\ preserves sameOutbox (getUpdates P offset).
Proof.
  split; intros w r w'; unfold getUpdates; destruct (feed P (tick w) offset);
    intros [= <- <-]; reflexivity.
Qed.

Lemma sendMessage_keeps (P : Platform) (to msg : jsstring) :
  preserves sameLedger (sendMessage P to msg).
Proof.
  intros w r w'; unfold sendMessage; destruct (send_error P (tick w));
    intros [= <- <-]; reflexivity.
Qed.

Lemma Date_now_keeps (P : Platform) :
  preserves sameLedger (Date_now P) /\ preserves sameOutbox (Date_now P).
Proof. split; intros w r w'; unfold Date_now; intros [= <- <-]; reflexivity. Qed.

Lemma JSON_parse_keeps (R : World -> World -> Prop) `{!PreOrder R} (v : option Stored) :
  preserves R (JSON_parse v).
Proof.
  destruct v as [[t|s]|]; cbn [JSON_parse];
    [apply preserves_ret | apply preserves_throw | apply preserves_ret]; assumption.
Qed.

Lemma setDone_keeps (R : World -> World -> Prop) `{!PreOrder R} (obj : Value) :
  preserves R (setDone obj).
Proof.
  destruct obj; cbn [setDone];
    (apply preserves_throw || apply preserves_ret); assumption.
Qed.

Lemma preserves_ext {A} (R : World -> World -> Prop) (m m' : M A) :
  (forall w, m w = m' w) -> preserves R m' -> preserves R m.
Proof. intros He Hm w r w' H. rewrite He in H. exact (Hm _ _ _ H). Qed.

Lemma closeTask_keeps (P : Platform) (key : jsstring) :
  preserves grows (closeTask P key) /\ preserves sameOutbox (closeTask P key).
Proof.
  split; unfold closeTask.
  - apply preserves_bind; [apply _ | |].
    { eapply preserves_weaken; [apply sameLedger_grows | apply kv_get_keeps]. }
    intros val. destruct (valTruthy val); [|apply preserves_ret; apply _].
    apply preserves_bind; [apply _ | apply JSON_parse_keeps; apply _ |]. intros obj.
    apply preserves_bind; [apply _ | apply setDone_keeps; apply _ |]. intros obj1.
    apply preserves_bind; [apply _ | |].
    { eapply preserves_weaken; [apply sameLedger_grows | apply Date_now_keeps]. }
    intros now. apply preserves_bind; [apply _ | apply kv_set_keeps |].
    intros _. apply preserves_ret; apply _.
  - apply preserves_bind; [apply _ | apply kv_get_keeps |].
    intros val. destruct (valTruthy val); [|apply preserves_ret; apply _].
    apply preserves_bind; [apply _ | apply JSON_parse_keeps; apply _ |]. intros obj.
    apply preserves_bind; [apply _ | apply setDone_keeps; apply _ |]. intros obj1.
    apply preserves_bind; [apply _ | apply Date_now_keeps |].
    intros now. apply preserves_bind; [apply _ | apply kv_set_keeps |].
    intros _. apply preserves_ret; apply _.
Qed.

Lemma perform_keeps (P : Platform) (a : Action) :
  preserves grows (perform P a) /\ preserves sameOutbox (perform P a).
Proof.
  assert (Hcreate : forall key task,
            preserves grows (kv_set P key (SJson task) ;; mret tt)
            /\ preserves sameOutbox (kv_set P key (SJson task) ;; mret tt)).
  { intros key task.
    split; (apply preserves_bind; [apply _ | apply kv_set_keeps |]);
      intros _; apply preserves_ret; apply _. }
  destruct a as [key | key | key task |]; cbn [perform]; split.
  - apply preserves_try; try apply _; apply closeTask_keeps.
  - apply preserves_try; try apply _; apply closeTask_keeps.
  - apply preserves_try; try apply _; apply closeTask_keeps.
  - apply preserves_try; try apply _; apply closeTask_keeps.
  - apply preserves_try; try apply _; apply Hcreate.
  - apply preserves_try; try apply _; apply Hcreate.
  - apply preserves_ret; apply _.
  - apply preserves_ret; apply _.
Qed.

Lemma applyUpdate_keeps (P : Platform) (cfg : Config) (u : Update) :
  preserves grows (applyUpdate P cfg u) /\ preserves sameOutbox (applyUpdate P cfg u).
Proof.
  split; (eapply preserves_ext; [intros w; apply applyUpdate_perform|]);
    apply perform_keeps.
Qed.

Lemma fetchLoop_keeps (P : Platform) (fuel : nat) : forall offset all,
  preserves sameLedger (fetchLoop P fuel offset all)
  /\ preserves sameOutbox (fetchLoop P fuel offset all).
Proof.
  induction fuel as [|fuel IH]; intros offset all; cbn [fetchLoop].
  { split; apply preserves_outOfFuel; apply _. }
  split; (apply preserves_bind; [apply _ | apply getUpdates_keeps |]);
    intros [e | ok result json]; try (apply preserves_throw; apply _);
    (destruct (negb ok); [apply preserves_throw; apply _|]);
    (destruct (last result); [|apply preserves_ret; apply _]);
    (destruct (jslength (all ++ result) >? 2000); [apply preserves_ret; apply _|]);
    apply IH.
Qed.

Lemma scanLoop_keeps (P : Platform) (fuel : nat) : forall cursor match_ keys,
  preserves sameLedger (scanLoop P fuel cursor match_ keys).
Proof.
  intros cursor match_ keys w r w' H.
  apply scanLoop_ledger in H. apply H.
Qed.

Lemma readTasks_keeps (P : Platform) (keys : list jsstring) (tasks : list Value) :
  preserves sameLedger (readTasks P keys tasks).
Proof. intros w r w' H. rewrite readTasks_run in H. injection H as _ <-. reflexivity. Qed.

Lemma reportLines_keeps (P : Platform) (cfg : Config) (fuel : nat)
    (drained : list Update) (now : Z) :
  preserves sameLedger (reportLines P cfg fuel drained now).
Proof.
  unfold reportLines. destruct (haveKV cfg); [|apply preserves_ret; apply _].
  apply preserves_bind; [apply _ | | intros tasks; apply preserves_ret; apply _].
  unfold openTasks.
  apply preserves_bind; [apply _ | apply scanLoop_keeps | intros keys].
  apply preserves_bind; [apply _ | apply readTasks_keeps | intros tasks].
  apply preserves_ret; apply _.
Qed.

Lemma sendAll_keeps (P : Platform) (to : jsstring) (f : jsstring -> jsstring)
    (chunks : list jsstring) :
  preserves sameLedger (forEach (fun chunk => sendMessage P to (f chunk)) chunks).
Proof. apply preserves_forEach; [apply _|]. intros c. apply sendMessage_keeps. Qed.

Lemma notify_keeps (P : Platform) (cfg : Config) (err : exn) :
  preserves sameLedger
    (try_ (if envTruthy (TG_TOKEN cfg) && envTruthy (ADMIN_CHAT_ID cfg)
           then sendMessage P (ADMIN cfg)
                  (lit "Cron error: "
                     ++ htmlEscape (if truthy (errMessage err) then errMessage err
                                    else errString err))
           else mret tt) ;;
     mret {| status := 500; body := BodyError (errString err) |}).
Proof.
  apply preserves_bind; [apply _ | | intros _; apply preserves_ret; apply _].
  apply preserves_try; try apply _.
  destruct (_ && _); [apply sendMessage_keeps | apply preserves_ret; apply _].
Qed.

Lemma handler_keeps (P : Platform) (cfg : Config) (fuel : nat) (req : Request) :
  preserves grows (handler P cfg fuel req)
  /\ (haveKV cfg = false -> preserves sameLedger (handler P cfg fuel req)).
Proof.
  assert (Hbody : forall R, PreOrder R ->
            (forall w w', sameLedger w w' -> R w w') ->
            (forall us, preserves R
               (if haveKV cfg then forEach (applyUpdate P cfg) us else mret tt)) ->
            preserves R (handler P cfg fuel req)).
  { intros R HR Hsub Hloop. unfold handler.
    apply preserves_tryCatch; [exact HR | |].
    2:{ intros err. eapply preserves_weaken; [exact Hsub | apply notify_keeps]. }
    unfold handlerBody.
    destruct (unauthorized cfg req); [apply preserves_ret; exact HR|].
    destruct (negb _ || negb _); [apply preserves_ret; exact HR|].
    apply preserves_bind; [exact HR | |].
    { eapply preserves_weaken; [exact Hsub | apply fetchLoop_keeps]. }
    intros drained.
    apply preserves_bind; [exact HR | apply Hloop |]. intros _.
    apply preserves_bind; [exact HR | |].
    { eapply preserves_weaken; [exact Hsub | apply Date_now_keeps]. }
    intros now.
    apply preserves_bind; [exact HR | |].
    { eapply preserves_weaken; [exact Hsub | apply reportLines_keeps]. }
    intros [lines header].
    apply preserves_bind; [exact HR | |].
    { eapply preserves_weaken; [exact Hsub | apply sendAll_keeps]. }
    intros _. apply preserves_ret; exact HR. }
  split.
  - apply Hbody; [apply _ | apply sameLedger_grows |].
    intros us. destruct (haveKV cfg); [|apply preserves_ret; apply _].
    apply preserves_forEach; [apply _|]. intros u. apply applyUpdate_keeps.
  - intros Hkv. apply Hbody; [apply _ | auto |].
    intros us. rewrite Hkv. apply preserves_ret; apply _.
Qed.

(** X16. No run of the handler removes a record of the ledger, however it
    ends: with 200, with an error answer after a failure half way, or cut
    short. *)
Theorem handler_never_loses_a_record (P : Platform) (cfg : Config) (fuel : nat)
    (req : Request) (w w' : World) (r : outcome Response) (k : jsstring) :
  handler P cfg fuel req w = (r, w') ->
  is_Some (ledger w !! k) ->
  is_Some (ledger w' !! k).
Proof. intros H. exact (proj1 (handler_keeps P cfg fuel req) w r w' H k). Qed.

Lemma handler_never_loses_a_record_witness :
  is_Some (ledger (snd (handler P2 cfg0 5 req0 wClosed)) !! taskKey 42 7).
Proof.
  apply (handler_never_loses_a_record P2 cfg0 5 req0 wClosed _
           (fst (handler P2 cfg0 5 req0 wClosed))).
  - apply surjective_pairing.
  - exists (SJson tClosed). apply lookup_singleton_eq.
Defined.

Lemma returns_bind {A B} (Q : B -> Prop) (m : M A) (f : A -> M B) :
  (forall a, returns Q (f a)) -> returns Q (m ≫= f).
Proof.
  intros Hf w b w'. unfold mbind, M_bind.
  destruct (m w) as [[a | e |] w1]; try discriminate. apply Hf.
Qed.

Lemma returns_ret {A} (Q : A -> Prop) (a : A) : Q a -> returns Q (mret a).
Proof. intros H w a' w'. unfold mret, M_ret. now intros [= <- _]. Qed.

Lemma noFuel_bind {A B} (m : M A) (f : A -> M B) :
  noFuel m -> (forall a, noFuel (f a)) -> noFuel (m ≫= f).
Proof.
  intros Hm Hf w w'. unfold mbind, M_bind.
  destruct (m w) as [[a | e |] w1] eqn:E; [apply Hf | discriminate |].
  exfalso. exact (Hm _ _ E).
Qed.

Lemma noFuel_ret {A} (a : A) : noFuel (mret a).
Proof. intros w w'. unfold mret, M_ret. discriminate. Qed.

Lemma noFuel_forEach {A} (f : A -> M unit) (l : list A) :
  (forall a, noFuel (f a)) -> noFuel (forEach f l).
Proof.
  intros Hf. induction l as [|x l IH]; [apply noFuel_ret|].
  cbn [forEach]. apply noFuel_bind; [apply Hf | intros _; exact IH].
Qed.

Lemma sendMessage_noFuel (P : Platform) (to msg : jsstring) : noFuel (sendMessage P to msg).
Proof. intros w w'. unfold sendMessage. destruct (send_error P (tick w)); discriminate. Qed.

Lemma fetchAllUpdates_noFuel (P : Platform) (start : option Z) :
  noFuel (fetchAllUpdates P start).
Proof.
  intros w w'. unfold fetchAllUpdates.
  destruct (fetchLoop_spec P 2001 start [] w) as (bs & t' & off' & _ & _ & Hout).
  { unfold jslength. cbn. lia. }
  { cbn. lia. }
  destruct Hout as [[_ ->] | [(_ & json & _ & ->) | (_ & e & _ & ->)]]; discriminate.
Qed.

Lemma applyAll_noFuel (P : Platform) (cfg : Config) (us : list Update) :
  noFuel (forEach (applyUpdate P cfg) us).
Proof. intros w w'. rewrite forEach_applyUpdate. discriminate. Qed.

Lemma handlerBody_returns (P : Platform) (cfg : Config) (fuel : nat) (req : Request) :
  returns wellFormed (handlerBody P cfg fuel req).
Proof.
  unfold handlerBody.
  destruct (unauthorized cfg req).
  { apply returns_ret. right. split; [now left | eauto]. }
  destruct (negb _ || negb _).
  { apply returns_ret. right. split; [now right | eauto]. }
  apply returns_bind. intros drained. apply returns_bind. intros _.
  apply returns_bind. intros now. apply returns_bind. intros [lines header].
  apply returns_bind. intros _. apply returns_ret. left.
  split; [reflexivity|]. eexists _, _. split; [reflexivity|]. unfold jslength. lia.
Qed.

Lemma handlerBody_noFuel (P : Platform) (cfg : Config) (fuel : nat) (req : Request) :
  haveKV cfg = false -> noFuel (handlerBody P cfg fuel req).
Proof.
  intros Hkv. unfold handlerBody.
  destruct (unauthorized cfg req); [apply noFuel_ret|].
  destruct (negb _ || negb _); [apply noFuel_ret|].
  apply noFuel_bind; [apply fetchAllUpdates_noFuel | intros drained].
  apply noFuel_bind; [rewrite Hkv; apply noFuel_ret | intros _].
  apply noFuel_bind; [intros w w'; unfold Date_now; discriminate | intros now].
  apply noFuel_bind; [unfold reportLines; rewrite Hkv; apply noFuel_ret | intros [lines header]].
  apply noFuel_bind; [|intros _; apply noFuel_ret].
  apply noFuel_forEach. intros c. apply sendMessage_noFuel.
Qed.

(** How the handler ends, by how its body ends. *)
Lemma handler_cases (P : Platform) (cfg : Config) (fuel : nat) (req : Request) (w : World) :
  (exists resp w', handlerBody P cfg fuel req w = (Ok resp, w')
                   /\ handler P cfg fuel req w = (Ok resp, w'))
  \/ (exists e w1 w', handlerBody P cfg fuel req w = (Throw e, w1)
                      /\ handler P cfg fuel req w
                         = (Ok {| status := 500; body := BodyError (errString e) |}, w'))
  \/ (exists w', handlerBody P cfg fuel req w = (OutOfFuel, w')
                 /\ handler P cfg fuel req w = (OutOfFuel, w')).
Proof.
  unfold handler, tryCatch.
  destruct (handlerBody P cfg fuel req w) as [[resp | e |] w1].
  - left. eauto.
  - right. left. exists e, w1. unfold mbind, M_bind, try_.
    destruct (envTruthy (TG_TOKEN cfg) && envTruthy (ADMIN_CHAT_ID cfg)).
    + unfold sendMessage. destruct (send_error P (tick w1)); eauto.
    + eauto.
  - right. right. eauto.
Qed.

(** X17. The entry point never raises.  It answers 200 with a summary whose
    counts are not negative, or 401 or 500 with an error text; the one other
    way for it to end is a scan of the store that goes on beyond its fuel,
    which needs a configured store. *)
Theorem handler_always_answers (P : Platform) (cfg : Config) (fuel : nat)
    (req : Request) (w : World) :
  (exists resp w', handler P cfg fuel req w = (Ok resp, w') /\ wellFormed resp)
  \/ (haveKV cfg = true /\ exists w', handler P cfg fuel req w = (OutOfFuel, w')).
Proof.
  destruct (handler_cases P cfg fuel req w)
    as [(resp & w' & Hb & Hh) | [(e & w1 & w' & Hb & Hh) | (w' & Hb & Hh)]].
  - left. exists resp, w'. split; [exact Hh|]. exact (handlerBody_returns _ _ _ _ _ _ _ Hb).
  - left. eexists _, w'. split; [exact Hh|]. right. split; [now right | eauto].
  - right. split; [|eauto].
    destruct (haveKV cfg) eqn:Hkv; [reflexivity|].
    exfalso. exact (handlerBody_noFuel P cfg fuel req Hkv _ _ Hb).
Qed.

(** X18. Without a configured store the handler never reads or writes the
    ledger and always answers; when it answers 200 it reports no more items
    than it checked updates. *)
Theorem handler_without_store (P : Platform) (cfg : Config) (fuel : nat)
    (req : Request) (w : World) :
  haveKV cfg = false ->
  exists resp w',
    handler P cfg fuel req w = (Ok resp, w')
    /\ ledger w' = ledger w
    /\ forall ok checked reported,
         body resp = BodySummary ok checked reported -> 0 <= reported <= checked.
Proof.
  intros Hkv.
  destruct (handler_cases P cfg fuel req w)
    as [(resp & w' & Hb & Hh) | [(e & w1 & w' & Hb & Hh) | (w' & Hb & Hh)]].
  - exists resp, w'. split; [exact Hh|].
    split; [exact (proj2 (handler_keeps P cfg fuel req) Hkv _ _ _ Hh)|].
    revert Hb. clear Hh. unfold handlerBody.
    destruct (unauthorized cfg req); [unfold mret, M_ret; intros [= <- _]; discriminate|].
    destruct (negb _ || negb _); [unfold mret, M_ret; intros [= <- _]; discriminate|].
    rewrite Hkv. unfold reportLines. rewrite Hkv. unfold mbind, M_bind, mret, M_ret, Date_now.
    destruct (fetchAllUpdates P None w) as [[drained | e |] w1]; try discriminate.
    match goal with |- context [forEach ?f ?c ?w0] => destruct (forEach f c w0) as [[[] | e |] w2] end;
      try discriminate.
    intros [= <- _] ok checked reported [= _ <- <-].
    unfold jslength. rewrite length_map. split; [lia|].
    apply inj_le, List.filter_length_le.
  - eexists _, w'. split; [exact Hh|].
    split; [exact (proj2 (handler_keeps P cfg fuel req) Hkv _ _ _ Hh)|].
    intros ok checked reported H. discriminate H.
  - exfalso. exact (handlerBody_noFuel P cfg fuel req Hkv _ _ Hb).
Qed.

Lemma handler_without_store_witness :
  exists resp w',
    handler P1 cfgNoStore 0 req0 wClosed = (Ok resp, w')
    /\ ledger w' = ledger wClosed
    /\ forall ok checked reported,
         body resp = BodySummary ok checked reported -> 0 <= reported <= checked.
Proof. apply (handler_without_store P1 cfgNoStore 0 req0 wClosed). reflexivity. Defined.

(** ** Failures seen from the entry point *)

Lemma fetchLoop_step (P : Platform) (fuel : nat) (offset : option Z) (all : list Update)
    (w : World) :
  fetchLoop P (S fuel) offset all w =
  match feed P (tick w) offset with
  | FeedReject e => (Throw e, bump w)
  | FeedReply false _ json =>
      (Throw (Error (lit "Error") (lit "getUpdates error: " ++ json)), bump w)
  | FeedReply true result _ =>
      match last result with
      | None => (Ok {| updates := all; nextOffset := offset |}, bump w)
      | Some lastUpdate =>
          if jslength (all ++ result) >? 2000
          then (Ok {| updates := all ++ result;
                      nextOffset := Some (update_id lastUpdate + 1) |}, bump w)
          else fetchLoop P fuel (Some (update_id lastUpdate + 1)) (all ++ result) (bump w)
      end
  end.
Proof.
  cbn [fetchLoop]. unfold getUpdates. unfoldM.
  destruct (feed P (tick w) offset) as [e | [|] result json]; try reflexivity.
  cbn [negb]. destruct (last result); [|reflexivity].
  destruct (jslength (all ++ result) >? 2000); reflexivity.
Qed.

Lemma fetchAllUpdates_first (P : Platform) (w : World) (e : exn) :
  (feed P (tick w) None = FeedReject e
   \/ exists result json,
        feed P (tick w) None = FeedReply false result json
        /\ e = Error (lit "Error") (lit "getUpdates error: " ++ json)) ->
  fetchAllUpdates P None w = (Throw e, bump w).
Proof.
  intros Hfeed. unfold fetchAllUpdates.
  change (fetchLoop P 2001) with (fetchLoop P (S 2000)). rewrite fetchLoop_step.
  destruct Hfeed as [-> | (result & json & -> & ->)]; reflexivity.
Qed.

(** X19. When the first call to the feed fails, or its reply is not ok, the
    run stops there: nothing is read from or written to the store, the answer
    is 500 with the text of the error, and one notice goes to the admin chat,
    whose own failure is swallowed. *)
Theorem feed_failure_answers_500 (P : Platform) (cfg : Config) (fuel : nat)
    (req : Request) (w : World) (e : exn) :
  unauthorized cfg req = false ->
  envTruthy (TG_TOKEN cfg) = true ->
  envTruthy (ADMIN_CHAT_ID cfg) = true ->
  (feed P (tick w) None = FeedReject e
   \/ exists result json,
        feed P (tick w) None = FeedReply false result json
        /\ e = Error (lit "Error") (lit "getUpdates error: " ++ json)) ->
  handler P cfg fuel req w =
    (Ok {| status := 500; body := BodyError (errString e) |},
     match send_error P (S (tick w)) with
     | None =>
         {| ledger := ledger w; tick := S (S (tick w));
            outbox := outbox w
                        ++ [(ADMIN cfg,
                             lit "Cron error: "
                               ++ htmlEscape (if truthy (errMessage e) then errMessage e
                                              else errString e))] |}
     | Some _ => bump (bump w)
     end).
Proof.
  intros Hauth Htg Hadmin Hfeed.
  pose proof (fetchAllUpdates_first P w e Hfeed) as Hfetch.
  assert (Hbody : handlerBody P cfg fuel req w = (Throw e, bump w)).
  { unfold handlerBody. rewrite Hauth, Htg, Hadmin. cbn [negb orb].
    unfold mbind at 1, M_bind at 1. now rewrite Hfetch. }
  unfold handler, tryCatch. rewrite Hbody, Htg, Hadmin. cbn [andb].
  unfold mbind, M_bind, try_, sendMessage. cbn [bump tick ledger outbox].
  destruct (send_error P (S (tick w))); reflexivity.
Qed.

Lemma feed_failure_answers_500_witness :
  fst (handler
         {| feed := fun _ _ => FeedReply false [] (lit "{}");
            kv_error := fun _ => None; scan_reply := fun _ _ _ => None;
            send_error := fun _ => None; clock := fun _ => 0;
            toISOString := fun _ => None;
            sort_choice := fun _ => 0%nat |} cfg0 5 req0 w0)
  = Ok {| status := 500; body := BodyError (lit "Error: getUpdates error: {}") |}.
Proof.
  rewrite (feed_failure_answers_500 _ cfg0 5 req0 w0
             (Error (lit "Error") (lit "getUpdates error: " ++ lit "{}"))).
  - reflexivity.
  - reflexivity.
  - reflexivity.
  - reflexivity.
  - right. exists [], (lit "{}"). split; reflexivity.
Defined.

Lemma stepWorld_store_down (P : Platform) (cfg : Config) (us : list Update) :
  (forall n, kv_error P n <> None) ->
  forall w, ledger (fold_left (stepWorld P cfg) us w) = ledger w.
Proof.
  intros Hdown. induction us as [|u us IH]; intros w; [reflexivity|].
  cbn [fold_left]. rewrite IH, stepWorld_ledger.
  specialize (Hdown (tick w)).
  destruct (classify cfg u); destruct (kv_error P (tick w)); congruence.
Qed.

(** X20. A store that is configured but does not answer is not an error for
    the run: every update is dropped, the scan gives no key, and the handler
    answers 200 with zero open tasks, the ledger being as before. *)
Theorem store_outage_reports_nothing (P : Platform) (cfg : Config) (fuel : nat)
    (req : Request) (w w1 : World) (drained : Drained) :
  unauthorized cfg req = false ->
  envTruthy (TG_TOKEN cfg) = true ->
  envTruthy (ADMIN_CHAT_ID cfg) = true ->
  haveKV cfg = true ->
  fetchAllUpdates P None w = (Ok drained, w1) ->
  (forall n, kv_error P n <> None) ->
  (forall n, send_error P n = None) ->
  exists w',
    handler P cfg (S fuel) req w
    = (Ok {| status := 200;
             body := BodySummary true (jslength (updates drained)) 0 |}, w')
    /\ ledger w' = ledger w.
Proof.
  intros Hauth Htg Hadmin Hkv Hfetch Hdown Hsend.
  set (w2 := applied P cfg (updates drained) w1).
  assert (Hrep : reportLines P cfg (S fuel) (updates drained) (clock P (tick w2)) w2
                 = (Ok ([], openHeader 0), bump w2)).
  { unfold reportLines, openTasks. rewrite Hkv. cbn [scanLoop].
    unfold kv_scan. unfoldM. specialize (Hdown (tick w2)).
    destruct (kv_error P (tick w2)); [|congruence]. reflexivity. }
  destruct (handlerBody_ok P cfg (S fuel) req w w1 (bump w2) drained [] (openHeader 0)
              Hauth Htg Hadmin Hfetch Hrep Hsend) as (w4 & Hrun & Hl).
  exists w4. split.
  - unfold handler, tryCatch. rewrite Hrun. reflexivity.
  - rewrite Hl. cbn [bump ledger]. unfold w2, applied. rewrite Hkv.
    rewrite stepWorld_store_down by exact Hdown.
    exact (proj1 (fetchLoop_keeps P 2001 None []) _ _ _ Hfetch).
Qed.

Lemma store_outage_reports_nothing_witness :
  exists w',
    handler {| feed := feed P2; kv_error := fun _ => Some (Error (lit "Error") (lit "down"));
               scan_reply := scan_reply P2; send_error := fun _ => None;
               clock := clock P2; toISOString := toISOString P2;
               sort_choice := sort_choice P2 |} cfg0 1 req0 wClosed
    = (Ok {| status := 200; body := BodySummary true 2 0 |}, w')
    /\ ledger w' = ledger wClosed.
Proof.
  refine (store_outage_reports_nothing _ cfg0 0 req0 wClosed _
            {| updates := [uCreate; uReact]; nextOffset := Some 103 |}
            eq_refl eq_refl eq_refl eq_refl _ _ _).
  - vm_compute. reflexivity.
  - intros n. discriminate.
  - intros n. reflexivity.
Defined.

(** ** What a successful run sends *)

Lemma sendAll_ok_outbox (P : Platform) (to : jsstring) (f : jsstring -> jsstring)
    (chunks : list jsstring) : forall w w',
  forEach (fun chunk => sendMessage P to (f chunk)) chunks w = (Ok tt, w') ->
  outbox w' = outbox w ++ map (fun c => (to, f c)) chunks.
Proof.
  induction chunks as [|c chunks IH]; intros w w'; cbn [forEach map].
  - unfold mret, M_ret. intros [= <-]. now rewrite app_nil_r.
  - unfold mbind, M_bind, sendMessage.
    destruct (send_error P (tick w)); [discriminate|].
    intros H. apply IH in H. rewrite H. cbn [outbox]. now rewrite <- app_assoc.
Qed.

Lemma chunkMessages_concat (lines : list jsstring) (maxLen : Z) :
  concat (chunkMessages lines maxLen) = render lines.
Proof.
  destruct (chunkLoop_groups maxLen lines [] []) as (gs & g & Heq & Hcat & _ & Hg);
    [constructor | now left |].
  cbn in Heq, Hcat. unfold chunkMessages. rewrite Heq. rewrite <- Hcat.
  destruct (truthy (render g)) eqn:Et.
  - rewrite concat_app, render_concat. cbn [concat]. rewrite app_nil_r.
    unfold render. now rewrite flat_map_app.
  - assert (g = []) as ->.
    { destruct Hg as [-> | [Hne _]]; [reflexivity|].
      rewrite render_truthy in Et by exact Hne. discriminate. }
    rewrite app_nil_r. apply render_concat.
Qed.

Lemma reportLines_outbox (P : Platform) (cfg : Config) (fuel : nat)
    (drained : list Update) (now : Z) :
  preserves sameOutbox (reportLines P cfg fuel drained now).
Proof.
  unfold reportLines. destruct (haveKV cfg); [|apply preserves_ret; apply _].
  apply preserves_bind; [apply _ | | intros tasks; apply preserves_ret; apply _].
  unfold openTasks. apply preserves_bind; [apply _ | | intros keys].
  { intros w r w' H. apply scanLoop_ledger in H. apply H. }
  apply preserves_bind; [apply _ | | intros tasks; apply preserves_ret; apply _].
  intros w r w' H. rewrite readTasks_run in H. injection H as _ <-. reflexivity.
Qed.

Lemma reportLines_header (P : Platform) (cfg : Config) (fuel : nat)
    (drained : list Update) (now : Z) :
  returns (fun report => truthy (snd report) = true)
    (reportLines P cfg fuel drained now).
Proof.
  unfold reportLines. destruct (haveKV cfg).
  - apply returns_bind. intros tasks. now apply returns_ret.
  - now apply returns_ret.
Qed.

(** X21. A run that answers 200 has sent its report and nothing else: the
    new messages all go to the admin chat, each is a chunk between the two
    direction marks, there is at least one, and joined they are the header
    line, then, if anything is listed, an empty line and the listed lines;
    the count reported is the number of these lines.  The text "No data" is
    never sent. *)
Theorem successful_run_sends_report (P : Platform) (cfg : Config) (fuel : nat)
    (req : Request) (w w' : World) (resp : Response) :
  handler P cfg fuel req w = (Ok resp, w') ->
  status resp = 200 ->
  exists lines header checked,
    let payload := header :: match lines with [] => [] | _ :: _ => [] :: lines end in
    body resp = BodySummary true checked (jslength lines)
    /\ header <> []
    /\ outbox w'
       = outbox w ++ map (fun c => (ADMIN cfg, [RLE] ++ c ++ [PDF]))
                         (chunkMessages payload 3800)
    /\ chunkMessages payload 3800 <> []
    /\ concat (chunkMessages payload 3800) = render payload.
Proof.
  intros Hh Hst.
  destruct (handler_cases P cfg fuel req w)
    as [(resp0 & w0' & Hb & Hh') | [(e & w1 & w0' & Hb & Hh') | (w0' & Hb & Hh')]];
    rewrite Hh in Hh'; try discriminate Hh'.
  2:{ injection Hh' as -> _. discriminate Hst. }
  injection Hh' as <- <-. clear Hh. revert Hb. unfold handlerBody.
  destruct (unauthorized cfg req).
  { unfold mret, M_ret. intros [= <- _]. discriminate Hst. }
  destruct (negb _ || negb _).
  { unfold mret, M_ret. intros [= <- _]. discriminate Hst. }
  unfold mbind at 1, M_bind at 1.
  destruct (fetchAllUpdates P None w) as [[drained | e |] w1] eqn:Hfetch; try discriminate.
  unfold mbind at 1, M_bind at 1.
  destruct ((if haveKV cfg then forEach (applyUpdate P cfg) (updates drained) else mret tt) w1)
    as [[[] | e |] w2] eqn:Happly; try discriminate.
  unfold mbind at 1, M_bind at 1, Date_now.
  unfold mbind at 1, M_bind at 1.
  destruct (reportLines P cfg fuel (updates drained) (clock P (tick w2)) w2)
    as [[[lines header] | e |] w3] eqn:Hrep; try discriminate.
  pose proof (reportLines_header _ _ _ _ _ _ _ _ Hrep) as Hhead. cbn [snd] in Hhead.
  rewrite Hhead. cbn [app].
  unfold mbind, M_bind.
  match goal with
  | |- context [forEach ?f ?chunks w3] =>
      destruct (forEach f chunks w3) as [[[] | e |] w4] eqn:Hsend
  end; try discriminate.
  unfold mret, M_ret. intros [= <- <-].
  exists lines, header, (jslength (updates drained)). cbn zeta.
  split; [reflexivity|].
  split; [intros ->; discriminate Hhead|].
  assert (Ho1 : outbox w1 = outbox w)
    by exact (proj2 (fetchLoop_keeps P 2001 None []) _ _ _ Hfetch).
  assert (Ho2 : outbox w2 = outbox w1).
  { destruct (haveKV cfg).
    - refine (preserves_forEach sameOutbox _ _ _ _ _ _ Happly).
      intros u. apply applyUpdate_keeps.
    - unfold mret, M_ret in Happly. now injection Happly as <-. }
  assert (Ho3 : outbox w3 = outbox w2) by exact (reportLines_outbox _ _ _ _ _ _ _ _ Hrep).
  apply sendAll_ok_outbox in Hsend.
  split; [rewrite Hsend, Ho3, Ho2, Ho1; reflexivity|].
  split; [|apply chunkMessages_concat].
  intros Hnil.
  pose proof (chunkMessages_concat
                (header :: match lines with [] => [] | _ :: _ => [] :: lines end) 3800) as Hc.
  rewrite Hnil in Hc. cbn in Hc. destruct header; discriminate.
Qed.

Lemma successful_run_sends_report_witness :
  exists lines header checked,
    let payload := header :: match lines with [] => [] | _ :: _ => [] :: lines end in
    body {| status := 200; body := BodySummary true 1 1 |}
      = BodySummary true checked (jslength lines)
    /\ header <> []
    /\ outbox (snd (handler P1 cfgNoStore 0 req0 w0))
       = outbox w0 ++ map (fun c => (ADMIN cfgNoStore, [RLE] ++ c ++ [PDF]))
                          (chunkMessages payload 3800)
    /\ chunkMessages payload 3800 <> []
    /\ concat (chunkMessages payload 3800) = render payload.
Proof.
  apply (successful_run_sends_report P1 cfgNoStore 0 req0 w0
           (snd (handler P1 cfgNoStore 0 req0 w0))
           {| status := 200; body := BodySummary true 1 1 |}).
  - vm_compute. reflexivity.
  - reflexivity.
Defined.

(** ** The scan of the keys *)

Lemma atTick_same (w : World) : atTick w (tick w + 0) = w.
Proof. destruct w. unfold atTick. cbn. now rewrite Nat.add_0_r. Qed.

Lemma atTick_bump (w : World) (n : nat) : atTick (bump w) n = atTick w n.
Proof. reflexivity. Qed.

(** The pages before the last, when a page is put in front. *)
Lemma removelast_going (pg : jsstring * list jsstring)
    (pages : list (jsstring * list jsstring)) (keys : list jsstring) :
  fst pg <> lit "0" -> jslength keys < 5000 ->
  Forall (fun pg => fst pg <> lit "0") (removelast pages) ->
  jslength ((keys ++ snd pg) ++ pageKeys (removelast pages)) < 5000 ->
  Forall (fun pg => fst pg <> lit "0") (removelast (pg :: pages))
  /\ jslength (keys ++ pageKeys (removelast (pg :: pages))) < 5000.
Proof.
  intros Hnz Hkeys Hall Hcap. destruct pages as [|pg2 rest].
  - cbn. rewrite app_nil_r. split; [constructor | exact Hkeys].
  - change (removelast (pg :: pg2 :: rest)) with (pg :: removelast (pg2 :: rest)).
    split; [now constructor|]. unfold pageKeys in *. cbn [map concat].
    now rewrite app_assoc.
Qed.

(** X22. The enumeration of the keys never raises, and what it returns is
    what the store answered: the keys it started from followed by the keys
    of the pages it was given, in order.  Started below the cap of 5000
    keys, it asks for another page only after a page whose cursor is not [0]
    and while fewer than 5000 keys are gathered, so the result goes beyond
    the cap by the last page at most.  It ends at a page with the cursor [0],
    at a page that brings the number of keys to 5000 or more, or at a
    failing call, which leaves the keys gathered so far; in the model it can
    also run out of fuel, after as many pages as it had fuel. *)
Theorem scanLoop_bounded (P : Platform) (fuel : nat) :
  forall (cursor match_ : jsstring) (keys : list jsstring) (w : World),
    jslength keys < 5000 ->
    exists pages,
      paged P match_ (tick w) cursor pages
      /\ Forall (fun pg => fst pg <> lit "0") (removelast pages)
      /\ jslength (keys ++ pageKeys (removelast pages)) < 5000
      /\ (((exists pg, last pages = Some pg
                       /\ (fst pg = lit "0"
                           \/ 5000 <= jslength (keys ++ pageKeys pages)))
           /\ (length pages <= fuel)%nat
           /\ scanLoop P fuel cursor match_ keys w
              = (Ok (keys ++ pageKeys pages), atTick w (tick w + length pages)))
          \/ ((exists e, kv_error P (tick w + length pages) = Some e)
              /\ (length pages < fuel)%nat
              /\ Forall (fun pg => fst pg <> lit "0") pages
              /\ jslength (keys ++ pageKeys pages) < 5000
              /\ scanLoop P fuel cursor match_ keys w
                 = (Ok (keys ++ pageKeys pages), atTick w (S (tick w + length pages))))
          \/ (length pages = fuel
              /\ Forall (fun pg => fst pg <> lit "0") pages
              /\ jslength (keys ++ pageKeys pages) < 5000
              /\ scanLoop P fuel cursor match_ keys w
                 = (OutOfFuel, atTick w (tick w + length pages)))).
Proof.
  induction fuel as [|fuel IH]; intros cursor match_ keys w Hkeys.
  { exists []. cbn [paged removelast length]. unfold pageKeys. cbn [map concat].
    rewrite app_nil_r, atTick_same.
    split; [exact I|]. split; [constructor|]. split; [exact Hkeys|].
    right. right. split; [reflexivity|]. split; [constructor|]. split; [exact Hkeys|].
    reflexivity. }
  destruct (kv_error P (tick w)) as [e|] eqn:Hup.
  { exists []. cbn [paged removelast length]. unfold pageKeys. cbn [map concat].
    rewrite app_nil_r, Nat.add_0_r.
    split; [exact I|]. split; [constructor|]. split; [exact Hkeys|].
    right. left. split; [eauto|]. split; [lia|]. split; [constructor|].
    split; [exact Hkeys|]. rewrite (scanLoop_fails P fuel cursor match_ keys w e Hup).
    reflexivity. }
  rewrite scanLoop_step by exact Hup. cbv zeta.
  set (pg := scanPage P (tick w) cursor match_).
  destruct (bool_decide (fst pg = lit "0")) eqn:Ez; cbn [negb andb].
  { apply bool_decide_eq_true_1 in Ez.
    exists [pg]. cbn [paged removelast length]. unfold pageKeys. cbn [map concat].
    rewrite !app_nil_r.
    split; [now repeat split|]. split; [constructor|]. split; [exact Hkeys|].
    left. split; [exists pg; split; [reflexivity | now left]|]. split; [lia|].
    f_equal. unfold atTick, bump. f_equal. lia. }
  apply bool_decide_eq_false_1 in Ez.
  destruct (jslength (keys ++ snd pg) <? 5000) eqn:Ecap.
  2:{ apply Z.ltb_ge in Ecap.
      exists [pg]. cbn [paged removelast length]. unfold pageKeys. cbn [map concat].
      rewrite !app_nil_r.
      split; [now repeat split|]. split; [constructor|]. split; [exact Hkeys|].
      left. split; [exists pg; split; [reflexivity | right; lia]|]. split; [lia|].
      f_equal. unfold atTick, bump. f_equal. lia. }
  apply Z.ltb_lt in Ecap.
  destruct (IH (fst pg) match_ (keys ++ snd pg) (bump w) Ecap)
    as (pages & Hpaged & Hnz & Hbelow & Hend).
  destruct (removelast_going pg pages keys Ez Hkeys Hnz Hbelow) as [Hnz' Hbelow'].
  assert (Hall : keys ++ pageKeys (pg :: pages) = (keys ++ snd pg) ++ pageKeys pages).
  { unfold pageKeys. cbn [map concat]. now rewrite app_assoc. }
  assert (Htick : forall n, atTick (bump w) (tick (bump w) + n) = atTick w (tick w + S n)).
  { intros n. unfold atTick, bump. cbn [ledger tick outbox]. f_equal. lia. }
  assert (HtickS : forall n,
            atTick (bump w) (S (tick (bump w) + n)) = atTick w (S (tick w + S n))).
  { intros n. unfold atTick, bump. cbn [ledger tick outbox]. f_equal. lia. }
  exists (pg :: pages).
  split; [cbn [paged]; now repeat split|]. split; [exact Hnz'|]. split; [exact Hbelow'|].
  rewrite Hall. cbn [length].
  destruct Hend as [((lp & Hlast & Hstop) & Hlen & ->)
                   | [((e & He) & Hlen & Hgo & Hlt & ->)
                     | (Hlen & Hgo & Hlt & ->)]].
  - left. split; [|split; [lia | now rewrite Htick]].
    exists lp. split; [|exact Hstop].
    destruct pages as [|pg2 rest]; [discriminate Hlast | exact Hlast].
  - right. left. split; [|split; [lia|split; [now constructor|split; [exact Hlt|]]]].
    + exists e. cbn [bump tick] in He. now replace (tick w + S (length pages))%nat
        with (S (tick w) + length pages)%nat by lia.
    + now rewrite HtickS.
  - right. right. split; [lia|]. split; [now constructor|]. split; [exact Hlt|].
    now rewrite Htick.
Qed.

(** The scan of the ledger of three tasks, which the store answers in two
    pages, the second with the cursor [0]. *)
Example scanLoop_example :
  scanLoop P3 5 (lit "0") (lit "task:42:*") [] wBook
  = (Ok [taskKey 42 9; taskKey 42 7; taskKey 42 8], atTick wBook 2).
Proof. vm_compute. reflexivity. Qed.

Lemma scanLoop_bounded_witness :
  exists pages,
    paged P3 (lit "task:42:*") 0 (lit "0") pages
    /\ Forall (fun pg => fst pg <> lit "0") (removelast pages)
    /\ jslength ([] ++ pageKeys (removelast pages)) < 5000
    /\ (((exists pg, last pages = Some pg
                     /\ (fst pg = lit "0" \/ 5000 <= jslength ([] ++ pageKeys pages)))
         /\ (length pages <= 5)%nat
         /\ scanLoop P3 5 (lit "0") (lit "task:42:*") [] wBook
            = (Ok ([] ++ pageKeys pages), atTick wBook (0 + length pages)))
        \/ ((exists e, kv_error P3 (0 + length pages) = Some e)
            /\ (length pages < 5)%nat
            /\ Forall (fun pg => fst pg <> lit "0") pages
            /\ jslength ([] ++ pageKeys pages) < 5000
            /\ scanLoop P3 5 (lit "0") (lit "task:42:*") [] wBook
               = (Ok ([] ++ pageKeys pages), atTick wBook (S (0 + length pages))))
        \/ (length pages = 5%nat
            /\ Forall (fun pg => fst pg <> lit "0") pages
            /\ jslength ([] ++ pageKeys pages) < 5000
            /\ scanLoop P3 5 (lit "0") (lit "task:42:*") [] wBook
               = (OutOfFuel, atTick wBook (0 + length pages)))).
Proof. apply (scanLoop_bounded P3 5 (lit "0") (lit "task:42:*") [] wBook). reflexivity. Defined.

(** ** How lines are packed into chunks *)

Lemma packed_snoc_new (maxLen : Z) (xs : list (list jsstring)) (g : list jsstring)
    (l : jsstring) :
  packed maxLen (xs ++ [g]) ->
  maxLen < jslength (render g) + jslength l + 1 ->
  packed maxLen ((xs ++ [g]) ++ [[l]]).
Proof.
  intros Hp Hover. induction xs as [|x xs IH].
  - cbn. auto.
  - cbn [app] in *. destruct xs as [|y xs'].
    + cbn [app packed] in *. destruct g as [|l0 g']; [auto|].
      destruct Hp as [H1 _]. auto.
    + cbn [app packed] in *. destruct y as [|l0 y'].
      * apply IH. exact Hp.
      * destruct Hp as [H1 H2]. split; [exact H1 | apply IH; exact H2].
Qed.

Lemma packed_snoc_ext (maxLen : Z) (xs : list (list jsstring)) (g : list jsstring)
    (l : jsstring) :
  g <> [] ->
  packed maxLen (xs ++ [g]) ->
  packed maxLen (xs ++ [g ++ [l]]).
Proof.
  intros Hg Hp. induction xs as [|x xs IH].
  - cbn. exact I.
  - cbn [app] in *. destruct xs as [|y xs'].
    + cbn [app packed] in *. destruct g as [|l0 g']; [congruence|].
      cbn [app]. destruct Hp as [H1 _]. auto.
    + cbn [app packed] in *. destruct y as [|l0 y'].
      * apply IH. exact Hp.
      * destruct Hp as [H1 H2]. split; [exact H1 | apply IH; exact H2].
Qed.

Lemma chunkLoop_packed maxLen lines : forall gs g,
  Forall (fun x => x <> []) gs ->
  (g = [] -> gs = []) ->
  packed maxLen (gs ++ [g]) ->
  exists gs' g',
    chunkLoop maxLen lines (map render gs) (render g) = (map render gs', render g')
    /\ concat gs' ++ g' = concat gs ++ g ++ lines
    /\ Forall (fun x => x <> []) gs'
    /\ (g' = [] -> gs' = [])
    /\ packed maxLen (gs' ++ [g']).
Proof.
  induction lines as [|line rest IH]; intros gs g Hne Hg Hp.
  - exists gs, g. cbn. rewrite app_nil_r. auto.
  - cbn [chunkLoop]. rewrite truthy_id.
    assert (g = [] \/ g <> []) as [Hg0 | Hg0]
      by (destruct g; [left | right]; congruence).
    + subst g. rewrite (Hg eq_refl) in *. cbn [render flat_map truthy map app].
      destruct (jslength (line ++ [10]) >? maxLen).
      * destruct (IH [] [line]) as (gs' & g' & Heq & Hcat & Hne' & Hg' & Hp');
          [constructor | discriminate | exact I |].
        exists gs', g'. cbn [render flat_map map] in Heq. rewrite app_nil_r in Heq.
        rewrite Heq. auto.
      * destruct (IH [] [line]) as (gs' & g' & Heq & Hcat & Hne' & Hg' & Hp');
          [constructor | discriminate | exact I |].
        exists gs', g'. cbn [render flat_map map] in Heq. rewrite app_nil_r in Heq.
        rewrite Heq. auto.
    + destruct (jslength (render g ++ line ++ [10]) >? maxLen) eqn:Hover.
      * apply Z.gtb_lt in Hover. rewrite (render_truthy g) by exact Hg0.
        destruct (IH (gs ++ [g]) [line]) as (gs' & g' & Heq & Hcat & Hne' & Hg' & Hp').
        { apply Forall_app. split; [exact Hne | constructor; [exact Hg0 | constructor]]. }
        { discriminate. }
        { apply packed_snoc_new; [exact Hp|].
          unfold jslength in *. rewrite !length_app in Hover. cbn [length] in Hover. lia. }
        exists gs', g'. rewrite map_app in Heq. cbn [map] in Heq.
        change (render [line]) with ((line ++ [10]) ++ []) in Heq.
        rewrite app_nil_r in Heq. rewrite Heq. repeat split; auto.
        rewrite Hcat, concat_app. cbn. rewrite app_nil_r, <- !app_assoc. reflexivity.
      * rewrite <- render_snoc.
        destruct (IH gs (g ++ [line])) as (gs' & g' & Heq & Hcat & Hne' & Hg' & Hp').
        { exact Hne. }
        { intros H. destruct g; discriminate. }
        { apply packed_snoc_ext; assumption. }
        exists gs', g'. rewrite Heq. repeat split; auto.
        rewrite Hcat, <- !app_assoc. reflexivity.
Qed.

Lemma groups_count (gs : list (list jsstring)) :
  Forall (fun x => x <> []) gs -> (length gs <= length (concat gs))%nat.
Proof.
  induction 1 as [|g gs Hg Hgs IH]; [cbn; lia|].
  cbn [concat length]. rewrite length_app. destruct g; [congruence|]. cbn [length]. lia.
Qed.

Lemma render_length_app (a b : list jsstring) :
  jslength (render (a ++ b)) = jslength (render a) + jslength (render b).
Proof.
  unfold render, jslength. rewrite flat_map_app, length_app. lia.
Qed.

(** X23. Lines are packed greedily: the chunks are consecutive non-empty
    runs of whole lines, and a line opens a new chunk only when it did not
    fit, with its newline, at the end of the chunk before.  So there are at
    most as many chunks as lines, none for no line, and exactly one when the
    whole text fits the bound. *)
Theorem chunkMessages_packs (lines : list jsstring) (maxLen : Z) :
  (exists groups,
     concat groups = lines
     /\ chunkMessages lines maxLen = map render groups
     /\ Forall (fun g => g <> []) groups
     /\ packed maxLen groups)
  /\ (length (chunkMessages lines maxLen) <= length lines)%nat
  /\ (lines = [] -> chunkMessages lines maxLen = [])
  /\ (lines <> [] -> jslength (render lines) <= maxLen ->
      chunkMessages lines maxLen = [render lines]).
Proof.
  destruct (chunkLoop_packed maxLen lines [] []) as (gs & g & Heq & Hcat & Hne & Hg & Hp);
    [constructor | reflexivity | exact I |].
  cbn in Heq, Hcat.
  assert (Hall : exists groups,
            concat groups = lines
            /\ chunkMessages lines maxLen = map render groups
            /\ Forall (fun g => g <> []) groups
            /\ packed maxLen groups).
  { unfold chunkMessages. rewrite Heq. destruct g as [|l0 g0].
    - rewrite (Hg eq_refl) in *. exists []. cbn in *. auto.
    - rewrite (render_truthy (l0 :: g0)) by discriminate.
      exists (gs ++ [l0 :: g0]). rewrite concat_app, map_app. cbn [concat map].
      rewrite app_nil_r. repeat split; auto.
      apply Forall_app. split; [exact Hne | constructor; [discriminate | constructor]]. }
  split; [exact Hall|].
  destruct Hall as (groups & Hc & Hm & Hgne & Hpk).
  split; [|split].
  - rewrite Hm, length_map, <- Hc. now apply groups_count.
  - intros ->. rewrite Hm. destruct groups as [|g1 rest]; [reflexivity|].
    inversion Hgne; subst. cbn in Hc. destruct g1; [congruence | discriminate].
  - intros Hlines Hfit. rewrite Hm.
    destruct groups as [|g1 rest]; [cbn in Hc; congruence|].
    destruct rest as [|g2 rest'].
    + cbn in Hc. rewrite app_nil_r in Hc. now subst.
    + exfalso. inversion Hgne as [|? ? _ Hr]; subst. inversion Hr as [|? ? Hg2 _]; subst.
      destruct g2 as [|l g2']; [congruence|].
      cbn [packed] in Hpk. destruct Hpk as [Hover _].
      rewrite <- Hc in Hfit. cbn [concat] in Hfit. rewrite render_length_app in Hfit.
      change ((l :: g2') ++ concat rest') with ([l] ++ (g2' ++ concat rest')) in Hfit.
      rewrite render_length_app in Hfit.
      assert (jslength (render [l]) = jslength l + 1).
      { unfold render, jslength. cbn. rewrite app_nil_r, length_app. cbn. lia. }
      assert (0 <= jslength (render (g2' ++ concat rest'))) by (unfold jslength; lia).
      lia.
Qed.

Lemma chunkMessages_packs_witness :
  chunkMessages [lit "ab"; lit "cd"] 6 = [render [lit "ab"; lit "cd"]].
Proof.
  apply (chunkMessages_packs [lit "ab"; lit "cd"] 6).
  - discriminate.
  - vm_compute. discriminate.
Defined.

(** ** The chats of [whoami] *)

Lemma extractChatsLoop_step (u : Update) (rest : list Update) (seen : list ChatInfo) :
  extractChatsLoop (u :: rest) seen =
  match chatOf u with
  | None => extractChatsLoop rest seen
  | Some chat =>
      if existsb (fun c => ci_id c =? c_id chat) seen
      then extractChatsLoop rest seen
      else extractChatsLoop rest (seen ++ [chatInfo chat])
  end.
Proof.
  cbn [extractChatsLoop]. unfold chatOf.
  destruct (orObj (message u) (channel_post u)); reflexivity.
Qed.

Lemma seen_id_iff (seen : list ChatInfo) (i : Z) :
  existsb (fun c => ci_id c =? i) seen = true <-> In i (map ci_id seen).
Proof.
  rewrite existsb_exists, in_map_iff. split.
  - intros (c & Hin & Heq). apply Z.eqb_eq in Heq. eauto.
  - intros (c & Heq & Hin). exists c. split; [exact Hin | now apply Z.eqb_eq].
Qed.

Lemma extractChatsLoop_prefix (updates : list Update) : forall seen,
  exists more, extractChatsLoop updates seen = seen ++ more.
Proof.
  induction updates as [|u rest IH]; intros seen.
  - exists []. cbn. now rewrite app_nil_r.
  - rewrite extractChatsLoop_step.
    destruct (chatOf u) as [chat|]; [|apply IH].
    destruct (existsb _ seen); [apply IH|].
    destruct (IH (seen ++ [chatInfo chat])) as [more ->].
    exists ([chatInfo chat] ++ more). now rewrite <- app_assoc.
Qed.

Lemma extractChatsLoop_inv (updates : list Update) : forall seen,
  NoDup (map ci_id seen) ->
  NoDup (map ci_id (extractChatsLoop updates seen))
  /\ (forall info, In info (extractChatsLoop updates seen) ->
        In info seen
        \/ exists u chat, In u updates /\ chatOf u = Some chat /\ info = chatInfo chat)
  /\ (forall u chat, In u updates -> chatOf u = Some chat ->
        In (c_id chat) (map ci_id (extractChatsLoop updates seen))).
Proof.
  induction updates as [|u rest IH]; intros seen Hnd.
  - cbn. split; [exact Hnd|]. split; [now left|]. intros u chat [].
  - rewrite extractChatsLoop_step.
    assert (Hskip :
      NoDup (map ci_id (extractChatsLoop rest seen))
      /\ (forall info, In info (extractChatsLoop rest seen) ->
            In info seen
            \/ exists u0 chat, In u0 (u :: rest) /\ chatOf u0 = Some chat
                               /\ info = chatInfo chat)
      /\ (forall u0 chat, In u0 rest -> chatOf u0 = Some chat ->
            In (c_id chat) (map ci_id (extractChatsLoop rest seen)))).
    { destruct (IH seen Hnd) as (H1 & H3 & H4).
      split; [exact H1|]. split; [|exact H4].
      intros info Hin. destruct (H3 info Hin) as [? | (u0 & chat & ? & ? & ?)]; [now left|].
      right. exists u0, chat. split; [now right|]. now split. }
    destruct (chatOf u) as [chat|] eqn:Ec.
    2:{ destruct Hskip as (H1 & H3 & H4).
        split; [exact H1|]. split; [exact H3|].
        intros u0 chat [<- | Hin] Hc; [congruence | eauto]. }
    destruct (existsb (fun c => ci_id c =? c_id chat) seen) eqn:Eseen.
    + destruct Hskip as (H1 & H3 & H4).
      split; [exact H1|]. split; [exact H3|].
      intros u0 chat0 [<- | Hin] Hc; [|eauto].
      rewrite Ec in Hc. injection Hc as <-.
      destruct (extractChatsLoop_prefix rest seen) as [more ->].
      rewrite map_app, in_app_iff. left. now apply seen_id_iff.
    + assert (Hnd' : NoDup (map ci_id (seen ++ [chatInfo chat]))).
      { rewrite map_app. cbn [map]. apply NoDup_app. split; [exact Hnd|]. split.
        - intros i Hi Hin. apply list_elem_of_In in Hi, Hin. destruct Hin as [<- | []].
          apply seen_id_iff in Hi. cbn [chatInfo ci_id] in Hi. congruence.
        - apply NoDup_singleton. }
      destruct (IH _ Hnd') as (H1 & H3 & H4).
      split; [exact H1|]. split.
      * intros info Hin. destruct (H3 info Hin) as [Hs | (u0 & chat0 & ? & ? & ?)].
        -- apply in_app_iff in Hs. destruct Hs as [Hs | [<- | []]]; [now left|].
           right. exists u, chat. split; [now left|]. now split.
        -- right. exists u0, chat0. split; [now right|]. now split.
      * intros u0 chat0 [<- | Hin] Hc; [|eauto].
        rewrite Ec in Hc. injection Hc as <-.
        destruct (extractChatsLoop_prefix rest (seen ++ [chatInfo chat])) as [more ->].
        rewrite !map_app, !in_app_iff. left. right. now left.
Qed.

(** X24. [extractChats] lists every chat of the updates once: the
    identifiers in the answer are all different, every chat of an update is
    there, every entry comes from a chat of an update, and for a chat that
    occurs again it is the first occurrence that is kept. *)
Theorem extractChats_each_chat_once (updates : list Update) :
  NoDup (map ci_id (extractChats updates))
  /\ (forall u chat, In u updates -> chatOf u = Some chat ->
        In (c_id chat) (map ci_id (extractChats updates)))
  /\ (forall info, In info (extractChats updates) ->
        exists u chat, In u updates /\ chatOf u = Some chat /\ info = chatInfo chat)
  /\ (forall before u after chat,
        updates = before ++ u :: after ->
        chatOf u = Some chat ->
        (forall u' chat', In u' before -> chatOf u' = Some chat' -> c_id chat' <> c_id chat) ->
        In (chatInfo chat) (extractChats updates)).
Proof.
  unfold extractChats.
  destruct (extractChatsLoop_inv updates [] (NoDup_nil_2 (A:=Z))) as (H1 & H3 & H4).
  split; [exact H1|]. split; [exact H4|]. split.
  - intros info Hin. destruct (H3 info Hin) as [[] | H]. exact H.
  - intros before u after chat -> Hc Hfirst.
    assert (Hgen : forall seen,
              existsb (fun c => ci_id c =? c_id chat) seen = false ->
              In (chatInfo chat) (extractChatsLoop (before ++ u :: after) seen)).
    { clear H1 H3 H4. induction before as [|b before IH]; intros seen Hseen.
      - cbn [app]. rewrite extractChatsLoop_step, Hc, Hseen.
        destruct (extractChatsLoop_prefix after (seen ++ [chatInfo chat])) as [more ->].
        rewrite !in_app_iff. left. right. now left.
      - cbn [app]. rewrite extractChatsLoop_step.
        assert (Hb : forall u' chat', In u' before -> chatOf u' = Some chat' ->
                       c_id chat' <> c_id chat)
          by (intros u' chat' Hin; apply Hfirst; now right).
        destruct (chatOf b) as [cb|] eqn:Eb; [|now apply IH].
        destruct (existsb (fun c => ci_id c =? c_id cb) seen); [now apply IH|].
        apply IH; [exact Hb|].
        rewrite existsb_app, Hseen. cbn [existsb chatInfo ci_id orb].
        rewrite orb_false_r. apply Z.eqb_neq. apply (Hfirst b cb); [now left | exact Eb]. }
    apply Hgen. reflexivity.
Qed.

(** ** The lines of the [.env] file *)

Lemma trimStart_blank_app (p s : jsstring) : blank p -> trimStart (p ++ s) = trimStart s.
Proof.
  induction 1 as [|c r Hc _ IH]; [reflexivity|]. cbn [app trimStart]. now rewrite Hc.
Qed.

Lemma trimStart_app_head (a b : jsstring) :
  match b with c :: _ => isWhiteSpace c = false | [] => False end ->
  trimStart (a ++ b) = trimStart a ++ b.
Proof.
  intros Hb. induction a as [|c r IH].
  - cbn [app trimStart]. destruct b as [|c r]; [destruct Hb|]. cbn [trimStart]. now rewrite Hb.
  - cbn [app trimStart]. destruct (isWhiteSpace c); [exact IH | reflexivity].
Qed.

Lemma trimEnd_app_last (z w : jsstring) :
  match last z with Some c => isWhiteSpace c = false | None => False end ->
  trimEnd (z ++ w) = z ++ trimEnd w.
Proof.
  intros Hz. unfold trimEnd. rewrite rev_app_distr, trimStart_app_head.
  - now rewrite rev_app_distr, rev_involutive.
  - rewrite <- head_rev_last in Hz. destruct (rev z); exact Hz.
Qed.

Lemma trimEnd_blank (p : jsstring) : blank p -> trimEnd p = [].
Proof.
  intros H. unfold trimEnd.
  rewrite <- (app_nil_r (rev p)), (trimStart_blank_app _ [] (blank_rev p H)). reflexivity.
Qed.

(** Trimming removes the white space around a tight text. *)
Lemma trim_pad (p x q : jsstring) :
  blank p -> tight x -> blank q -> trim (p ++ x ++ q) = x.
Proof.
  intros Hp [Hh Hl] Hq. unfold trim. rewrite (trimStart_blank_app p _ Hp).
  destruct x as [|c r].
  - cbn [app]. rewrite <- (app_nil_r q), (trimStart_blank_app q [] Hq). reflexivity.
  - rewrite (trimStart_fixed ((c :: r) ++ q)) by exact Hh.
    rewrite trimEnd_app_last, (trimEnd_blank q Hq), app_nil_r; [reflexivity|].
    destruct (last (c :: r)) eqn:E; [exact Hl|]. now apply last_None in E.
Qed.

Lemma splitAtEq_Some (s k v : jsstring) :
  splitAtEq s = Some (k, v) <-> s = k ++ 61 :: v /\ ~ In 61 k.
Proof.
  revert k. induction s as [|c r IH]; intros k.
  - cbn. split; [discriminate|]. intros [H _]. now destruct k.
  - cbn [splitAtEq]. destruct (c =? 61) eqn:E.
    + apply Z.eqb_eq in E. subst c. split.
      * intros [= <- <-]. split; [reflexivity | intros []].
      * intros [H Hk]. destruct k as [|c k]; [now injection H as ->|].
        injection H as <- _. exfalso. apply Hk. now left.
    + apply Z.eqb_neq in E. split.
      * intros H. destruct (splitAtEq r) as [[k' v']|] eqn:Er; [|discriminate].
        injection H as <- <-. destruct (proj1 (IH k') eq_refl) as [-> Hk].
        split; [reflexivity|]. intros [? | ?]; [congruence | contradiction].
      * intros [H Hk]. destruct k as [|c' k]; [injection H; congruence|].
        injection H as <- ->.
        rewrite (proj2 (IH k)); [reflexivity|].
        split; [reflexivity|]. intros ?. apply Hk. now right.
Qed.

Lemma splitAtEq_None (s : jsstring) : splitAtEq s = None <-> ~ In 61 s.
Proof.
  induction s as [|c r IH]; [cbn; tauto|]. cbn [splitAtEq In].
  destruct (c =? 61) eqn:E.
  - apply Z.eqb_eq in E. split; [discriminate | intros H; exfalso; apply H; now left].
  - apply Z.eqb_neq in E. destruct (splitAtEq r) as [[k v]|].
    + split; [discriminate|]. intros H. exfalso.
      assert (Hr : ~ In 61 r) by tauto. apply IH in Hr. discriminate.
    + split; [|reflexivity]. intros _ [? | ?]; [congruence|]. now apply (proj1 IH).
Qed.

Lemma blank_no_ink (p : jsstring) (c : Z) : blank p -> isWhiteSpace c = false -> ~ In c p.
Proof.
  intros Hp Hc Hin. unfold blank in Hp.
  rewrite List.Forall_forall in Hp. rewrite (Hp c Hin) in Hc. discriminate.
Qed.

(** What [envLine] makes of a padded [key = val] line, before the quotes of
    the value are looked at. *)
Lemma envLine_padded (p1 p2 p3 p4 key val : jsstring) :
  blank p1 -> blank p2 -> blank p3 -> blank p4 ->
  tight key -> key <> [] -> ~ In 61 key -> head key <> Some 35 ->
  tight val ->
  envLine (p1 ++ key ++ p2 ++ [61] ++ p3 ++ val ++ p4) =
  Some (key,
        if (startsWith 34 val && endsWith 34 val) || (startsWith 39 val && endsWith 39 val)
        then sliceInner val else val).
Proof.
  intros H1 H2 H3 H4 Hk Hne Heq Hhash Hv.
  assert (Htrim : trim (p1 ++ key ++ p2 ++ [61] ++ p3 ++ val ++ p4)
                  = (key ++ p2) ++ 61 :: trimEnd (p3 ++ val ++ p4)).
  { unfold trim. rewrite (trimStart_blank_app p1 _ H1).
    destruct key as [|c r]; [contradiction|].
    rewrite trimStart_fixed by (destruct Hk as [Hh _]; exact Hh).
    replace ((c :: r) ++ p2 ++ [61] ++ p3 ++ val ++ p4)
      with ((((c :: r) ++ p2) ++ [61]) ++ (p3 ++ val ++ p4))
      by (now rewrite <- !app_assoc).
    rewrite trimEnd_app_last; [now rewrite <- !app_assoc|].
    rewrite last_snoc. reflexivity. }
  unfold envLine. rewrite Htrim.
  assert (Hstart : negb (truthy ((key ++ p2) ++ 61 :: trimEnd (p3 ++ val ++ p4)))
                   || startsWith 35 ((key ++ p2) ++ 61 :: trimEnd (p3 ++ val ++ p4)) = false).
  { destruct key as [|c r]; [contradiction|]. cbn.
    apply Z.eqb_neq. intros ->. now apply Hhash. }
  rewrite Hstart.
  rewrite (proj2 (splitAtEq_Some _ (key ++ p2) (trimEnd (p3 ++ val ++ p4)))).
  2:{ split; [reflexivity|]. rewrite in_app_iff. intros [? | ?]; [contradiction|].
      now apply (blank_no_ink p2 61 H2). }
  assert (Hkey : trim (key ++ p2) = key) by (apply (trim_pad [] key p2); auto; constructor).
  assert (Hval : trim (trimEnd (p3 ++ val ++ p4)) = val).
  { destruct val as [|c r].
    - cbn [app]. rewrite trimEnd_blank; [reflexivity|]. now apply Forall_app.
    - replace (p3 ++ (c :: r) ++ p4) with ((p3 ++ c :: r) ++ p4) by (now rewrite <- app_assoc).
      rewrite trimEnd_app_last, (trimEnd_blank p4 H4), app_nil_r.
      + rewrite <- (app_nil_r (c :: r)) at 1. apply trim_pad; auto. constructor.
      + destruct Hv as [_ Hl]. rewrite last_app_cons.
        destruct (last (c :: r)) eqn:E; [exact Hl|]. now apply last_None in E. }
  cbv zeta. rewrite Hkey, Hval. reflexivity.
Qed.

(** X25. What the loop of [loadEnv] reads in a line, before the guarded
    assignment: a line [KEY=VALUE] is read as the key [KEY] and the value
    [VALUE], whatever white space surrounds the line, the key or the value,
    when the key neither starts with [#] nor contains [=]: a value that is
    not wrapped in a pair of quotes is taken as it is (it may be empty and may
    itself contain [=]), and a value wrapped in a pair of double or single
    quotes is taken without them, with everything between them kept. *)
Theorem envLine_key_value (p1 p2 p3 p4 key : jsstring) :
  blank p1 -> blank p2 -> blank p3 -> blank p4 ->
  tight key -> key <> [] -> ~ In 61 key -> head key <> Some 35 ->
  (forall val,
      tight val ->
      (forall q, q = 34 \/ q = 39 -> ~ (head val = Some q /\ last val = Some q)) ->
      envLine (p1 ++ key ++ p2 ++ [61] ++ p3 ++ val ++ p4) = Some (key, val))
  /\ (forall q inner,
      q = 34 \/ q = 39 ->
      envLine (p1 ++ key ++ p2 ++ [61] ++ p3 ++ (q :: inner ++ [q]) ++ p4)
      = Some (key, inner)).
Proof.
  intros H1 H2 H3 H4 Hk Hne Heq Hhash. split.
  - intros val Hv Hq. rewrite envLine_padded by assumption.
    assert (Hno : forall q, q = 34 \/ q = 39 -> startsWith q val && endsWith q val = false).
    { intros q Hq'. specialize (Hq q Hq'). unfold startsWith, endsWith.
      destruct val as [|c r]; [reflexivity|].
      destruct (c =? q) eqn:E1; [|reflexivity]. apply Z.eqb_eq in E1. subst c.
      destruct (last (q :: r)) as [l|] eqn:El; [|reflexivity].
      destruct (l =? q) eqn:E2; [|reflexivity]. apply Z.eqb_eq in E2. subst l.
      exfalso. apply Hq. split; reflexivity. }
    rewrite (Hno 34), (Hno 39) by auto. reflexivity.
  - intros q inner Hq. rewrite envLine_padded; try assumption.
    + assert (Hs : startsWith q (q :: inner ++ [q]) && endsWith q (q :: inner ++ [q]) = true).
      { unfold startsWith, endsWith. rewrite Z.eqb_refl.
        change (q :: inner ++ [q]) with ((q :: inner) ++ [q]). rewrite last_snoc.
        now rewrite Z.eqb_refl. }
      assert (Hin : sliceInner (q :: inner ++ [q]) = inner).
      { unfold sliceInner. cbn [tail]. apply removelast_last. }
      destruct Hq as [-> | ->]; rewrite Hs, ?orb_true_r, Hin; reflexivity.
    + assert (Hw : isWhiteSpace q = false) by (destruct Hq as [-> | ->]; reflexivity).
      split; [exact Hw|].
      change (q :: inner ++ [q]) with ((q :: inner) ++ [q]). rewrite last_snoc. exact Hw.
Qed.

Lemma envLine_key_value_witness :
  envLine (lit " TOKEN = 'a b=c' ") = Some (lit "TOKEN", lit "a b=c").
Proof.
  apply (proj2 (envLine_key_value (lit " ") (lit " ") (lit " ") (lit " ") (lit "TOKEN")
                  ltac:(repeat constructor) ltac:(repeat constructor)
                  ltac:(repeat constructor) ltac:(repeat constructor)
                  ltac:(split; reflexivity) ltac:(discriminate)
                  ltac:(cbn; intros H; repeat (destruct H as [H | H]; [discriminate H|]); exact H)
                  ltac:(discriminate))
          39 (lit "a b=c") (or_intror eq_refl)).
Defined.

(** X26. The loop of [loadEnv] reads no key in a line that is blank, whose
    first unit after the leading white space is [#], or that holds no [=].
    When it does read a key, the key is the text before the first [=] of the
    line without the white space around it: it holds no [=], neither starts
    nor ends with white space, and may be empty. *)
Theorem envLine_ignored_lines :
  (forall line, blank line -> envLine line = None)
  /\ (forall pad rest, blank pad -> envLine (pad ++ 35 :: rest) = None)
  /\ (forall line, ~ In 61 line -> envLine line = None)
  /\ (forall line key val, envLine line = Some (key, val) ->
        tight key /\ ~ In 61 key /\ In 61 line)
  /\ (exists line val, envLine line = Some ([], val)).
Proof.
  split; [|split; [|split; [|split]]].
  - intros line Hb. unfold envLine.
    rewrite <- (app_nil_r line). change (line ++ []) with (line ++ [] ++ []) at 1.
    rewrite <- (app_nil_r (line ++ [])).
    rewrite <- app_assoc. rewrite (trim_pad line [] []); [reflexivity | exact Hb | | constructor].
    split; exact I.
  - intros pad rest Hb. unfold envLine, trim.
    rewrite (trimStart_blank_app pad _ Hb).
    rewrite (trimStart_fixed (35 :: rest)) by reflexivity.
    change (35 :: rest) with ([35] ++ rest). rewrite trimEnd_app_last by reflexivity.
    reflexivity.
  - intros line Hno. unfold envLine.
    assert (Ht : ~ In 61 (trim line)).
    { intros Hin. apply Hno. unfold trim in Hin.
      destruct (trimEnd_prefix (trimStart line)) as [q Hq].
      destruct (trimStart_suffix line) as [p Hp].
      rewrite Hp, Hq, !in_app_iff. right. now left. }
    apply splitAtEq_None in Ht. rewrite Ht.
    destruct (negb (truthy (trim line)) || startsWith 35 (trim line)); reflexivity.
  - intros line key val. unfold envLine.
    destruct (negb (truthy (trim line)) || startsWith 35 (trim line)); [discriminate|].
    destruct (splitAtEq (trim line)) as [[k v]|] eqn:Es; [|discriminate].
    intros [= <- _]. apply splitAtEq_Some in Es. destruct Es as [Hs Hk].
    split; [apply trim_tight|]. split.
    + intros Hin. apply Hk. unfold trim in Hin.
      destruct (trimEnd_prefix (trimStart k)) as [q Hq].
      destruct (trimStart_suffix k) as [p Hp].
      rewrite Hp, Hq, !in_app_iff. right. now left.
    + unfold trim in Hs.
      destruct (trimEnd_prefix (trimStart line)) as [q Hq].
      destruct (trimStart_suffix line) as [p Hp].
      rewrite Hp, Hq, Hs, !in_app_iff. right. left. right. now left.
  - exists (lit "=x"), (lit "x"). reflexivity.
Qed.
